(** * Row clustering and Voronoi cell graph: a shallow embedding

    The development follows the two Python packages of the repository,
    [voronoi_tessellation] and [rows_manager], and the loop of the
    package [cnn] that picks a digit.  Python floats are
    idealised as exact rationals ([Q]); Python's [==] on numbers is
    [Qeq], and on dots (tuples) it is [dot_eq].  Exceptions are values
    of [result].  Of the helper package [lib] and of the [config] module
    only the call sites are in these packages: they enter as the fields
    of the class [Lib].  What [scipy.spatial.Voronoi] and
    [numpy.linalg.lstsq] return is theirs to say: they enter as the
    fields of the classes [Scipy] and [Numpy]. *)

From Stdlib Require Import QArith Qabs Lqa ZArith Lia.
From stdpp Require Import base option list gmap.

Local Open Scope Q_scope.

(** ** Numbers, dots, vectors *)

Definition Dot : Type := Q * Q.

(** [lib.Vector]: a mutable pair of dots.  The model passes vectors by
    value; the places where the source mutates one in place are written
    as record updates at the owner. *)
Record Vector := mkVector { v_begin : Dot; v_end : Dot }.

(** Python's [==] on two dots. *)
Definition dot_eq (p q : Dot) : Prop := p.1 == q.1 /\ p.2 == q.2.

Definition dot_eqb (p q : Dot) : bool := Qeq_bool p.1 q.1 && Qeq_bool p.2 q.2.

(** [a < b] on floats. *)
Definition Qlt_bool (a b : Q) : bool := negb (Qle_bool b a).

(** Truth value of a number: [bool(x)] is [x != 0]. *)
Definition truthy (x : Q) : bool := negb (Qeq_bool x 0).

(** Python's [max(a, b)] and [min(a, b)]: the first argument wins ties. *)
Definition py_max (a b : Q) : Q := if Qlt_bool a b then b else a.
Definition py_min (a b : Q) : Q := if Qlt_bool b a then b else a.

(** A numpy float: a number, or one of [inf], [-inf] and [nan], which
    numpy's division yields (with a warning, not an exception) when the
    divisor is zero. *)
Inductive np_float : Type :=
| Number (q : Q)
| InfOrNan.

(** A dot whose ordinate is a numpy float: the end of a ridge. *)
Definition end_dot : Type := Q * np_float.

(** The division [n / d] on numpy floats. *)
Definition np_div (n d : Q) : np_float :=
  if Qeq_bool d 0 then InfOrNan else Number (n / d).

(** ** Exceptions *)

Inductive error : Set :=
| ZeroDivisionError
| TypeError
| IndexError
| KeyError
| AttributeError
| AssertionError
| LinesDoNotIntersect
| QhullError
| LinAlgError
| NonFinite.
(* [NonFinite] is not a Python exception.  No function of the two
   packages raises it: the example kernel [SpecLib] answers with it
   when it is handed an ordinate that is [inf] or [nan]. *)

Inductive result (A : Type) : Type :=
| Ok (a : A)
| Raise (e : error).
Arguments Ok {A} a.
Arguments Raise {A} e.

Definition bind {A B} (c : result A) (k : A -> result B) : result B :=
  match c with
  | Ok a => k a
  | Raise e => Raise e
  end.

Notation "'let*' x ':=' c 'in' k" := (bind c (fun x => k))
  (at level 10, x pattern, c at level 100, k at level 200).

(** Subscripting a list with a natural index; out of range Python
    raises [IndexError]. *)
Definition subscript {A} (l : list A) (i : nat) : result A :=
  match l !! i with
  | Some a => Ok a
  | None => Raise IndexError
  end.

(** [l[-1]]. *)
Definition subscript_last {A} (l : list A) : result A :=
  match last l with
  | Some a => Ok a
  | None => Raise IndexError
  end.

(** [l[i]] for a signed index, with Python's wrap-around of negatives. *)
Definition py_index {A} (l : list A) (i : Z) : result A :=
  if (0 <=? i)%Z then subscript l (Z.to_nat i)
  else if (- i <=? Z.of_nat (length l))%Z
       then subscript l (Z.to_nat (Z.of_nat (length l) + i))
       else Raise IndexError.

(** A [for] loop over a list whose body may raise. *)
Fixpoint for_each {S A} (body : S -> A -> result S) (s : S) (l : list A) : result S :=
  match l with
  | [] => Ok s
  | a :: l' =>
      let* s' := body s a in
      for_each body s' l'
  end.

(** A list comprehension whose element expression may raise. *)
Fixpoint map_result {A B} (f : A -> result B) (l : list A) : result (list B) :=
  match l with
  | [] => Ok []
  | a :: l' =>
      let* b := f a in
      let* bs := map_result f l' in
      Ok (b :: bs)
  end.

(** ** The [lib] package and the configuration

    Only the call sites of these functions are in the sources.  A
    function that divides may raise; [get_dist_to_straight] receives an
    optional dot because [_update_top] passes [self._top_dot], which is
    [None] until a top dot has been recorded; the first line handed to
    [line_intersection] ends at the [dot_end] of a neighbour, whose
    ordinate is a numpy float. *)
Class Lib := {
  get_angle_between_vectors : Vector -> Vector -> result Q;
  get_dist_to_straight : option Dot -> Dot -> Dot -> result Q;
  get_triangle_square : Dot -> Dot -> Dot -> Q;
  get_dist_between_dots : Dot -> Dot -> Q;
  line_intersection : Dot * end_dot -> Dot * Dot -> result Dot;
  NEW_ROW_ANGLE : Q
}.

(** ** Package [voronoi_tessellation] *)

Module Voronoi.

(** After [__post_init__] the field [dot_end] always holds a dot, so the
    record stores one; the optional constructor argument is the
    parameter of [CellNeighbor_init].  The ordinate of a dot that
    [__post_init__] computed is the quotient of two numpy floats. *)
Record CellNeighbor := mkCellNeighbor {
  cell_id : Z;
  neighbor_id : Z;
  dot_start : Dot;
  dot_end : end_dot;
  is_finite : bool
}.

(** [come_with] refers to another cell object; the model stores its key
    in the registry. *)
Record Cell := mkCell {
  id : Z;
  center : Dot;
  is_closed : bool;
  neighbors : list CellNeighbor;
  digit_width : option Q;
  relative_width : option Q;
  come_with : option Z;
  predicted_number : option Z
}.

(** [Cell.objects_dict]: the registry of cells, keyed by id.  Every cell
    object lives here; rows and neighbours refer to cells by key, so a
    mutation of a cell is an update of the registry. *)
Abbreviation registry := (gmap Z Cell).

Definition lookup_cell (reg : registry) (k : Z) : result Cell :=
  match reg !! k with
  | Some c => Ok c
  | None => Raise KeyError
  end.

(** [Cell(i, center=dot)] with [__post_init__]: the new cell is
    registered unless its id is taken. *)
Definition Cell_init (reg : registry) (i : Z) (c : Dot) : registry :=
  let self := mkCell i c false [] None None None None in
  match reg !! i with
  | Some _ => reg
  | None => <[i := self]> reg
  end.

Definition append_neighbor (n : CellNeighbor) (c : Cell) : Cell :=
  mkCell (id c) (center c) (is_closed c) (neighbors c ++ [n])
         (digit_width c) (relative_width c) (come_with c) (predicted_number c).

(** [lstsq(A, y_coords)[0]] of lines 29-31, for [points = [p0, p1]]:
    the pair [(m, c)] that [numpy.linalg.lstsq] returns for the system
    [[x0, 1], [x1, 1]] (m, c) = (y0, y1), or the exception it raises.
    The pair is computed in floating point, so that nothing is assumed
    of it: not that it is the exact solution, nor that it is the same
    for the two orders of the points. *)
Class Numpy := {
  lstsq : Dot -> Dot -> result (Q * Q)
}.

Section Neighbors.
Context `{Numpy}.

(** The replacement end point of an unbounded ridge, lines 27-48.  The
    division of line 47 is one of numpy floats: a zero divisor gives no
    exception. *)
Definition synthesize_dot_end (p0 p1 dot_start : Dot) : result end_dot :=
  let* (m, c) := lstsq p0 p1 in
  let '(a, b, c) := (m, -(1), - c) in
  let '(a, b) := (b, - a) in
  let c := - (a * dot_start.1 + b * dot_start.2) in
  let a_ := if Qlt_bool b 0 then a * -(1) else a in
  let x := if Qle_bool 0 a_ then py_max p0.1 p1.1 else py_min p0.1 p1.1 in
  let y := np_div (- (a * x + c)) b in
  Ok (x, y).

(** [CellNeighbor(cell_id, neighbor_id, dot_start, dot_end)] followed by
    [__post_init__].  A dot, being a non-empty tuple, is truthy. *)
Definition CellNeighbor_init (reg : registry) (cid nid : Z)
    (start : Dot) (end_ : option Dot) : result CellNeighbor :=
  match end_ with
  | Some e => Ok (mkCellNeighbor cid nid start (e.1, Number e.2) true)
  | None =>
      let* c0 := lookup_cell reg cid in
      let* c1 := lookup_cell reg nid in
      let* e := synthesize_dot_end (center c0) (center c1) start in
      Ok (mkCellNeighbor cid nid start e false)
  end.

End Neighbors.

(** What [scipy.spatial.Voronoi] hands back, as far as [process] reads
    it: the vertices and the items of [ridge_dict], which maps a pair of
    generator indices to a pair of vertex indices, [-1] standing for the
    vertex at infinity. *)
Record VoronoiResult := mkVoronoiResult {
  vertices : list Dot;
  ridge_dict : list ((Z * Z) * (Z * Z))
}.

Class Scipy := {
  Voronoi : list Dot -> result VoronoiResult
}.

(** [for i, dot in enumerate(self.dots): Cell(i, center=dot)]. *)
Fixpoint create_cells (reg : registry) (i : Z) (dots : list Dot) : registry :=
  match dots with
  | [] => reg
  | d :: dots' => create_cells (Cell_init reg i d) (i + 1)%Z dots'
  end.

Section Tessellation.
Context `{Scipy} `{Numpy}.

(** One iteration of the loop over [ridge_dict.items()], lines 114-143.
    [cell_1] and [cell_2] are the objects stored under the two keys. *)
Definition process_ridge (verts : list Dot) (reg : registry)
    (item : (Z * Z) * (Z * Z)) : result registry :=
  let '((k0, k1), (d0, d1)) := item in
  let* cell_1 := lookup_cell reg k0 in
  let* cell_2 := lookup_cell reg k1 in
  if (d0 =? -1)%Z || (d1 =? -1)%Z then
    let dot_id := if (d0 =? -1)%Z then d1 else d0 in
    let* v := py_index verts dot_id in
    let* n1 := CellNeighbor_init reg (id cell_1) k1 v None in
    let reg := alter (append_neighbor n1) k0 reg in
    let* n2 := CellNeighbor_init reg (id cell_2) k0 v None in
    Ok (alter (append_neighbor n2) k1 reg)
  else
    let* v0 := py_index verts d0 in
    let* v1 := py_index verts d1 in
    let* n1 := CellNeighbor_init reg (id cell_1) k1 v0 (Some v1) in
    let reg := alter (append_neighbor n1) k0 reg in
    let* n2 := CellNeighbor_init reg (id cell_2) k0 v0 (Some v1) in
    Ok (alter (append_neighbor n2) k1 reg).

Fixpoint process_ridges (verts : list Dot) (reg : registry)
    (items : list ((Z * Z) * (Z * Z))) : result registry :=
  match items with
  | [] => Ok reg
  | item :: items' =>
      let* reg' := process_ridge verts reg item in
      process_ridges verts reg' items'
  end.

(** [VoronoiTesselation.process]: returns the registry it leaves in
    [Cell.objects_dict]. *)
Definition process (dots : list Dot) : result registry :=
  let reg := create_cells ∅ 0%Z dots in
  let* vr := Voronoi dots in
  process_ridges (vertices vr) reg (ridge_dict vr).

End Tessellation.

Section CellMethods.
Context `{Lib}.

(** [Cell._get_dist_to_neighbor]. *)
Definition _get_dist_to_neighbor (self : Cell) (neighbor : CellNeighbor) : result Q :=
  let points_on_divider := (dot_start neighbor, dot_end neighbor) in
  let points_on_line := (center self, ((center self).1 + 1, (center self).2)) in
  let* p := line_intersection points_on_divider points_on_line in
  Ok (get_dist_between_dots p (center self)).

Definition set_digit_width (c : Cell) (w : Q) : Cell :=
  mkCell (id c) (center c) (is_closed c) (neighbors c)
         (Some w) (relative_width c) (come_with c) (predicted_number c).

Definition matching_neighbors (self : Cell) (neighbor_ids : list Z) : list CellNeighbor :=
  filter (fun n => neighbor_id n ∈ neighbor_ids) (neighbors self).

(** [Cell.calculate_width]: the cell after the call, or the exception. *)
Definition calculate_width (self : Cell) (neighbor_ids : list Z) : result Cell :=
  match matching_neighbors self neighbor_ids with
  | [n] =>
      let* w := _get_dist_to_neighbor self n in
      Ok (set_digit_width self w)
  | [n0; n1] =>
      let* w1 := _get_dist_to_neighbor self n0 in
      let* w2 := _get_dist_to_neighbor self n1 in
      Ok (set_digit_width self (py_min w1 w2))
  | _ => Raise AttributeError
  end.

End CellMethods.

End Voronoi.

(** ** Package [rows_manager]: class [MatrixRow] *)

Module MatrixRows.

(** [voronoi_cells] holds references to cell objects; the model keeps
    their keys in the registry. *)
Record MatrixRow := mkMatrixRow {
  index : Z;
  vectors_list : list Vector;
  cos_list : list Q;
  top : Q;
  bottom : Q;
  _top_dot : option Dot;
  _bottom_dot : option Dot;
  voronoi_cells : list Z;
  _is_vector_extended : bool
}.

(** [MatrixRow(index)] with the dataclass defaults and [__post_init__]. *)
Definition MatrixRow_init (i : Z) : MatrixRow :=
  mkMatrixRow i [] [] 0 0 None None [] false.

Definition set_vectors_list (self : MatrixRow) (vl : list Vector) (ext : bool) : MatrixRow :=
  mkMatrixRow (index self) vl (cos_list self) (top self) (bottom self)
              (_top_dot self) (_bottom_dot self) (voronoi_cells self) ext.

Definition set_top (self : MatrixRow) (d : option Dot) (t : Q) : MatrixRow :=
  mkMatrixRow (index self) (vectors_list self) (cos_list self) t (bottom self)
              d (_bottom_dot self) (voronoi_cells self) (_is_vector_extended self).

Definition set_bottom (self : MatrixRow) (d : option Dot) (b : Q) : MatrixRow :=
  mkMatrixRow (index self) (vectors_list self) (cos_list self) (top self) b
              (_top_dot self) d (voronoi_cells self) (_is_vector_extended self).

Definition set_voronoi_cells (self : MatrixRow) (cells : list Z) : MatrixRow :=
  mkMatrixRow (index self) (vectors_list self) (cos_list self) (top self) (bottom self)
              (_top_dot self) (_bottom_dot self) cells (_is_vector_extended self).

(** The property [final_vector]. *)
Definition final_vector (self : MatrixRow) : result Vector :=
  let* first := subscript (vectors_list self) 0 in
  let* last := subscript_last (vectors_list self) in
  Ok (mkVector (v_begin first) (v_end last)).

Section Methods.
Context `{Lib}.

(** [_update_top]. *)
Definition _update_top (self : MatrixRow) (new_top : Dot) : result MatrixRow :=
  match vectors_list self with
  | [] => Ok self
  | _ =>
      let* fv := final_vector self in
      let* d := get_dist_to_straight (Some new_top) (v_begin fv) (v_end fv) in
      if Qlt_bool (top self) d then
        Ok (set_top self (Some new_top) d)
      else
        let* d := get_dist_to_straight (_top_dot self) (v_begin fv) (v_end fv) in
        Ok (set_top self (_top_dot self) d)
  end.

(** [_update_bottom]. *)
Definition _update_bottom (self : MatrixRow) (new_bottom : Dot) : result MatrixRow :=
  match vectors_list self with
  | [] => Ok self
  | _ =>
      let* fv := final_vector self in
      let* d := get_dist_to_straight (Some new_bottom) (v_begin fv) (v_end fv) in
      if Qlt_bool (bottom self) d then
        Ok (set_bottom self (Some new_bottom) d)
      else
        let* d := get_dist_to_straight (_bottom_dot self) (v_begin fv) (v_end fv) in
        Ok (set_bottom self (_bottom_dot self) d)
  end.

(** The first three lines of [add_hatch]: a lone vector that was never
    extended has its end moved, any other row grows by [vector]. *)
Definition extend_or_append (self : MatrixRow) (vector : Vector) : MatrixRow :=
  match vectors_list self with
  | [v0] =>
      if negb (_is_vector_extended self) then
        set_vectors_list self [mkVector (v_begin v0) (v_end vector)] true
      else
        set_vectors_list self (vectors_list self ++ [vector]) (_is_vector_extended self)
  | _ => set_vectors_list self (vectors_list self ++ [vector]) (_is_vector_extended self)
  end.

(** [add_hatch]. *)
Definition add_hatch (self : MatrixRow) (vector : Vector) (top bottom : Dot)
    : result MatrixRow :=
  let self := extend_or_append self vector in
  let* self := _update_top self top in
  _update_bottom self bottom.

(** The four corners [x1, x2, x3, x4] of the band and the point
    [middle], as [is_dot_inside_row] builds them. *)
Definition band_corners (fv : Vector) (top bottom : Q) : list Dot :=
  [ ((v_begin fv).1, (v_begin fv).2 + bottom);
    ((v_end fv).1, (v_end fv).2 + bottom);
    ((v_end fv).1, (v_end fv).2 - top);
    ((v_begin fv).1, (v_begin fv).2 - top) ].

Definition band_middle (fv : Vector) (top bottom : Q) : Dot :=
  let x1 := ((v_begin fv).1, (v_begin fv).2 + bottom) in
  let x2 := ((v_end fv).1, (v_end fv).2 + bottom) in
  let x3 := ((v_end fv).1, (v_end fv).2 - top) in
  ((x1.1 + x2.1) / 2, (x2.2 + x3.2) / 2).

(** The loop [for i in range(4)] for one of the two sums: the areas of
    the triangles over the edges [x[i], x[(i + 1) % 4]]. *)
Definition fan_area (x : list Dot) (p : Dot) : Q :=
  fold_left
    (fun s i =>
       match x !! i, x !! ((i + 1) mod 4)%nat with
       | Some dot1, Some dot2 => s + get_triangle_square dot1 dot2 p
       | _, _ => s
       end)
    (seq 0 4) 0.

(** [is_dot_inside_row]. *)
Definition is_dot_inside_row (self : MatrixRow) (dot : Dot) : result bool :=
  let* fv := final_vector self in
  let x := band_corners fv (top self) (bottom self) in
  let middle := band_middle fv (top self) (bottom self) in
  let s1 := fan_area x dot in
  let s2 := fan_area x middle in
  Ok (Qlt_bool (Qabs (s1 - s2)) (1 # 1000)).

(** The dots of the row, as [is_dots_come_together] lists them. *)
Definition row_dots (self : MatrixRow) : result (list Dot) :=
  let* first := subscript (vectors_list self) 0 in
  Ok (v_begin first :: map v_end (vectors_list self)).

(** [is_dots_come_together]: [1 / height] raises when the height is zero. *)
Definition is_dots_come_together (self : MatrixRow) (i j : nat) : result bool :=
  let height := top self + bottom self in
  if Qeq_bool height 0 then Raise ZeroDivisionError else
  let k := 1 / height in
  let* dots := row_dots self in
  let* d1 := subscript dots i in
  let* d2 := subscript dots j in
  let dist := get_dist_between_dots d1 d2 * k in
  let f_value := (461394 # 10000000) * k * 1000 + (67440243 # 100000000) in
  Ok (Qlt_bool dist f_value).

(** [enumerate(self.voronoi_cells[:-1])] paired with
    [self.voronoi_cells[i + 1]]: the consecutive pairs, with their index. *)
Definition adjacent_pairs (cells : list Z) : list (nat * (Z * Z)) :=
  imap (fun i p => (i, p)) (zip cells (tail cells)).

Definition set_relative_width (w : Q) (c : Voronoi.Cell) : Voronoi.Cell :=
  Voronoi.mkCell (Voronoi.id c) (Voronoi.center c) (Voronoi.is_closed c)
    (Voronoi.neighbors c) (Voronoi.digit_width c) (Some w)
    (Voronoi.come_with c) (Voronoi.predicted_number c).

Definition set_come_with (k : Z) (c : Voronoi.Cell) : Voronoi.Cell :=
  Voronoi.mkCell (Voronoi.id c) (Voronoi.center c) (Voronoi.is_closed c)
    (Voronoi.neighbors c) (Voronoi.digit_width c) (Voronoi.relative_width c)
    (Some k) (Voronoi.predicted_number c).

(** [sum([cell.digit_width for cell in self.voronoi_cells])]: adding
    [None] raises. *)
Fixpoint sum_digit_width (reg : Voronoi.registry) (cells : list Z) : result Q :=
  match cells with
  | [] => Ok 0
  | k :: cells' =>
      let* c := Voronoi.lookup_cell reg k in
      match Voronoi.digit_width c with
      | None => Raise TypeError
      | Some w =>
          let* s := sum_digit_width reg cells' in
          Ok (w + s)
      end
  end.

(** Float division. *)
Definition py_div (n d : Q) : result Q :=
  if Qeq_bool d 0 then Raise ZeroDivisionError else Ok (n / d).

(** The body of the loop of [predict_neighbor_cells]. *)
Definition predict_step (average_cell_width : Q) (reg : Voronoi.registry)
    (item : nat * (Z * Z)) : result Voronoi.registry :=
  let '(_, (k, k_next)) := item in
  let* cell := Voronoi.lookup_cell reg k in
  let* next := Voronoi.lookup_cell reg k_next in
  let d := get_dist_between_dots (Voronoi.center cell) (Voronoi.center next) in
  let* rel := py_div d average_cell_width in
  let reg := alter (set_relative_width rel) k reg in
  if Qle_bool rel (3 # 2) then Ok (alter (set_come_with k_next) k reg)
  else Ok reg.

(** [predict_neighbor_cells] (heuristic A): the registry after the call. *)
Definition predict_neighbor_cells (self : MatrixRow) (reg : Voronoi.registry)
    : result Voronoi.registry :=
  let* total := sum_digit_width reg (voronoi_cells self) in
  let* average_cell_width := py_div total (inject_Z (Z.of_nat (length (voronoi_cells self)))) in
  for_each (predict_step average_cell_width) reg (adjacent_pairs (voronoi_cells self)).

(** The body of the loop of [predict_neighbor_cells_2]. *)
Definition predict_step_2 (self : MatrixRow) (reg : Voronoi.registry)
    (item : nat * (Z * Z)) : result Voronoi.registry :=
  let '(i, (k, k_next)) := item in
  let* together := is_dots_come_together self i (i + 1) in
  if together then Ok (alter (set_come_with k_next) k reg) else Ok reg.

(** [predict_neighbor_cells_2] (heuristic B). *)
Definition predict_neighbor_cells_2 (self : MatrixRow) (reg : Voronoi.registry)
    : result Voronoi.registry :=
  for_each (predict_step_2 self) reg (adjacent_pairs (voronoi_cells self)).

End Methods.

End MatrixRows.

(** ** Package [rows_manager]: class [RowsManager] *)

Module Manager.
Import MatrixRows.

Record RowsManager := mkRowsManager {
  vectors : list Vector;
  dots : list Dot;
  cos_list : list Q;
  top_list : list Dot;
  bottom_list : list Dot;
  rows : list MatrixRow;
  processed : bool
}.

(** [__init__]. *)
Definition RowsManager_init : RowsManager :=
  mkRowsManager [] [] [] [] [] [] false.

(** [clear]. *)
Definition clear (self : RowsManager) : RowsManager :=
  mkRowsManager [] [] [] [] [] [] false.

(** [is_hatch_horizontal]. *)
Definition is_hatch_horizontal (top bottom : Q) : bool :=
  Qle_bool (Qabs (top - bottom)) 20.

(** A stroke as [add_new_hatch] receives it. *)
Record Hatch := mkHatch { left : Dot; right : Dot; h_top : Dot; h_bottom : Dot }.

Definition middle_dot (h : Hatch) : Dot :=
  (((left h).1 + (right h).1) / 2, ((h_top h).2 + (h_bottom h).2) / 2).

Section Methods.
Context `{Lib}.

(** [add_new_hatch]: the manager after the call together with the
    outcome.  When the cosine cannot be computed the exception leaves
    the vector already appended. *)
Definition add_new_hatch (self : RowsManager) (h : Hatch) : RowsManager * result unit :=
  let middle_dot := middle_dot h in
  let dots :=
    if negb (is_hatch_horizontal (h_top h).2 (h_bottom h).2)
    then dots self ++ [middle_dot] else dots self in
  match vectors self with
  | [] =>
      (mkRowsManager [mkVector middle_dot middle_dot] dots (cos_list self)
         (top_list self ++ [h_top h]) (bottom_list self ++ [h_bottom h])
         (rows self) (processed self), Ok tt)
  | _ =>
      match last (vectors self) with
      | None => (self, Raise IndexError)
      | Some prev =>
          let prev_vector_end := v_end prev in
          let new := mkVector prev_vector_end middle_dot in
          let vectors := vectors self ++ [new] in
          match get_angle_between_vectors new (mkVector (0, 0) (1, 0)) with
          | Raise e =>
              (mkRowsManager vectors dots (cos_list self) (top_list self)
                 (bottom_list self) (rows self) (processed self), Raise e)
          | Ok cos =>
              (mkRowsManager vectors dots (cos_list self ++ [cos])
                 (top_list self ++ [h_top h]) (bottom_list self ++ [h_bottom h])
                 (rows self) (processed self), Ok tt)
          end
      end
  end.

(** Feeding a sequence of strokes; the first exception stops the feed. *)
Fixpoint add_hatches (self : RowsManager) (hs : list Hatch) : RowsManager * result unit :=
  match hs with
  | [] => (self, Ok tt)
  | h :: hs' =>
      match add_new_hatch self h with
      | (self', Ok _) => add_hatches self' hs'
      | (self', Raise e) => (self', Raise e)
      end
  end.

(** What one iteration of the loop of [process] did; the first and the
    third are the messages the source logs, the other two record the
    calls it makes. *)
Inductive event :=
| Skipped
| AddHatch (vector : Vector) (top bottom : Dot)
| AddedToRow (index : Z)
| NewRow (row_id : Z).

(** The local variables of [process], with [self.rows]. *)
Record loop_state := mkLoop {
  l_rows : list MatrixRow;
  row_id : Z;
  is_added_to_existing_row : bool;
  is_prev_horizontal : bool;
  trace : list event
}.

(** An update of [self.rows[-1]] in place. *)
Fixpoint on_last_row (f : MatrixRow -> result MatrixRow) (rows : list MatrixRow)
    : result (list MatrixRow) :=
  match rows with
  | [] => Raise IndexError
  | [r] =>
      let* r' := f r in
      Ok [r']
  | r :: rs =>
      let* rs' := on_last_row f rs in
      Ok (r :: rs')
  end.

Definition update_top_bottom (top bottom : Dot) (r : MatrixRow) : result MatrixRow :=
  let* r := _update_top r top in
  _update_bottom r bottom.

(** The search loop of [_process_hatch_not_current_row]: the first row
    with non-zero [top] and [bottom] whose band test accepts the dot. *)
Fixpoint find_row (rows : list MatrixRow) (dot : Dot) : result (option MatrixRow) :=
  match rows with
  | [] => Ok None
  | row :: rows' =>
      if truthy (top row) && truthy (bottom row) then
        let* inside := is_dot_inside_row row dot in
        if inside then Ok (Some row) else find_row rows' dot
      else find_row rows' dot
  end.

(** [_process_hatch_not_current_row]: the rows afterwards, the flag and
    the row id it returns, and what it logged. *)
Definition _process_hatch_not_current_row (rows : list MatrixRow) (row_id : Z)
    (vector : Vector) (top bottom : Dot)
    : result (list MatrixRow * bool * Z * event) :=
  let* found := find_row rows (v_end vector) in
  match found with
  | Some row => Ok (rows, true, row_id, AddedToRow (index row))
  | None =>
      let row_id := (row_id + 1)%Z in
      let* rows := on_last_row (update_top_bottom top bottom) rows in
      let new := set_vectors_list (MatrixRow_init row_id)
                   [mkVector (v_end vector) (v_end vector)] false in
      Ok (rows ++ [new], false, row_id, NewRow row_id)
  end.

(** [_add_hatch_to_current_row]. *)
Definition _add_hatch_to_current_row (rows : list MatrixRow)
    (vector : Vector) (top bottom : Dot) : result (list MatrixRow) :=
  on_last_row (fun r => add_hatch r vector top bottom) rows.

(** The test that opens the loop body: is hatch [i + 1] horizontal? *)
Definition next_is_horizontal (self : RowsManager) (i : nat) : result bool :=
  if decide (i + 1 < length (top_list self))%nat then
    let* t := subscript (top_list self) (i + 1) in
    let* b := subscript (bottom_list self) (i + 1) in
    Ok (is_hatch_horizontal t.2 b.2)
  else Ok false.

(** The tuples the loop of [process] runs over:
    [zip(self.cos_list, self.vectors[1:], self.top_list, self.bottom_list)],
    numbered by [i]. *)
Definition loop_items (self : RowsManager) : list (nat * (Q * (Vector * (Dot * Dot)))) :=
  imap (fun i x => (i, x))
       (zip (cos_list self) (zip (tail (vectors self)) (zip (top_list self) (bottom_list self)))).

(** The body of the loop of [process], lines 188-213. *)
Definition process_step (self : RowsManager) (st : loop_state)
    (item : nat * (Q * (Vector * (Dot * Dot)))) : result loop_state :=
  let '(i, (cos, (vector, (top, bottom)))) := item in
  let* skip := next_is_horizontal self i in
  if skip then
    Ok (mkLoop (l_rows st) (row_id st) true true (trace st ++ [Skipped]))
  else if Qle_bool cos NEW_ROW_ANGLE then
    let* vector :=
      if is_prev_horizontal st then
        let* last := subscript_last (l_rows st) in
        let* fv := final_vector last in
        Ok (mkVector (v_end fv) (v_end vector))
      else Ok vector in
    let* rows := _add_hatch_to_current_row (l_rows st) vector top bottom in
    Ok (mkLoop rows (row_id st) false false (trace st ++ [AddHatch vector top bottom]))
  else
    let* (rows, added, rid, ev) :=
      _process_hatch_not_current_row (l_rows st) (row_id st) vector top bottom in
    Ok (mkLoop rows rid added (is_prev_horizontal st) (trace st ++ [ev])).

(** The state in which the loop of [process] starts, lines 173-183: one
    row holding the first vector. *)
Definition loop_start (v0 : Vector) : loop_state :=
  mkLoop [set_vectors_list (MatrixRow_init 0) [v0] false] 0 false false [].

(** [process]: the manager with its rows, and the trace of the pass.
    The vectors the rows share with [self.vectors] are changed in place
    by the source; the rows below carry these changes, the list
    [vectors] of the manager is left as it was. *)
Definition process (self : RowsManager) : result (RowsManager * list event) :=
  let* v0 := subscript (vectors self) 0 in
  let* st := for_each (process_step self) (loop_start v0) (loop_items self) in
  let* rows :=
    if negb (is_added_to_existing_row st) then
      let* t := subscript_last (top_list self) in
      let* rows := on_last_row (fun r => _update_top r t) (l_rows st) in
      let* b := subscript_last (bottom_list self) in
      on_last_row (fun r => _update_bottom r b) rows
    else Ok (l_rows st) in
  Ok (mkRowsManager (vectors self) (dots self) (cos_list self) (top_list self)
        (bottom_list self) rows true, trace st).

(** [Cell.objects_dict.items()].  [VoronoiTesselation.process] registers
    the ids 0, 1, 2, ... in this order, which is the order in which a
    Python dict yields them. *)
Definition registry_items (reg : Voronoi.registry) : list (Z * Voronoi.Cell) :=
  omap (fun k => (fun c => (k, c)) <$> reg !! k) (seqZ 0 (Z.of_nat (size reg))).

(** [cell_id_center_dict[p]], the dict being filled from [items] in
    order: the last cell with that center wins. *)
Definition cell_id_center_dict (items : list (Z * Voronoi.Cell)) (p : Dot) : result Z :=
  match last (filter (fun kc => dot_eqb (Voronoi.center kc.2) p) items) with
  | Some kc => Ok kc.1
  | None => Raise KeyError
  end.

(** The first loop of [add_voronoi_cells] for one row. *)
Definition attach_cells (items : list (Z * Voronoi.Cell)) (row : MatrixRow) : result MatrixRow :=
  let* begins := map_result (fun v => cell_id_center_dict items (v_begin v)) (vectors_list row) in
  let* last := subscript_last (vectors_list row) in
  let* e := cell_id_center_dict items (v_end last) in
  Ok (set_voronoi_cells row (voronoi_cells row ++ begins ++ [e])).

(** [neighbor_cells] of the second loop: the row-adjacent cells of each
    cell of the row. *)
Definition neighbor_cells (cells : list Z) : result (list (list Z)) :=
  let* second := subscript cells 1 in
  let* inner := map_result
                  (fun i => let* a := subscript cells (i - 1) in
                            let* b := subscript cells (i + 1) in
                            Ok [a; b])
                  (seq 1 (length cells - 2)) in
  let* before_last := py_index cells (-2) in
  Ok ([second] :: inner ++ [[before_last]]).

(** [cell.calculate_width([neighbor.id for neighbor in neighbor_cells[i]])]
    on the cell stored under [k]. *)
Definition calculate_width_at (reg : Voronoi.registry) (kn : Z * list Z)
    : result Voronoi.registry :=
  let '(k, ns) := kn in
  let* ids := map_result (fun n => let* c := Voronoi.lookup_cell reg n in
                                   Ok (Voronoi.id c)) ns in
  let* cell := Voronoi.lookup_cell reg k in
  let* cell := Voronoi.calculate_width cell ids in
  Ok (<[k := cell]> reg).

(** The second loop of [add_voronoi_cells] for one row. *)
Definition calculate_widths (reg : Voronoi.registry) (row : MatrixRow)
    : result Voronoi.registry :=
  let* ncs := neighbor_cells (voronoi_cells row) in
  for_each calculate_width_at reg (zip (voronoi_cells row) ncs).

(** [add_voronoi_cells]: the manager and the registry after the call. *)
Definition add_voronoi_cells (self : RowsManager) (reg : Voronoi.registry)
    : result (RowsManager * Voronoi.registry) :=
  if negb (processed self) then Raise AssertionError else
  let items := registry_items reg in
  let* rows := map_result (attach_cells items) (rows self) in
  let* reg := for_each calculate_widths reg rows in
  Ok (mkRowsManager (vectors self) (dots self) (cos_list self) (top_list self)
        (bottom_list self) rows true, reg).

(** [predict_rows_neighbor_cells]. *)
Definition predict_rows_neighbor_cells (self : RowsManager) (reg : Voronoi.registry)
    : result Voronoi.registry :=
  for_each (fun reg row => predict_neighbor_cells row reg) reg (rows self).

(** [predict_rows_neighbor_cells_2]. *)
Definition predict_rows_neighbor_cells_2 (self : RowsManager) (reg : Voronoi.registry)
    : result Voronoi.registry :=
  for_each (fun reg row => predict_neighbor_cells_2 row reg) reg (rows self).

End Methods.

End Manager.

(** ** Package [cnn]: the choice of the digit

    Of the class [CNN] only the loop that picks the digit from the
    scores of the network is arithmetic of its own; the rest drives
    Keras, OpenCV and the file system. *)

Module CNN.

(** One iteration of
    [for i, v in enumerate(f[0]): if v > max_v: max_v = v; d = i],
    the loop of [predict_concrete_number] and of [test_model]. *)
Definition argmax_step (st : Q * nat) (iv : nat * Q) : Q * nat :=
  let '(max_v, d) := st in
  let '(i, v) := iv in
  if Qlt_bool max_v v then (v, i) else (max_v, d).

(** The loop, from [max_v, d = 0, 0]. *)
Definition argmax_loop (f : list Q) : Q * nat :=
  fold_left argmax_step (imap (fun i v => (i, v)) f) (0, 0%nat).

(** The digit [d] that [predict_concrete_number] returns for the
    scores [f[0]]. *)
Definition predicted_digit (f : list Q) : nat := (argmax_loop f).2.

End CNN.

(** ** A concrete [lib], for evaluating the code on examples *)

Module SpecLib.

(** Modelled from the spec: the geometry kernel of [lib] (section 4.1),
    which is not in the sources.  The square root is taken to nine
    decimal places, rounded down; it is exact whenever the root has at
    most nine decimals, which is the case in every example below where
    its value matters. *)
Definition Qsqrt (x : Q) : Q :=
  let n := Qnum x in
  let d := Zpos (Qden x) in
  Qmake (Z.sqrt (n * d * 10 ^ 18)) (Qden x * 1000000000).

Definition sq (x : Q) : Q := x * x.

Definition direction (v : Vector) : Q * Q :=
  ((v_end v).1 - (v_begin v).1, (v_end v).2 - (v_begin v).2).

(** Modelled from the spec: [angle_cosine], the dot product over the
    product of the magnitudes; a zero-length vector is a division by
    zero. *)
Definition angle_cosine (v1 v2 : Vector) : result Q :=
  let '(x1, y1) := direction v1 in
  let '(x2, y2) := direction v2 in
  let n := Qsqrt (sq x1 + sq y1) * Qsqrt (sq x2 + sq y2) in
  if Qeq_bool n 0 then Raise ZeroDivisionError
  else Ok ((x1 * x2 + y1 * y2) / n).

(** Modelled from the spec: [perpendicular_distance], the distance from
    a point to the line through two points.  Without a point there is
    nothing to subscript; a degenerate line is a division by zero. *)
Definition perpendicular_distance (p : option Dot) (a b : Dot) : result Q :=
  match p with
  | None => Raise TypeError
  | Some p =>
      let n := Qsqrt (sq (b.2 - a.2) + sq (b.1 - a.1)) in
      if Qeq_bool n 0 then Raise ZeroDivisionError
      else Ok (Qabs ((b.2 - a.2) * p.1 - (b.1 - a.1) * p.2 + b.1 * a.2 - b.2 * a.1) / n)
  end.

(** Modelled from the spec: [triangle_area], the absolute area by the
    shoelace formula. *)
Definition triangle_area (a b c : Dot) : Q :=
  Qabs (a.1 * (b.2 - c.2) + b.1 * (c.2 - a.2) + c.1 * (a.2 - b.2)) / 2.

(** Modelled from the spec: [distance_between], the Euclidean distance. *)
Definition distance_between (a b : Dot) : Q :=
  Qsqrt (sq (a.1 - b.1) + sq (a.2 - b.2)).

(** Modelled from the spec: [line_intersection] of two lines, each given
    by two points; parallel lines have none. *)
Definition intersection (l1 l2 : Dot * Dot) : result Dot :=
  let xdiff := ((l1.1).1 - (l1.2).1, (l2.1).1 - (l2.2).1) in
  let ydiff := ((l1.1).2 - (l1.2).2, (l2.1).2 - (l2.2).2) in
  let det := fun a b : Q * Q => a.1 * b.2 - a.2 * b.1 in
  let div := det xdiff ydiff in
  if Qeq_bool div 0 then Raise LinesDoNotIntersect
  else
    let d := (det (l1.1) (l1.2), det (l2.1) (l2.2)) in
    Ok (det d xdiff / div, det d ydiff / div).

(** Modelled from the spec: [line_intersection] when the first line ends
    at the [dot_end] of a neighbour.  Where the spec comes to a
    computation that produces NaN (its open question on degenerate
    inputs) it asks for an explicit degenerate-input error: a line
    through a dot whose ordinate is [inf] or [nan] is answered with
    one. *)
Definition divider_intersection (l1 : Dot * end_dot) (l2 : Dot * Dot) : result Dot :=
  match l1.2.2 with
  | Number y => intersection (l1.1, (l1.2.1, y)) l2
  | InfOrNan => Raise NonFinite
  end.

(** The kernel with the configured threshold [NEW_ROW_ANGLE]. *)
Definition spec_lib (new_row_angle : Q) : Lib :=
  {| get_angle_between_vectors := angle_cosine;
     get_dist_to_straight := perpendicular_distance;
     get_triangle_square := triangle_area;
     get_dist_between_dots := distance_between;
     line_intersection := divider_intersection;
     NEW_ROW_ANGLE := new_row_angle |}.

End SpecLib.

(** ** Properties stated about the code *)

Module Props.
Import MatrixRows Manager.

(** The parallel-list invariant of the manager. *)
Definition parallel_lists (m : RowsManager) : Prop :=
  length (top_list m) = length (vectors m) /\
  length (bottom_list m) = length (vectors m) /\
  Z.of_nat (length (cos_list m)) = (Z.of_nat (length (vectors m)) - 1)%Z.

(** A list of vectors in which every vector starts where the previous
    one ends, [==] being Python's equality on dots. *)
Fixpoint contiguous (vl : list Vector) : Prop :=
  match vl with
  | v :: ((w :: _) as vl') => dot_eq (v_end v) (v_begin w) /\ contiguous vl'
  | _ => True
  end.

(** C2 in the words of the spec: the corners folded with a vector are
    those of the stroke whose middle dot is the end of that vector, the
    stroke fed after the one at which the vector starts. *)
Definition folds_corners_of_end_stroke `{Lib} (hs : list Hatch) : Prop :=
  forall m m' tr i v t b h,
    add_hatches RowsManager_init hs = (m, Ok tt) ->
    process m = Ok (m', tr) ->
    tr !! i = Some (AddHatch v t b) ->
    hs !! S i = Some h ->
    dot_eq t (h_top h) /\ dot_eq b (h_bottom h).

(** The state of the loop of [process] after its first [n] iterations. *)
Definition loop_after `{Lib} (self : RowsManager) (n : nat) : result loop_state :=
  let* v0 := subscript (vectors self) 0 in
  for_each (process_step self) (loop_start v0) (take n (loop_items self)).

(** The manager after one call of [add_new_hatch] per stroke, the
    caller going on to the next stroke whatever the outcome of a call. *)
Definition after_calls `{Lib} (self : RowsManager) (hs : list Hatch) : RowsManager :=
  fold_left (fun s h => (add_new_hatch s h).1) hs self.

(** C10 in the words of the claim: starting from a cleared manager, the
    lists are parallel after every call. *)
Definition parallel_after_every_call `{Lib} (hs : list Hatch) : Prop :=
  forall n, (0 < n <= length hs)%nat ->
    parallel_lists (after_calls (clear RowsManager_init) (take n hs)).



(** The centroid of the four corners of a band. *)
Definition centroid (x : list Dot) : Dot :=
  (fold_right Qplus 0 (map fst x) / 4, fold_right Qplus 0 (map snd x) / 4).

(** The loop body of heuristic A linked [k] to [k_next]: the relative
    width it recorded is at most 1.5 and [come_with] points to [k_next]. *)
Definition linked (reg : Voronoi.registry) (k k_next : Z) : Prop :=
  exists c rel, reg !! k = Some c /\ Voronoi.relative_width c = Some rel /\
                rel <= 3 # 2 /\ Voronoi.come_with c = Some k_next.

(** Python's [==] on two ends of ridges that are dots of numbers:
    equal abscissas, and ordinates that are numbers and equal. *)
Definition end_eq (p q : end_dot) : Prop :=
  p.1 == q.1 /\
  match p.2, q.2 with
  | Number y, Number y' => y == y'
  | _, _ => False
  end.

(** The end point synthesized from a fitted slope: lines 33-48 of
    [__post_init__], the intercept of the fit being overwritten there. *)
Definition from_slope (m : Q) (x0 x1 : Q) (dot_start : Dot) : end_dot :=
  let a := -(1) in
  let b := - m in
  let c := - (a * dot_start.1 + b * dot_start.2) in
  let a_ := if Qlt_bool b 0 then a * -(1) else a in
  let x := if Qle_bool 0 a_ then py_max x0 x1 else py_min x0 x1 in
  (x, np_div (- (a * x + c)) b).

(** The end of the entry [n], if the entry is one of an unbounded
    ridge, was synthesized from the slope that [lstsq] returned for the
    center of its owner followed by the center of its neighbour. *)
Definition synthesized `{Voronoi.Numpy} (reg : Voronoi.registry)
    (n : Voronoi.CellNeighbor) : Prop :=
  Voronoi.is_finite n = false ->
  exists c0 c1 m c,
    reg !! Voronoi.cell_id n = Some c0 /\ reg !! Voronoi.neighbor_id n = Some c1 /\
    Voronoi.lstsq (Voronoi.center c0) (Voronoi.center c1) = Ok (m, c) /\
    Voronoi.dot_end n
      = from_slope m (Voronoi.center c0).1 (Voronoi.center c1).1 (Voronoi.dot_start n).

(** The entry [n'] is the mirror of the entry [n]: the same ridge seen
    from the other cell, with the same start and, if the ridge is
    bounded, the same end. *)
Definition mirrors (n n' : Voronoi.CellNeighbor) : Prop :=
  Voronoi.neighbor_id n' = Voronoi.cell_id n /\
  Voronoi.cell_id n' = Voronoi.neighbor_id n /\
  Voronoi.dot_start n' = Voronoi.dot_start n /\
  Voronoi.is_finite n' = Voronoi.is_finite n /\
  (Voronoi.is_finite n = true -> end_eq (Voronoi.dot_end n') (Voronoi.dot_end n)).

(** Every cell is registered under its own id. *)
Definition ids_are_keys (reg : Voronoi.registry) : Prop :=
  forall k c, reg !! k = Some c -> Voronoi.id c = k.

(** Every neighbour entry has a mirror in the cell it refers to, and
    the end of an entry of an unbounded ridge is a synthesized one. *)
Definition symmetric_adjacency `{Voronoi.Numpy} (reg : Voronoi.registry) : Prop :=
  forall a cA n, reg !! a = Some cA -> n ∈ Voronoi.neighbors cA ->
    Voronoi.cell_id n = a /\ synthesized reg n /\
    exists cB n', reg !! Voronoi.neighbor_id n = Some cB /\
                  n' ∈ Voronoi.neighbors cB /\ mirrors n n'.

(** C5 in the words of the claim: every entry of a cell that refers to
    another cell has a mirror there with the same pair of end points. *)
Definition mirrored_with_same_ends (reg : Voronoi.registry) : Prop :=
  forall a b cA cB n, reg !! a = Some cA -> reg !! b = Some cB ->
    n ∈ Voronoi.neighbors cA -> Voronoi.neighbor_id n = Voronoi.id cB ->
    exists n', n' ∈ Voronoi.neighbors cB /\ Voronoi.neighbor_id n' = Voronoi.id cA /\
      dot_eq (Voronoi.dot_start n') (Voronoi.dot_start n) /\
      end_eq (Voronoi.dot_end n') (Voronoi.dot_end n).

(** The registry after a mirrored pair of neighbours was appended. *)
Definition with_pair (reg : Voronoi.registry) (k0 k1 : Z)
    (n1 n2 : Voronoi.CellNeighbor) : Voronoi.registry :=
  alter (Voronoi.append_neighbor n2) k1 (alter (Voronoi.append_neighbor n1) k0 reg).

(** Every vector but the first starts where its predecessor ends. *)
Definition linked_vectors (vl : list Vector) : Prop :=
  forall j v, vl !! S j = Some v -> exists p, vl !! j = Some p /\ v_begin v = v_end p.

(** A chain in which consecutive vectors share the very same dot. *)
Definition chained (vl : list Vector) : Prop :=
  forall i v w, vl !! i = Some v -> vl !! S i = Some w -> v_end v = v_begin w.

(** The invariant of the loop of [process] before iteration [j]: every
    row is a chain, and the next vector either starts at the end of the
    last row or will be stitched to it. *)
Definition chain_invariant (self : RowsManager) (j : nat) (st : loop_state) : Prop :=
  (forall r, r ∈ l_rows st -> chained (vectors_list r)) /\
  exists init r w, l_rows st = init ++ [r] /\ last (vectors_list r) = Some w /\
    (is_prev_horizontal st = true \/
     exists p, vectors self !! j = Some p /\ v_end w = v_end p).

(** *** Notions used by the further properties *)

(** Is the stroke upright, that is, not horizontal? *)
Definition upright (h : Hatch) : bool :=
  negb (is_hatch_horizontal (h_top h).2 (h_bottom h).2).

(** Did the iteration open a row? *)
Definition is_new_row (ev : event) : bool :=
  match ev with
  | NewRow _ => true
  | _ => false
  end.

(** What the loop of [process] keeps true of the rows it is building:
    there is a row; the rows are numbered from zero; every row has a
    vector and no cells yet; [row_id] is the number of the last row;
    and every row but the first was opened by an iteration. *)
Definition rows_numbered (st : loop_state) : Prop :=
  l_rows st <> [] /\
  map index (l_rows st) = seqZ 0 (Z.of_nat (length (l_rows st))) /\
  (forall r, r ∈ l_rows st -> vectors_list r <> [] /\ voronoi_cells r = []) /\
  row_id st = (Z.of_nat (length (l_rows st)) - 1)%Z /\
  length (l_rows st) = S (length (List.filter is_new_row (trace st))).

(** The invariant of the loop of [process] before iteration [j], for a
    property [P] of dots: the dots of every row have it, and the next
    vector starts at such a dot or will be stitched to the row. *)
Definition dots_invariant (P : Dot -> Prop) (self : RowsManager) (j : nat)
    (st : loop_state) : Prop :=
  (forall r v, r ∈ l_rows st -> v ∈ vectors_list r -> P (v_begin v) /\ P (v_end v)) /\
  (forall r, r ∈ l_rows st -> vectors_list r <> []) /\
  (is_prev_horizontal st = true \/
   forall vec, vectors self !! S j = Some vec -> P (v_begin vec)).

(** The cells next to position [i] in a row: the one before, if any,
    and the one after, if any. *)
Definition row_adjacent (cells : list Z) (i : nat) : list Z :=
  match i with
  | O => []
  | S j => option_list (cells !! j)
  end ++ option_list (cells !! S i).

(** The dots for which [add_voronoi_cells] looks up a cell: the begin
    of every vector of the row, then the end of the last vector. *)
Definition attach_dots (row : MatrixRow) : list Dot :=
  map v_begin (vectors_list row) ++ option_list (v_end <$> last (vectors_list row)).

(** [c'] is [c] with another [digit_width]. *)
Definition same_but_width (c c' : Voronoi.Cell) : Prop :=
  c' = Voronoi.mkCell (Voronoi.id c) (Voronoi.center c) (Voronoi.is_closed c)
         (Voronoi.neighbors c) (Voronoi.digit_width c') (Voronoi.relative_width c)
         (Voronoi.come_with c) (Voronoi.predicted_number c).

(** [c'] is [c] with another [relative_width] and another [come_with],
    and a link that was set is still set. *)
Definition same_but_link (c c' : Voronoi.Cell) : Prop :=
  c' = Voronoi.mkCell (Voronoi.id c) (Voronoi.center c) (Voronoi.is_closed c)
         (Voronoi.neighbors c) (Voronoi.digit_width c) (Voronoi.relative_width c')
         (Voronoi.come_with c') (Voronoi.predicted_number c) /\
  (is_Some (Voronoi.come_with c) -> is_Some (Voronoi.come_with c')).

(** Two registries with the same keys whose cells are related by [R]. *)
Definition cellwise (R : Voronoi.Cell -> Voronoi.Cell -> Prop)
    (reg reg' : Voronoi.registry) : Prop :=
  forall k, option_Forall2 R (reg !! k) (reg' !! k).

(** The cell as [Cell(i, center=d)] creates it. *)
Definition fresh_cell (i : Z) (d : Dot) : Voronoi.Cell :=
  Voronoi.mkCell i d false [] None None None None.

(** The cell [c] with other neighbours. *)
Definition with_neighbors (c : Voronoi.Cell) (ns : list Voronoi.CellNeighbor)
    : Voronoi.Cell :=
  Voronoi.mkCell (Voronoi.id c) (Voronoi.center c) (Voronoi.is_closed c) ns
    (Voronoi.digit_width c) (Voronoi.relative_width c) (Voronoi.come_with c)
    (Voronoi.predicted_number c).

(** Is the ridge bounded, that is, is neither of its vertices the one
    at infinity? *)
Definition bounded (item : (Z * Z) * (Z * Z)) : bool :=
  negb ((item.2.1 =? -1)%Z || (item.2.2 =? -1)%Z).

(** The ridges in which the generator [k] takes part, in the order of
    [ridge_dict]: for each the generator at the other end, and whether
    the ridge is bounded. *)
Definition partners (k : Z) (items : list ((Z * Z) * (Z * Z))) : list (Z * bool) :=
  flat_map (fun it => (if decide (it.1.1 = k) then [(it.1.2, bounded it)] else []) ++
                      (if decide (it.1.2 = k) then [(it.1.1, bounded it)] else [])) items.

(** How far [p] lies outside the interval between [a] and [b]; zero
    when [p] is between them. *)
Definition spread (a b p : Q) : Q :=
  (Qabs (p - a) + Qabs (p - b) - Qabs (b - a)) / 2.

End Props.

(** ** Example inputs *)

Module Examples.
Import MatrixRows Manager SpecLib.

(** An upright stroke 30 units tall and 6 wide around [(x, y)]. *)
Definition stroke (x y : Q) : Hatch :=
  mkHatch (x - 3, y) (x + 3, y) (x, y - 15) (x, y + 15).

(** Two strokes of one row, the second further left. *)
Definition two_strokes : list Hatch := [stroke 100 0; stroke 80 0].

(** Three rows.  The first runs from (100, 0) over (90, 0) to (80, 15);
    the bottom corner of its first stroke and that of its last stroke
    lie on the line from (100, 0) to (80, 15), so the row is closed with
    [bottom] zero.  The second row runs from (120, 100) to (70, 100).
    The sixth stroke, at (90, 0), lies in the band of the first row. *)
Definition seven_strokes : list Hatch :=
  [ mkHatch (97, 0) (103, 0) (100, -(15)) (80, 15);
    stroke 90 0;
    mkHatch (77, 15) (83, 15) (80, 0) (60, 30);
    stroke 120 100;
    stroke 70 100;
    stroke 90 0;
    stroke 70 0 ].

(** A row from (100, 0) to (80, 0); a stray stroke at (92, 5), inside
    the band of that row and to the right of its end; a stroke at
    (60, 0) that continues the row. *)
Definition stray_strokes : list Hatch :=
  [ stroke 100 0;
    stroke 80 0;
    mkHatch (89, 5) (95, 5) (92, -(10)) (92, 20);
    stroke 60 0 ].

(** Three strokes on the line from (0, 0) to (120, 50). *)
Definition slanted_strokes : list Hatch :=
  [stroke 0 0; stroke 60 25; stroke 120 50].

(** A cell at the origin between the vertical dividers x = 5 (towards
    cell 1) and x = -3 (towards cell 2). *)
Definition lone_cell : Voronoi.Cell :=
  Voronoi.mkCell 0 (0, 0) false
    [ Voronoi.mkCellNeighbor 0 1 (5, -(5)) (5, Number 5) true;
      Voronoi.mkCellNeighbor 0 2 (-(3), -(5)) (-(3), Number 7) true ]
    None None None None.

(** The cells of the two example strokes, before any ridge is recorded. *)
Definition bare_registry : Voronoi.registry :=
  Voronoi.create_cells ∅ 0 [(100, 0); (80, 0)].

(** The managers after the example strokes were fed, and what
    [process] makes of them, evaluated with the kernel above; the
    threshold is 0, except for the slanted row, where it is 1 and every
    vector continues the row. *)
Definition two_manager : RowsManager :=
  Eval vm_compute in fst (@add_hatches (spec_lib 0) RowsManager_init two_strokes).

Definition two_run : result (RowsManager * list event) :=
  Eval vm_compute in @process (spec_lib 0) two_manager.

Definition stray_manager : RowsManager :=
  Eval vm_compute in fst (@add_hatches (spec_lib 0) RowsManager_init stray_strokes).

Definition stray_run : result (RowsManager * list event) :=
  Eval vm_compute in @process (spec_lib 0) stray_manager.



Definition seven_manager : RowsManager :=
  Eval vm_compute in fst (@add_hatches (spec_lib 0) RowsManager_init seven_strokes).

(** The loop of [process] on [seven_strokes] before its fifth
    iteration, and the tuple of that iteration. *)
Definition seven_state_4 : loop_state :=
  Eval vm_compute in
    match @Props.loop_after (spec_lib 0) seven_manager 4 with
    | Ok st => st
    | Raise _ => loop_start (mkVector (0, 0) (0, 0))
    end.


(** The first row of a list of rows. *)
Definition first_row (rows : list MatrixRow) : MatrixRow :=
  match rows with
  | r :: _ => r
  | [] => MatrixRow_init 0
  end.

Definition slanted_manager : RowsManager :=
  Eval vm_compute in fst (@add_hatches (spec_lib 1) RowsManager_init slanted_strokes).

Definition slanted_run : result (RowsManager * list event) :=
  Eval vm_compute in @process (spec_lib 1) slanted_manager.

(** The manager after [process] on the two example strokes. *)
Definition two_strokes_processed : RowsManager :=
  match two_run with
  | Ok (m, _) => m
  | Raise _ => RowsManager_init
  end.

(** Do two lists hold the same dots, in the same order? *)
Definition same_dots (l l' : list Dot) : bool :=
  (length l =? length l')%nat && forallb (fun pq => dot_eqb pq.1 pq.2) (zip l l').

(** Four generators, and their Voronoi diagram as
    [scipy.spatial.Voronoi] reports it: the vertices (5/3, 5/3) and
    (13/3, 13/3), the circumcenters of the two Delaunay triangles; a
    bounded ridge between the generators 1 and 2, and four ridges that
    run from a vertex to infinity. *)
Definition kite_dots : list Dot := [(0, 0); (4, 2); (2, 4); (6, 6)].

Definition kite_voronoi : Voronoi.VoronoiResult :=
  Voronoi.mkVoronoiResult
    [(5 # 3, 5 # 3); (13 # 3, 13 # 3)]
    [ ((0, 1), (-1, 0)); ((0, 2), (-1, 0)); ((1, 2), (0, 1));
      ((1, 3), (-1, 1)); ((2, 3), (-1, 1)) ]%Z.

(** The unit square of the spec's scenario and its Voronoi diagram: one
    vertex, the center, and one unbounded ridge per side. *)
Definition square_dots : list Dot := [(0, 0); (0, 1); (1, 1); (1, 0)].

Definition square_voronoi : Voronoi.VoronoiResult :=
  Voronoi.mkVoronoiResult
    [(1 # 2, 1 # 2)]
    [ ((0, 1), (-1, 0)); ((0, 3), (-1, 0)); ((1, 2), (-1, 0)); ((2, 3), (-1, 0)) ]%Z.

(** [scipy.spatial.Voronoi] on the two examples. *)
Definition example_scipy : Voronoi.Scipy :=
  {| Voronoi.Voronoi := fun dots =>
       if same_dots dots kite_dots then Ok kite_voronoi
       else if same_dots dots square_dots then Ok square_voronoi
       else Raise QhullError |}.

(** Lines fitted through two centers: for four pairs of [kite_dots]
    the line through the two dots; for the generators (1, 1) and (1, 0)
    of the square, where the system has rank one, the solution of least
    norm, m = c = 1/4; and for its generators (0, 0) and (1, 0), whose
    ordinates are both zero, the zero line. *)
Definition fitted_lines : list ((Dot * Dot) * (Q * Q)) :=
  [ (((0, 0), (4, 2)), (1 # 2, 0));
    (((0, 0), (2, 4)), (2, 0));
    (((4, 2), (6, 6)), (2, -(6)));
    (((2, 4), (6, 6)), (1 # 2, 3));
    (((1, 1), (1, 0)), (1 # 4, 1 # 4));
    (((0, 0), (1, 0)), (0, 0)) ].

Definition fitted (table : list ((Dot * Dot) * (Q * Q))) (p0 p1 : Dot) : option (Q * Q) :=
  snd <$> List.find (fun e => dot_eqb e.1.1 p0 && dot_eqb e.1.2 p1) table.

(** [numpy.linalg.lstsq] on the examples, up to rounding: the line of
    the table for the two centers, in either order. *)
Definition example_numpy : Voronoi.Numpy :=
  {| Voronoi.lstsq := fun p0 p1 =>
       match fitted fitted_lines p0 p1, fitted fitted_lines p1 p0 with
       | Some mc, _ => Ok mc
       | None, Some mc => Ok mc
       | None, None => Raise LinAlgError
       end |}.

(** A fit of the centers (2, 4) and (6, 6) that depends on their order,
    as a fit computed in floating point may: the slopes for the two
    orders are both within 1e-15 of 1/2, and differ. *)
Definition rounded_lines : list ((Dot * Dot) * (Q * Q)) :=
  [ (((2, 4), (6, 6)), (22517998136852480 # 45035996273704927, 3));
    (((6, 6), (2, 4)), (2251799813685248 # 4503599627370493, 3)) ].

Definition rounding_numpy : Voronoi.Numpy :=
  {| Voronoi.lstsq := fun p0 p1 =>
       match fitted rounded_lines p0 p1 with
       | Some mc => Ok mc
       | None => @Voronoi.lstsq example_numpy p0 p1
       end |}.

(** The registry that [VoronoiTesselation.process] leaves for
    [kite_dots], with either fit. *)
Definition kite_registry : Voronoi.registry :=
  Eval vm_compute in
    match @Voronoi.process example_scipy example_numpy kite_dots with
    | Ok reg => reg
    | Raise _ => ∅
    end.

Definition kite_registry_rounded : Voronoi.registry :=
  Eval vm_compute in
    match @Voronoi.process example_scipy rounding_numpy kite_dots with
    | Ok reg => reg
    | Raise _ => ∅
    end.

(** Two cells of width 10 in a row, first 12 apart, then 9 apart. *)
Definition wide_cell (i : Z) (c : Dot) : Voronoi.Cell :=
  Voronoi.mkCell i c false [] (Some 10) None None None.

Definition pair_far : Voronoi.registry :=
  <[1%Z := wide_cell 1 (12, 0)]> (<[0%Z := wide_cell 0 (0, 0)]> ∅).

Definition pair_near : Voronoi.registry :=
  <[1%Z := wide_cell 1 (9, 0)]> (<[0%Z := wide_cell 0 (0, 0)]> ∅).

(** [pair_far] after the loop body of heuristic A, the average width
    being 20 / 2. *)
Definition pair_far_after : Voronoi.registry :=
  Eval vm_compute in
    match @predict_step (spec_lib 0) (20 # 2) pair_far (0%nat, (0%Z, 1%Z)) with
    | Ok reg => reg
    | Raise _ => ∅
    end.

(** A row from (100, 0) to (80, 0) over the cells 0 and 1, with a band
    of height 30, and the same row with a band of height zero. *)
Definition band_row : MatrixRow :=
  mkMatrixRow 0 [mkVector (100, 0) (80, 0)] [] 15 15
              (Some (100, -(15))) (Some (100, 15)) [0%Z; 1%Z] true.

Definition flat_row : MatrixRow :=
  mkMatrixRow 0 [mkVector (100, 0) (80, 0)] [] 0 0 None None [0%Z; 1%Z] true.

Definition flat_manager : RowsManager :=
  mkRowsManager [] [] [] [] [] [flat_row] true.

(** A horizontal stroke 30 units wide and 6 tall around [(x, y)]. *)
Definition dash (x y : Q) : Hatch :=
  mkHatch (x - 15, y) (x + 15, y) (x, y - 3) (x, y + 3).

(** Two strokes of a row with a horizontal stroke between them. *)
Definition dashed_strokes : list Hatch := [stroke 100 0; dash 90 0; stroke 80 0].

Definition dashed_manager : RowsManager :=
  Eval vm_compute in fst (@add_hatches (spec_lib 0) RowsManager_init dashed_strokes).

(** The manager after the first of the two example strokes. *)
Definition one_manager : RowsManager :=
  Eval vm_compute in fst (@add_hatches (spec_lib 0) RowsManager_init [stroke 100 0]).

(** The same stroke fed a second time: its vector has no direction. *)
Definition one_manager_failed : RowsManager :=
  Eval vm_compute in fst (@add_new_hatch (spec_lib 0) one_manager (stroke 100 0)).

(** The stroke at (100, 0) handed over twice, then the stroke at
    (80, 0). *)
Definition repeated_strokes : list Hatch := [stroke 100 0; stroke 100 0; stroke 80 0].

Definition seven_run : result (RowsManager * list event) :=
  Eval vm_compute in @process (spec_lib 0) seven_manager.

(** Four strokes whose middle dots are [kite_dots], in one row. *)
Definition kite_strokes : list Hatch :=
  [stroke 0 0; stroke 4 2; stroke 2 4; stroke 6 6].

Definition kite_manager : RowsManager :=
  Eval vm_compute in fst (@add_hatches (spec_lib 1) RowsManager_init kite_strokes).

Definition kite_run : result (RowsManager * list event) :=
  Eval vm_compute in @process (spec_lib 1) kite_manager.

Definition kite_processed : RowsManager :=
  match kite_run with
  | Ok (m, _) => m
  | Raise _ => RowsManager_init
  end.

(** The registry of the tessellation of the dots of [kite_strokes]. *)
Definition kite_cells : Voronoi.registry :=
  Eval vm_compute in
    match @Voronoi.process example_scipy example_numpy (dots kite_processed) with
    | Ok reg => reg
    | Raise _ => ∅
    end.

(** The row from (100, 0) to (80, 0) before its cells are attached,
    and a row that consists of the stroke at (100, 0) alone. *)
Definition bare_row : MatrixRow :=
  mkMatrixRow 0 [mkVector (100, 0) (80, 0)] [] 15 15
              (Some (100, -(15))) (Some (100, 15)) [] true.

Definition lone_row : MatrixRow :=
  mkMatrixRow 1 [mkVector (100, 0) (100, 0)] [] 0 0 None None [] false.

(** A row that starts at (1, 1), where no cell of [bare_registry] has
    its center. *)
Definition stray_row : MatrixRow :=
  mkMatrixRow 0 [mkVector (1, 1) (80, 0)] [] 15 15
              (Some (100, -(15))) (Some (100, 15)) [] true.

(** The cells at (100, 0) and (80, 0) with the ridge x = 90 between
    them, and the manager that holds [bare_row]. *)
Definition paired_registry : Voronoi.registry :=
  <[1%Z := Voronoi.mkCell 1 (80, 0) false
             [Voronoi.mkCellNeighbor 1 0 (90, -(5)) (90, Number 5) true] None None None None]>
  (<[0%Z := Voronoi.mkCell 0 (100, 0) false
              [Voronoi.mkCellNeighbor 0 1 (90, -(5)) (90, Number 5) true] None None None None]> ∅).

Definition bare_manager : RowsManager :=
  mkRowsManager [] [] [] [] [] [bare_row] true.

Definition bare_manager_cells : result (RowsManager * Voronoi.registry) :=
  Eval vm_compute in @add_voronoi_cells (spec_lib 0) bare_manager paired_registry.

(** The row seeded with the stroke at (100, 0), as [process] creates
    it, and two hatches for it. *)
Definition seed_row : MatrixRow :=
  set_vectors_list (MatrixRow_init 0) [mkVector (100, 0) (100, 0)] false.

Definition seed_hatches : list (Vector * (Dot * Dot)) :=
  [ (mkVector (100, 0) (80, 0), ((100, -(15)), (100, 15)));
    (mkVector (80, 0) (60, 0), ((80, -(15)), (80, 15))) ].

Definition seed_row_1 : result MatrixRow :=
  Eval vm_compute in
    @add_hatch (spec_lib 0) seed_row (mkVector (100, 0) (80, 0)) (100, -(15)) (100, 15).

Definition seed_row_2 : result MatrixRow :=
  Eval vm_compute in
    @for_each _ _ (fun r x => @add_hatch (spec_lib 0) r x.1 x.2.1 x.2.2) seed_row seed_hatches.

End Examples.

(** * Theorems *)

Import MatrixRows Manager Props.

Lemma bind_Ok {A B} (c : result A) (k : A -> result B) (b : B) :
  bind c k = Ok b -> exists a, c = Ok a /\ k a = Ok b.
Proof. destruct c as [a|e]; simpl; [eauto | discriminate]. Qed.

Section Ingestion.
Context `{Lib}.

Lemma add_new_hatch_first (self : RowsManager) (h : Hatch) :
  vectors self = [] ->
  exists m,
    add_new_hatch self h = (m, Ok tt) /\
    vectors m = [mkVector (middle_dot h) (middle_dot h)] /\
    cos_list m = cos_list self /\
    top_list m = top_list self ++ [h_top h] /\
    bottom_list m = bottom_list self ++ [h_bottom h].
Proof.
  intros Hv. unfold add_new_hatch. cbv zeta. rewrite Hv. eexists. repeat split.
Qed.

Lemma add_new_hatch_lengths (self m : RowsManager) (h : Hatch) :
  add_new_hatch self h = (m, Ok tt) ->
  length (top_list m) = S (length (top_list self)) /\
  length (bottom_list m) = S (length (bottom_list self)) /\
  length (vectors m) = S (length (vectors self)) /\
  length (cos_list m) =
    match vectors self with [] => length (cos_list self) | _ => S (length (cos_list self)) end.
Proof.
  unfold add_new_hatch. cbv zeta. destruct (vectors self) as [|v0 vs] eqn:Hv.
  - intros Heq. injection Heq as <-. simpl. rewrite !length_app. simpl. lia.
  - destruct (last (v0 :: vs)) as [prev|]; [|discriminate].
    destruct (get_angle_between_vectors _ _) as [c|e]; [|discriminate].
    intros Heq. injection Heq as <-. simpl. rewrite !length_app. simpl. lia.
Qed.

Lemma add_hatches_lengths (hs : list Hatch) (self m : RowsManager) :
  add_hatches self hs = (m, Ok tt) ->
  length (top_list self) = length (vectors self) ->
  length (bottom_list self) = length (vectors self) ->
  (vectors self = [] -> cos_list self = []) ->
  (vectors self <> [] -> S (length (cos_list self)) = length (vectors self)) ->
  length (vectors m) = (length (vectors self) + length hs)%nat /\
  length (top_list m) = length (vectors m) /\
  length (bottom_list m) = length (vectors m) /\
  (vectors m <> [] -> S (length (cos_list m)) = length (vectors m)).
Proof.
  revert self. induction hs as [|h hs IH]; intros self Hrun Ht Hb Hc0 Hc1.
  - simpl in Hrun. injection Hrun as <-. simpl. rewrite Nat.add_0_r. auto.
  - simpl in Hrun. destruct (add_new_hatch self h) as [m1 [[]|e]] eqn:Hstep; [|discriminate].
    apply add_new_hatch_lengths in Hstep as (Ht1 & Hb1 & Hv1 & Hc).
    apply IH in Hrun.
    + destruct Hrun as (Hlen & ? & ? & ?). repeat split; auto.
      rewrite Hlen, Hv1. simpl. lia.
    + lia.
    + lia.
    + intros Hnil. rewrite Hnil in Hv1. discriminate.
    + intros _. rewrite Hv1, Hc. destruct (vectors self) eqn:Hv.
      * rewrite Hc0 by reflexivity. reflexivity.
      * f_equal. apply Hc1. discriminate.
Qed.

Lemma parallel_after_feed (self m : RowsManager) (hs : list Hatch) :
  hs <> [] ->
  add_hatches (clear self) hs = (m, Ok tt) ->
  parallel_lists m /\ length (vectors m) = length hs.
Proof.
  intros Hne Hrun.
  apply add_hatches_lengths in Hrun; simpl; auto; try congruence.
  destruct Hrun as (Hlen & Ht & Hb & Hc). simpl in Hlen.
  assert (Hv : vectors m <> []).
  { intros Hnil. rewrite Hnil in Hlen. destruct hs; [congruence | discriminate]. }
  split; [|exact Hlen].
  unfold parallel_lists. repeat split; auto. specialize (Hc Hv). lia.
Qed.

(** While no call raises, feeding is calling [add_new_hatch] stroke by
    stroke, and every stroke fed was accepted. *)
Lemma add_hatches_after_calls (hs : list Hatch) (self m : RowsManager) (n : nat) :
  add_hatches self hs = (m, Ok tt) ->
  add_hatches self (take n hs) = (after_calls self (take n hs), Ok tt).
Proof.
  revert self n. induction hs as [|h hs IH]; intros self n Hrun.
  - rewrite take_nil. reflexivity.
  - destruct n as [|n]; [reflexivity|].
    simpl in Hrun. cbn [take add_hatches after_calls fold_left].
    destruct (add_new_hatch self h) as [m1 [[]|e]] eqn:Hstep; [|discriminate].
    apply IH. exact Hrun.
Qed.

(** C10, amended.  Starting from a cleared manager, after every call of
    [add_new_hatch], as long as no call has raised, the lists
    [top_list], [bottom_list] and [vectors] have the same length (the
    number of strokes fed) and [cos_list] is one shorter; the first
    stroke seeds a zero-length vector at its middle dot, records its
    corners and no cosine. *)
Theorem add_new_hatch_parallel_lists (self m : RowsManager) (hs : list Hatch) :
  hs <> [] ->
  add_hatches (clear self) hs = (m, Ok tt) ->
  parallel_lists m /\
  length (vectors m) = length hs /\
  (forall n, (0 < n <= length hs)%nat ->
     parallel_lists (after_calls (clear self) (take n hs)) /\
     length (vectors (after_calls (clear self) (take n hs))) = n) /\
  (forall h, exists m1,
      add_new_hatch (clear self) h = (m1, Ok tt) /\
      vectors m1 = [mkVector (middle_dot h) (middle_dot h)] /\
      top_list m1 = [h_top h] /\ bottom_list m1 = [h_bottom h] /\
      cos_list m1 = []).
Proof.
  intros Hne Hrun.
  destruct (parallel_after_feed _ _ _ Hne Hrun) as (Hpar & Hlen).
  split; [exact Hpar|]. split; [exact Hlen|]. split.
  - intros n Hn.
    pose proof (add_hatches_after_calls _ _ _ n Hrun) as Hpre.
    assert (Hne' : take n hs <> []).
    { destruct hs; [congruence|]. destruct n; [lia | discriminate]. }
    destruct (parallel_after_feed _ _ _ Hne' Hpre) as (Hpar' & Hlen').
    split; [exact Hpar'|]. rewrite Hlen', length_take. lia.
  - intros h. destruct (add_new_hatch_first (clear self) h eq_refl)
      as (m1 & Hm1 & Hv1 & Hc1 & Ht1 & Hb1).
    exists m1. repeat split; auto.
Qed.

End Ingestion.

(** The invariant on the two example strokes, with the kernel of the
    spec. *)
Lemma add_new_hatch_parallel_lists_witness :
  let L := SpecLib.spec_lib 0 in
  add_hatches (clear RowsManager_init) Examples.two_strokes = (Examples.two_manager, Ok tt) /\
  parallel_lists Examples.two_manager /\
  length (vectors Examples.two_manager) = 2%nat.
Proof.
  intros L.
  assert (Hrun : add_hatches (clear RowsManager_init) Examples.two_strokes
                 = (Examples.two_manager, Ok tt)) by (vm_compute; reflexivity).
  assert (Hne : Examples.two_strokes <> []) by (unfold Examples.two_strokes; discriminate).
  split; [exact Hrun|].
  destruct (add_new_hatch_parallel_lists _ _ _ Hne Hrun) as (P1 & P2 & _).
  split; [exact P1 | exact P2].
Defined.

(** C10 as stated fails on [repeated_strokes].  The second call raises:
    its vector, from (100, 0) to (100, 0), has no direction.  The vector
    is appended all the same, and nothing else: two vectors for one
    pair of corners.  The third call returns and appends to every list:
    three vectors, two tops, two bottoms, one cosine. *)
Lemma parallel_after_every_call_counterexample :
  let L := SpecLib.spec_lib 0 in
  let m2 := after_calls (clear RowsManager_init) (take 2 Examples.repeated_strokes) in
  let m3 := after_calls (clear RowsManager_init) Examples.repeated_strokes in
  add_hatches (clear RowsManager_init) Examples.repeated_strokes
    = (m2, Raise ZeroDivisionError) /\
  add_new_hatch m2 (Examples.stroke 80 0) = (m3, Ok tt) /\
  ~ parallel_lists m2 /\
  (length (vectors m3) = 3 /\ length (top_list m3) = 2 /\
   length (bottom_list m3) = 2 /\ length (cos_list m3) = 1)%nat /\
  ~ parallel_lists m3 /\
  ~ parallel_after_every_call Examples.repeated_strokes.
Proof.
  intros L m2 m3.
  split; [vm_compute; reflexivity|]. split; [vm_compute; reflexivity|].
  assert (H2 : ~ parallel_lists m2).
  { intros (Ht & _). vm_compute in Ht. discriminate. }
  split; [exact H2|].
  split; [repeat split; vm_compute; reflexivity|].
  split; [intros (Ht & _); vm_compute in Ht; discriminate|].
  intros Hclaim. apply H2. apply (Hclaim 2%nat). simpl. lia.
Qed.

Section IngestedLists.
Context `{Lib}.

Lemma add_new_hatch_lists (self m : RowsManager) (h : Hatch) :
  add_new_hatch self h = (m, Ok tt) ->
  top_list m = top_list self ++ [h_top h] /\
  bottom_list m = bottom_list self ++ [h_bottom h] /\
  exists v, vectors m = vectors self ++ [v] /\ v_end v = middle_dot h /\
            v_begin v = match last (vectors self) with
                        | Some prev => v_end prev
                        | None => middle_dot h
                        end.
Proof.
  unfold add_new_hatch. cbv zeta. destruct (vectors self) as [|v0 vs] eqn:Hv.
  - intros Heq. injection Heq as <-. simpl. repeat split. eexists. repeat split.
  - destruct (last (v0 :: vs)) as [prev|]; [|discriminate].
    destruct (get_angle_between_vectors _ _) as [c|e]; [|discriminate].
    intros Heq. injection Heq as <-. simpl. repeat split. eexists. repeat split.
Qed.

Lemma add_hatches_lists (hs : list Hatch) (self m : RowsManager) :
  add_hatches self hs = (m, Ok tt) ->
  top_list m = top_list self ++ map h_top hs /\
  bottom_list m = bottom_list self ++ map h_bottom hs /\
  map v_end (vectors m) = map v_end (vectors self) ++ map middle_dot hs.
Proof.
  revert self. induction hs as [|h hs IH]; intros self Hrun; simpl in Hrun.
  - injection Hrun as <-. simpl. rewrite !app_nil_r. auto.
  - destruct (add_new_hatch self h) as [m1 [[]|e]] eqn:Hstep; [|discriminate].
    apply add_new_hatch_lists in Hstep as (Ht & Hb & v & Hv & Hend & _).
    apply IH in Hrun as (Ht' & Hb' & Hv').
    rewrite Ht', Hb', Hv', Ht, Hb, Hv, map_app. simpl.
    rewrite <- !app_assoc, Hend. auto.
Qed.

Lemma add_new_hatch_linked (self m : RowsManager) (h : Hatch) :
  linked_vectors (vectors self) ->
  add_new_hatch self h = (m, Ok tt) ->
  linked_vectors (vectors m).
Proof.
  intros Hl Hstep. apply add_new_hatch_lists in Hstep as (_ & _ & v & Hv & _ & Hbegin).
  rewrite Hv. intros j w Hj.
  destruct (decide (S j < length (vectors self))%nat) as [Hlt|Hge].
  - rewrite lookup_app_l in Hj by exact Hlt.
    destruct (Hl j w Hj) as (p & Hp & Hw). exists p. split; [|exact Hw].
    rewrite lookup_app_l by lia. exact Hp.
  - assert (Hlen : S j = length (vectors self)).
    { apply lookup_lt_Some in Hj. rewrite length_app in Hj. simpl in Hj. lia. }
    rewrite lookup_app_r in Hj by lia.
    replace (S j - length (vectors self))%nat with 0%nat in Hj by lia.
    simpl in Hj. injection Hj as <-.
    rewrite last_lookup, <- Hlen in Hbegin. simpl in Hbegin.
    destruct (vectors self !! j) as [p|] eqn:Hp.
    + exists p. split; [|exact Hbegin]. rewrite lookup_app_l by lia. exact Hp.
    + apply lookup_ge_None in Hp. lia.
Qed.

Lemma add_hatches_linked (hs : list Hatch) (self m : RowsManager) :
  linked_vectors (vectors self) ->
  add_hatches self hs = (m, Ok tt) ->
  linked_vectors (vectors m).
Proof.
  revert self. induction hs as [|h hs IH]; intros self Hl Hrun; simpl in Hrun.
  - injection Hrun as <-. exact Hl.
  - destruct (add_new_hatch self h) as [m1 [[]|e]] eqn:Hstep; [|discriminate].
    eapply IH; [|exact Hrun]. eapply add_new_hatch_linked; eassumption.
Qed.

End IngestedLists.

Section Clustering.
Context `{Lib}.

Lemma loop_items_lookup (self : RowsManager) (j i : nat) (c : Q) (vec : Vector) (t b : Dot) :
  loop_items self !! j = Some (i, (c, (vec, (t, b)))) ->
  i = j /\ cos_list self !! j = Some c /\ vectors self !! S j = Some vec /\
  top_list self !! j = Some t /\ bottom_list self !! j = Some b.
Proof.
  unfold loop_items. rewrite list_lookup_imap.
  destruct (zip _ _ !! j) as [[c' [vec' [t' b']]]|] eqn:Hz; simpl; [|discriminate].
  intros [= <- <- <- <- <-].
  apply lookup_zip_with_Some in Hz as (x & y & [= <- <-] & Hc & Hz).
  apply lookup_zip_with_Some in Hz as (x & y & [= <- <-] & Hv & Hz).
  apply lookup_zip_with_Some in Hz as (x & y & [= <- <-] & Ht & Hb).
  rewrite lookup_tail in Hv. auto.
Qed.

Lemma process_step_event (self : RowsManager) (st st' : loop_state)
    (i : nat) (cos : Q) (vector : Vector) (top bottom : Dot) :
  process_step self st (i, (cos, (vector, (top, bottom)))) = Ok st' ->
  exists ev, trace st' = trace st ++ [ev] /\
    forall v t b, ev = AddHatch v t b ->
      t = top /\ b = bottom /\ v_end v = v_end vector.
Proof.
  unfold process_step. intros Hstep.
  apply bind_Ok in Hstep as (skip & _ & Hstep).
  destruct skip.
  { injection Hstep as <-. eexists; split; [reflexivity|]. discriminate. }
  destruct (Qle_bool cos NEW_ROW_ANGLE).
  - apply bind_Ok in Hstep as (v' & Hv' & Hstep).
    apply bind_Ok in Hstep as (rows' & _ & Hstep).
    injection Hstep as <-. eexists; split; [reflexivity|].
    intros v t b [= <- <- <-]. repeat split.
    destruct (is_prev_horizontal st).
    + apply bind_Ok in Hv' as (l & _ & Hv'). apply bind_Ok in Hv' as (fv & _ & Hv').
      injection Hv' as <-. reflexivity.
    + injection Hv' as <-. reflexivity.
  - apply bind_Ok in Hstep as ([[[rows' added] rid] ev] & Hp & Hstep).
    injection Hstep as <-. eexists; split; [reflexivity|].
    intros v t b ->. unfold _process_hatch_not_current_row in Hp.
    apply bind_Ok in Hp as (found & _ & Hp). destruct found.
    + discriminate.
    + apply bind_Ok in Hp as (rows2 & _ & Hp). discriminate.
Qed.

(** Every iteration logs one event, and an [AddHatch] carries the
    corners and the vector end of its own tuple. *)
Lemma loop_trace (self : RowsManager) (items : list (nat * (Q * (Vector * (Dot * Dot)))))
    (st st' : loop_state) :
  for_each (process_step self) st items = Ok st' ->
  exists evs, trace st' = trace st ++ evs /\ length evs = length items /\
    forall j v t b, evs !! j = Some (AddHatch v t b) ->
      exists i c vec, items !! j = Some (i, (c, (vec, (t, b)))) /\ v_end v = v_end vec.
Proof.
  revert st. induction items as [|[i [c [vec [t0 b0]]]] items IH]; intros st Hrun; simpl in Hrun.
  - injection Hrun as <-. exists []. rewrite app_nil_r. repeat split. intros j ? ? ? Hj.
    rewrite lookup_nil in Hj. discriminate.
  - apply bind_Ok in Hrun as (st1 & Hstep & Hrun).
    apply process_step_event in Hstep as (ev & Htr & Hev).
    apply IH in Hrun as (evs & Htr' & Hlen & Hevs).
    exists (ev :: evs). rewrite Htr', Htr, <- app_assoc. simpl. repeat split; [lia|].
    intros [|j] v t b Hj; simpl in Hj.
    + injection Hj as ->. destruct (Hev _ _ _ eq_refl) as (-> & -> & Hend).
      exists i, c, vec. auto.
    + apply Hevs in Hj. exact Hj.
Qed.

(** C2, amended.  At iteration [i] of [process], the corners folded by
    [add_hatch] are those of stroke [i]: the stroke at whose middle dot
    the vector [vectors[i + 1]] of the iteration starts, fed just before
    the stroke at whose middle dot the vector ends. *)
Theorem add_hatch_folds_previous_corners (hs : list Hatch) (self m m' : RowsManager)
    (tr : list event) (i : nat) (v : Vector) (t b : Dot) :
  add_hatches (clear self) hs = (m, Ok tt) ->
  process m = Ok (m', tr) ->
  tr !! i = Some (AddHatch v t b) ->
  exists h h' vec, hs !! i = Some h /\ hs !! S i = Some h' /\
    vectors m !! S i = Some vec /\
    t = h_top h /\ b = h_bottom h /\
    v_begin vec = middle_dot h /\ v_end vec = middle_dot h' /\
    v_end v = middle_dot h'.
Proof.
  intros Hfeed Hproc Hi.
  assert (Hlinked : linked_vectors (vectors m)).
  { eapply add_hatches_linked; [|exact Hfeed]. intros j w Hj. simpl in Hj. discriminate. }
  apply add_hatches_lists in Hfeed as (Ht & Hb & Hv). simpl in Ht, Hb, Hv.
  unfold process in Hproc.
  apply bind_Ok in Hproc as (v0 & _ & Hproc).
  apply bind_Ok in Hproc as (st & Hloop & Hproc).
  apply bind_Ok in Hproc as (rows' & _ & Hproc).
  injection Hproc as _ <-.
  apply loop_trace in Hloop as (evs & Htr & _ & Hevs). simpl in Htr. subst evs.
  apply Hevs in Hi as (i' & c & vec & Hitem & Hend).
  apply loop_items_lookup in Hitem as (_ & _ & Hvec & Hti & Hbi).
  rewrite Ht in Hti. rewrite Hb in Hbi.
  rewrite list_lookup_fmap in Hti, Hbi.
  destruct (hs !! i) as [h|] eqn:Hh; [|discriminate].
  simpl in Hti, Hbi. injection Hti as <-. injection Hbi as <-.
  assert (Hmid : map v_end (vectors m) !! S i = Some (v_end vec)).
  { rewrite list_lookup_fmap, Hvec. reflexivity. }
  rewrite Hv, list_lookup_fmap in Hmid.
  destruct (hs !! S i) as [h'|] eqn:Hh'; [|discriminate].
  simpl in Hmid. injection Hmid as Hmid.
  destruct (Hlinked i vec Hvec) as (p & Hp & Hbegin).
  assert (Hpend : map v_end (vectors m) !! i = Some (v_end p)).
  { rewrite list_lookup_fmap, Hp. reflexivity. }
  rewrite Hv, list_lookup_fmap, Hh in Hpend. simpl in Hpend. injection Hpend as Hpend.
  exists h, h', vec. repeat split; congruence.
Qed.

End Clustering.

(** The amended statement on the two example strokes: the one
    [add_hatch] of the pass folds the corners of the first stroke. *)
Lemma add_hatch_folds_previous_corners_witness :
  let L := SpecLib.spec_lib 0 in
  exists h h' vec, Examples.two_strokes !! 0%nat = Some h /\
               Examples.two_strokes !! 1%nat = Some h' /\
               vectors Examples.two_manager !! 1%nat = Some vec /\
               (100, -(15)) = h_top h /\ (100, 15) = h_bottom h /\
               v_begin vec = middle_dot h /\ v_end vec = middle_dot h' /\
               (160 # 2, 0 # 2) = middle_dot h'.
Proof.
  intros L.
  assert (Hfeed : add_hatches (clear RowsManager_init) Examples.two_strokes
                  = (Examples.two_manager, Ok tt)) by (vm_compute; reflexivity).
  assert (Hproc : process Examples.two_manager = Examples.two_run)
    by (vm_compute; reflexivity).
  exact (add_hatch_folds_previous_corners _ _ _ _ _ 0 _ _ _ Hfeed Hproc eq_refl).
Defined.

(** C2 as stated fails on the two example strokes: the corners folded
    with the vector that ends at the second stroke are those of the
    first stroke. *)
Lemma folds_corners_of_end_stroke_counterexample :
  ~ @folds_corners_of_end_stroke (SpecLib.spec_lib 0) Examples.two_strokes.
Proof.
  intros Hclaim.
  set (L := SpecLib.spec_lib 0) in *.
  assert (Hfeed : add_hatches RowsManager_init Examples.two_strokes
                  = (Examples.two_manager, Ok tt)) by (vm_compute; reflexivity).
  assert (Hproc : process Examples.two_manager = Examples.two_run)
    by (vm_compute; reflexivity).
  destruct (Hclaim _ _ _ 0%nat _ _ _ (Examples.stroke 80 0) Hfeed Hproc eq_refl eq_refl)
    as [[Hx _] _].
  vm_compute in Hx. discriminate.
Qed.

Section Absorption.
Context `{Lib}.

Lemma final_vector_Ok (r : MatrixRow) :
  vectors_list r <> [] -> exists fv, final_vector r = Ok fv.
Proof.
  intros Hne. unfold final_vector, subscript, subscript_last.
  destruct (vectors_list r) as [|v vl] eqn:Hvl; [congruence|]. simpl.
  destruct (last (v :: vl)) as [w|] eqn:Hlast.
  - simpl. eauto.
  - apply last_None in Hlast. discriminate.
Qed.





End Absorption.



(** C1 fails on [stray_strokes].  The third stroke is absorbed (its
    vector is above the threshold and ends inside the band of the only
    row), so nothing is appended for it; the vector of the fourth stroke
    starts at the middle dot (92, 5) of the absorbed stroke and is
    appended after the vector that ends at (80, 0).  The row returned is
    not a contiguous chain. *)
Theorem chain_broken_by_absorbed_stroke :
  let L := SpecLib.spec_lib 0 in
  add_hatches RowsManager_init Examples.stray_strokes = (Examples.stray_manager, Ok tt) /\
  exists m' tr r v w,
    process Examples.stray_manager = Ok (m', tr) /\
    tr !! 1%nat = Some (AddedToRow 0) /\
    rows m' = [r] /\
    vectors_list r = [v; w] /\
    v_end v = (160 # 2, 0 # 2) /\ v_begin w = (184 # 2, 10 # 2) /\
    ~ contiguous (vectors_list r).
Proof.
  intros L. split; [vm_compute; reflexivity|].
  assert (Hproc : process Examples.stray_manager = Examples.stray_run)
    by (vm_compute; reflexivity).
  unfold Examples.stray_run in Hproc.
  do 5 eexists. split; [exact Hproc|].
  do 5 (split; [reflexivity|]).
  intros [[Hx _] _]. vm_compute in Hx. discriminate.
Qed.

(** C7 fails on the row that [process] builds from [slanted_strokes]
    (threshold 1, so that every vector continues the row).  The row runs
    from (0, 0) to (120, 50) with [top] and [bottom] 180/13.  The dot
    (60, 25), the middle of the second stroke of the row, is the
    centroid of the band, so the two sums of the claim coincide there;
    the code compares with the sum at [middle] = (60, 50), which lies
    outside the band, and answers [False]. *)
Theorem band_test_rejects_centroid :
  let L := SpecLib.spec_lib 1 in
  add_hatches RowsManager_init Examples.slanted_strokes = (Examples.slanted_manager, Ok tt) /\
  exists m' tr r fv,
    process Examples.slanted_manager = Ok (m', tr) /\
    rows m' = [r] /\
    final_vector r = Ok fv /\
    dot_eq (v_begin fv) (0, 0) /\ dot_eq (v_end fv) (120, 50) /\
    top r == 180 # 13 /\ bottom r == 180 # 13 /\
    let x := band_corners fv (top r) (bottom r) in
    dot_eq (centroid x) (60, 25) /\
    dot_eq (band_middle fv (top r) (bottom r)) (60, 50) /\
    fan_area x (60, 25) == fan_area x (centroid x) /\
    is_dot_inside_row r (60, 25) = Ok false.
Proof.
  intros L. split; [vm_compute; reflexivity|].
  assert (Hproc : process Examples.slanted_manager = Examples.slanted_run)
    by (vm_compute; reflexivity).
  unfold Examples.slanted_run in Hproc.
  do 4 eexists. split; [exact Hproc|].
  do 2 (split; [reflexivity|]).
  do 2 (split; [split; vm_compute; reflexivity|]).
  do 2 (split; [vm_compute; reflexivity|]).
  cbv zeta.
  do 2 (split; [split; vm_compute; reflexivity|]).
  split; vm_compute; reflexivity.
Qed.

Section Widths.
Context `{Lib}.
Import Voronoi.

Lemma py_min_spec (a b : Q) :
  py_min a b <= a /\ py_min a b <= b /\ (py_min a b = a \/ py_min a b = b).
Proof.
  unfold py_min, Qlt_bool. destruct (Qle_bool a b) eqn:Hle; simpl.
  - apply Qle_bool_iff in Hle. repeat split; [apply Qle_refl | exact Hle | left; reflexivity].
  - assert (Hlt : b < a).
    { apply Qnot_le_lt. intros Hab. apply Qle_bool_iff in Hab. congruence. }
    repeat split; [apply Qlt_le_weak; exact Hlt | apply Qle_refl | right; reflexivity].
Qed.

Lemma for_each_raise {S A} (body : S -> A -> result S) (s s1 : S) (l1 l2 : list A)
    (a : A) (e : error) :
  for_each body s l1 = Ok s1 -> body s1 a = Raise e ->
  for_each body s (l1 ++ a :: l2) = Raise e.
Proof.
  revert s. induction l1 as [|x l1 IH]; intros s Hrun Hbody; simpl in *.
  - injection Hrun as ->. rewrite Hbody. reflexivity.
  - destruct (body s x) as [s'|e']; simpl in *; [|discriminate]. apply IH; assumption.
Qed.

(** C6.  [calculate_width] by the number of neighbours whose id is in
    the list given.  With one, the call returns with [digit_width] set
    to the distance from the center to the point where the line through
    the neighbour's two dots meets the horizontal through the center,
    and every other field of the cell as it was; with two, with
    [digit_width] set to the smaller of the two such distances; with
    any other number the call raises [AttributeError].  Nothing in
    [add_voronoi_cells] catches the exception: the loop that makes the
    call, and the method, raise it too. *)
Theorem calculate_width_by_count (self : Cell) (neighbor_ids : list Z) :
  let matching := filter (fun n => neighbor_id n ∈ neighbor_ids) (neighbors self) in
  let horizontal := (center self, ((center self).1 + 1, (center self).2)) in
  let width := fun n =>
    let* p := line_intersection (dot_start n, dot_end n) horizontal in
    Ok (get_dist_between_dots p (center self)) in
  (forall n w, matching = [n] -> width n = Ok w ->
     exists self', calculate_width self neighbor_ids = Ok self' /\
       digit_width self' = Some w /\ same_but_width self self') /\
  (forall n0 n1 w0 w1, matching = [n0; n1] -> width n0 = Ok w0 -> width n1 = Ok w1 ->
     (exists self', calculate_width self neighbor_ids = Ok self' /\
        digit_width self' = Some (py_min w0 w1) /\ same_but_width self self') /\
     py_min w0 w1 <= w0 /\ py_min w0 w1 <= w1 /\
     (py_min w0 w1 = w0 \/ py_min w0 w1 = w1)) /\
  (length matching <> 1%nat -> length matching <> 2%nat ->
     calculate_width self neighbor_ids = Raise AttributeError) /\
  (forall reg k ns e,
     reg !! k = Some self ->
     map_result (fun n => let* c := lookup_cell reg n in Ok (id c)) ns = Ok neighbor_ids ->
     calculate_width self neighbor_ids = Raise e ->
     calculate_width_at reg (k, ns) = Raise e /\
     forall (m : RowsManager) reg0 reg1 rows1 rows2 row cells1 cells2 ncs1 ncs2,
       processed m = true ->
       map_result (attach_cells (registry_items reg0)) (rows m) = Ok (rows1 ++ row :: rows2) ->
       for_each calculate_widths reg0 rows1 = Ok reg1 ->
       for_each calculate_width_at reg1 (zip cells1 ncs1) = Ok reg ->
       voronoi_cells row = cells1 ++ k :: cells2 ->
       neighbor_cells (voronoi_cells row) = Ok (ncs1 ++ ns :: ncs2) ->
       length cells1 = length ncs1 ->
       add_voronoi_cells m reg0 = Raise e).
Proof.
  intros matching horizontal width.
  assert (Hw : forall n, _get_dist_to_neighbor self n = width n) by reflexivity.
  assert (Hcw : calculate_width self neighbor_ids =
                match matching with
                | [n] => let* w := width n in Ok (set_digit_width self w)
                | [n0; n1] =>
                    let* w1 := width n0 in
                    let* w2 := width n1 in
                    Ok (set_digit_width self (py_min w1 w2))
                | _ => Raise AttributeError
                end) by reflexivity.
  split; [|split; [|split]].
  - intros n w Hm Hn. rewrite Hcw, Hm, Hn. simpl.
    eexists. split; [reflexivity|]. split; reflexivity.
  - intros n0 n1 w0 w1 Hm Hn0 Hn1. split; [|apply py_min_spec].
    rewrite Hcw, Hm, Hn0, Hn1. simpl.
    eexists. split; [reflexivity|]. split; reflexivity.
  - intros H1 H2. rewrite Hcw.
    destruct matching as [|n0 [|n1 [|n2 l]]]; simpl in *; congruence.
  - intros reg k ns e Hk Hids Hraise.
    assert (Hat : calculate_width_at reg (k, ns) = Raise e).
    { unfold calculate_width_at. rewrite Hids. simpl.
      unfold lookup_cell. rewrite Hk. simpl. rewrite Hraise. reflexivity. }
    split; [exact Hat|].
    intros m reg0 reg1 rows1 rows2 row cells1 cells2 ncs1 ncs2
      Hproc Hattach Hrows Hcells Hvc Hnc Hlen.
    unfold add_voronoi_cells. rewrite Hproc. simpl. rewrite Hattach. simpl.
    erewrite for_each_raise; [reflexivity | exact Hrows |].
    unfold calculate_widths. rewrite Hnc. simpl. rewrite Hvc.
    rewrite zip_with_app by exact Hlen. simpl.
    apply for_each_raise with (s1 := reg); assumption.
Qed.

End Widths.

(** The three cases on [lone_cell], and the exception of a cell without
    neighbours leaving [add_voronoi_cells]. *)
Lemma calculate_width_by_count_witness :
  let L := SpecLib.spec_lib 0 in
  (exists c w, Voronoi.calculate_width Examples.lone_cell [1%Z] = Ok c /\
               Voronoi.digit_width c = Some w /\ w == 5) /\
  (exists c w, Voronoi.calculate_width Examples.lone_cell [1%Z; 2%Z] = Ok c /\
               Voronoi.digit_width c = Some w /\ w == 3) /\
  Voronoi.calculate_width Examples.lone_cell [3%Z] = Raise AttributeError /\
  add_voronoi_cells Examples.two_strokes_processed Examples.bare_registry
    = Raise AttributeError.
Proof.
  intros L.
  set (n1 := Voronoi.mkCellNeighbor 0 1 (5, -(5)) (5, Number 5) true).
  set (n2 := Voronoi.mkCellNeighbor 0 2 (-(3), -(5)) (-(3), Number 7) true).
  set (width := fun n => match Voronoi._get_dist_to_neighbor Examples.lone_cell n with
                         | Ok w => w
                         | Raise _ => 0
                         end).
  split; [|split; [|split]].
  - destruct (calculate_width_by_count Examples.lone_cell [1%Z]) as (P & _).
    destruct (P n1 (width n1)) as (c & Hc & Hw & _); [vm_compute; reflexivity ..|].
    exists c, (width n1). split; [exact Hc|]. split; [exact Hw|].
    vm_compute. reflexivity.
  - destruct (calculate_width_by_count Examples.lone_cell [1%Z; 2%Z]) as (_ & P & _).
    destruct (P n1 n2 (width n1) (width n2)) as ((c & Hc & Hw & _) & _);
      [vm_compute; reflexivity ..|].
    exists c, (py_min (width n1) (width n2)). split; [exact Hc|]. split; [exact Hw|].
    vm_compute. reflexivity.
  - destruct (calculate_width_by_count Examples.lone_cell [3%Z]) as (_ & _ & P & _).
    apply P; vm_compute; discriminate.
  - set (c0 := Voronoi.mkCell 0 (100, 0) false [] None None None None).
    destruct (calculate_width_by_count c0 [1%Z]) as (_ & _ & Hraise & P).
    assert (Hc0 : Voronoi.calculate_width c0 [1%Z] = Raise AttributeError)
      by (apply Hraise; vm_compute; discriminate).
    destruct (P Examples.bare_registry 0%Z [1%Z] AttributeError) as (_ & Q);
      [vm_compute; reflexivity | vm_compute; reflexivity | exact Hc0 |].
    set (row := MatrixRows.set_voronoi_cells
                  (Examples.first_row (rows Examples.two_strokes_processed)) [0%Z; 1%Z]).
    apply (Q Examples.two_strokes_processed Examples.bare_registry Examples.bare_registry
             [] [] row [] [1%Z] [] [[0%Z]]); vm_compute; reflexivity.
Defined.

Section HeuristicA.
Context `{Lib}.
Import Voronoi.

Lemma sum_digit_width_nonneg (reg : registry) (cells : list Z) (total : Q) :
  (forall k c w, k ∈ cells -> reg !! k = Some c -> digit_width c = Some w -> 0 <= w) ->
  sum_digit_width reg cells = Ok total -> 0 <= total.
Proof.
  revert total. induction cells as [|k cells IH]; intros total Hpos Hsum; simpl in Hsum.
  - injection Hsum as <-. apply Qle_refl.
  - unfold lookup_cell in Hsum. destruct (reg !! k) as [c|] eqn:Hk; [|discriminate].
    simpl in Hsum. destruct (digit_width c) as [w|] eqn:Hw; [|discriminate].
    apply bind_Ok in Hsum as (s & Hs & Heq). injection Heq as <-.
    assert (0 <= w) by (eapply Hpos; [left | exact Hk | exact Hw]).
    assert (0 <= s).
    { apply IH; [|exact Hs]. intros k' c' w' Hin. apply Hpos. right. exact Hin. }
    lra.
Qed.

Lemma py_div_Ok (n d q : Q) : py_div n d = Ok q -> ~ d == 0 /\ q = n / d.
Proof.
  unfold py_div. destruct (Qeq_bool d 0) eqn:Hd; [discriminate|].
  intros [= <-]. split; [|reflexivity]. intros Hz. apply Qeq_bool_iff in Hz. congruence.
Qed.

Lemma predict_step_result (avg : Q) (reg reg1 : registry) (i : nat) (k kn : Z)
    (c n : Cell) :
  reg !! k = Some c -> reg !! kn = Some n ->
  predict_step avg reg (i, (k, kn)) = Ok reg1 ->
  ~ avg == 0 /\
  let rel := get_dist_between_dots (center c) (center n) / avg in
  exists c1, reg1 !! k = Some c1 /\ relative_width c1 = Some rel /\
    come_with c1 = if Qle_bool rel (3 # 2) then Some kn else come_with c.
Proof.
  intros Hk Hkn. unfold predict_step, lookup_cell. rewrite Hk, Hkn. simpl.
  intros Hstep. apply bind_Ok in Hstep as (rel & Hrel & Hstep).
  apply py_div_Ok in Hrel as (Havg & ->). split; [exact Havg|]. simpl.
  destruct (Qle_bool _ (3 # 2)); injection Hstep as <-.
  - rewrite !lookup_alter_eq, Hk. simpl. eexists. repeat split.
  - rewrite lookup_alter_eq, Hk. simpl. eexists. repeat split.
Qed.

(** C8.  Heuristic A is monotonic in the distance.  Let [avg] be the
    average digit width of a row, as [predict_neighbor_cells] computes
    it from widths that are distances, hence not negative.  If the loop
    body links the pair [(k, k_next)] when the two centers are as in
    [regA], it links the pair for any placement [regB] of the two
    centers at a distance that is not larger. *)
Theorem heuristic_A_monotone (row : MatrixRow) (reg0 regA regB regA1 : registry)
    (total avg : Q) (i : nat) (k k_next : Z) (cA nA cB nB : Cell) :
  sum_digit_width reg0 (voronoi_cells row) = Ok total ->
  py_div total (inject_Z (Z.of_nat (length (voronoi_cells row)))) = Ok avg ->
  (forall k c w, k ∈ voronoi_cells row -> reg0 !! k = Some c ->
                 digit_width c = Some w -> 0 <= w) ->
  regA !! k = Some cA -> regA !! k_next = Some nA ->
  regB !! k = Some cB -> regB !! k_next = Some nB ->
  get_dist_between_dots (center cB) (center nB)
    <= get_dist_between_dots (center cA) (center nA) ->
  predict_step avg regA (i, (k, k_next)) = Ok regA1 ->
  linked regA1 k k_next ->
  exists regB1, predict_step avg regB (i, (k, k_next)) = Ok regB1 /\
                linked regB1 k k_next.
Proof.
  intros Hsum Havg Hpos HkA HnA HkB HnB Hdist HstepA HlinkA.
  apply sum_digit_width_nonneg in Hsum; [|exact Hpos].
  apply py_div_Ok in Havg as (Hlen & Havg).
  destruct (predict_step_result _ _ _ _ _ _ _ _ HkA HnA HstepA) as (Hnz & c1 & Hc1 & Hrel & _).
  destruct HlinkA as (c1' & rel & Hc1' & Hrel' & Hle & _).
  rewrite Hc1 in Hc1'. injection Hc1' as <-. rewrite Hrel in Hrel'. injection Hrel' as <-.
  assert (Hlen_pos : 0 < inject_Z (Z.of_nat (length (voronoi_cells row)))).
  { destruct (voronoi_cells row); [exfalso; apply Hlen; reflexivity|].
    rewrite <- (Zlt_Qlt 0). simpl. lia. }
  assert (Havg_pos : 0 < avg).
  { assert (0 <= avg).
    { subst avg. apply Qle_shift_div_l; [exact Hlen_pos|]. lra. }
    destruct (Qlt_le_dec 0 avg) as [|Hle0]; [assumption|].
    exfalso. apply Hnz. lra. }
  set (relB := get_dist_between_dots (center cB) (center nB) / avg).
  assert (HrelB : relB <= 3 # 2).
  { unfold relB. apply Qle_shift_div_r; [exact Havg_pos|].
    apply Qle_trans with (get_dist_between_dots (center cA) (center nA)); [exact Hdist|].
    apply Qle_trans with (get_dist_between_dots (center cA) (center nA) / avg * avg).
    - apply Qle_lteq. right. field. exact Hnz.
    - apply Qmult_le_compat_r; [exact Hle | lra]. }
  assert (HdivB : py_div (get_dist_between_dots (center cB) (center nB)) avg = Ok relB).
  { unfold py_div. destruct (Qeq_bool avg 0) eqn:Hz; [|reflexivity].
    apply Qeq_bool_iff in Hz. contradiction. }
  assert (HleB : Qle_bool relB (3 # 2) = true) by (apply Qle_bool_iff; exact HrelB).
  eexists. split.
  - unfold predict_step, lookup_cell. rewrite HkB, HnB. simpl. rewrite HdivB. simpl.
    rewrite HleB. reflexivity.
  - unfold linked. rewrite !lookup_alter_eq, HkB. simpl.
    eexists. exists relB. repeat split. exact HrelB.
Qed.

End HeuristicA.

(** The two cells of width 10: linked at distance 12, hence at 9. *)
Lemma heuristic_A_monotone_witness :
  let L := SpecLib.spec_lib 0 in
  MatrixRows.py_div 20 (inject_Z (Z.of_nat (length (voronoi_cells Examples.band_row))))
    = Ok (20 # 2) /\
  predict_step (20 # 2) Examples.pair_far (0%nat, (0%Z, 1%Z)) = Ok Examples.pair_far_after /\
  linked Examples.pair_far_after 0 1 /\
  exists regB1,
    predict_step (20 # 2) Examples.pair_near (0%nat, (0%Z, 1%Z)) = Ok regB1 /\
    linked regB1 0 1.
Proof.
  intros L.
  assert (Havg : MatrixRows.py_div 20
                   (inject_Z (Z.of_nat (length (voronoi_cells Examples.band_row))))
                 = Ok (20 # 2)) by (vm_compute; reflexivity).
  assert (HA : predict_step (20 # 2) Examples.pair_far (0%nat, (0%Z, 1%Z))
               = Ok Examples.pair_far_after) by (vm_compute; reflexivity).
  assert (Hlink : linked Examples.pair_far_after 0 1).
  { unfold linked. do 2 eexists. split; [reflexivity|]. split; [reflexivity|].
    split; [|reflexivity]. vm_compute. discriminate. }
  repeat (split; [assumption|]).
  apply (heuristic_A_monotone Examples.band_row Examples.pair_far Examples.pair_far
           Examples.pair_near Examples.pair_far_after 20 (20 # 2) 0 0 1
           (Examples.wide_cell 0 (0, 0)) (Examples.wide_cell 1 (12, 0))
           (Examples.wide_cell 0 (0, 0)) (Examples.wide_cell 1 (9, 0))).
  - vm_compute. reflexivity.
  - exact Havg.
  - intros k c w Hin Hk Hw.
    assert (Hcases : k = 0%Z \/ k = 1%Z).
    { simpl in Hin. apply elem_of_cons in Hin as [->|Hin]; [left; reflexivity|].
      apply list_elem_of_singleton in Hin. right. exact Hin. }
    destruct Hcases as [-> | ->]; vm_compute in Hk; injection Hk as <-;
      injection Hw as <-; vm_compute; discriminate.
  - vm_compute. reflexivity.
  - vm_compute. reflexivity.
  - vm_compute. reflexivity.
  - vm_compute. reflexivity.
  - vm_compute. discriminate.
  - exact HA.
  - exact Hlink.
Defined.

Section HeuristicB.
Context `{Lib}.
Import Voronoi.

Lemma for_each_total {S A} (body : S -> A -> result S) (l : list A) (s : S) :
  (forall s a, a ∈ l -> exists s', body s a = Ok s') ->
  exists s', for_each body s l = Ok s'.
Proof.
  revert s. induction l as [|a l IH]; intros s Hbody; simpl.
  - eauto.
  - destruct (Hbody s a) as (s1 & ->); [left|]. simpl.
    apply IH. intros s2 a' Ha'. apply Hbody. right. exact Ha'.
Qed.

Lemma adjacent_pairs_index (cells : list Z) (i : nat) (p : Z * Z) :
  (i, p) ∈ adjacent_pairs cells -> (i + 1 < length cells)%nat.
Proof.
  intros Hin. apply list_elem_of_lookup in Hin as (j & Hj).
  unfold adjacent_pairs in Hj. rewrite list_lookup_imap in Hj.
  destruct (zip cells (tail cells) !! j) as [q|] eqn:Hz; simpl in Hj; [|discriminate].
  injection Hj as <- <-.
  apply lookup_zip_with_Some in Hz as (x & y & _ & _ & Hy).
  apply lookup_lt_Some in Hy. rewrite length_tl in Hy. lia.
Qed.

Lemma height_zero_raises (row : MatrixRow) (i j : nat) :
  top row + bottom row == 0 ->
  is_dots_come_together row i j = Raise ZeroDivisionError.
Proof.
  intros Hz. unfold is_dots_come_together.
  apply Qeq_bool_iff in Hz. rewrite Hz. reflexivity.
Qed.

Lemma height_nonzero_total (row : MatrixRow) (i j : nat) :
  ~ top row + bottom row == 0 ->
  vectors_list row <> [] ->
  (i <= length (vectors_list row))%nat -> (j <= length (vectors_list row))%nat ->
  exists b, is_dots_come_together row i j = Ok b.
Proof.
  intros Hnz Hne Hi Hj. unfold is_dots_come_together.
  destruct (Qeq_bool (top row + bottom row) 0) eqn:Hz.
  { apply Qeq_bool_iff in Hz. contradiction. }
  unfold row_dots, subscript.
  destruct (vectors_list row) as [|v vl] eqn:Hvl; [congruence|]. simpl.
  set (dots := v_begin v :: v_end v :: map v_end vl).
  assert (Hlen : length dots = S (S (length vl))) by (unfold dots; simpl; rewrite length_map; reflexivity).
  simpl in Hi, Hj.
  destruct (dots !! i) as [d1|] eqn:H1; [|apply lookup_ge_None in H1; lia].
  destruct (dots !! j) as [d2|] eqn:H2; [|apply lookup_ge_None in H2; lia].
  simpl. eauto.
Qed.

(** C9.  Heuristic B divides by the height [top + bottom] of the row.
    When the height is not zero the pairwise test returns a boolean for
    every two dots of the row, and [predict_neighbor_cells_2] returns on
    a row whose cells are those of its dots.  When the height is zero
    the pairwise test raises [ZeroDivisionError]; so does
    [predict_neighbor_cells_2] as soon as the row has two cells, and so
    does [predict_rows_neighbor_cells_2] for a manager that holds such
    a row. *)
Theorem heuristic_B_height (row : MatrixRow) :
  (~ top row + bottom row == 0 ->
   vectors_list row <> [] ->
   (forall i j, (i <= length (vectors_list row))%nat -> (j <= length (vectors_list row))%nat ->
                exists b, is_dots_come_together row i j = Ok b) /\
   ((length (voronoi_cells row) <= S (length (vectors_list row)))%nat ->
    forall reg, exists reg', predict_neighbor_cells_2 row reg = Ok reg')) /\
  (top row + bottom row == 0 ->
   (forall i j, is_dots_come_together row i j = Raise ZeroDivisionError) /\
   ((2 <= length (voronoi_cells row))%nat ->
    (forall reg, predict_neighbor_cells_2 row reg = Raise ZeroDivisionError) /\
    (forall (m : RowsManager) reg,
       row ∈ rows m ->
       (forall r, r ∈ rows m -> vectors_list r <> [] /\
          (length (voronoi_cells r) <= S (length (vectors_list r)))%nat) ->
       predict_rows_neighbor_cells_2 m reg = Raise ZeroDivisionError))).
Proof.
  assert (Htotal : forall r : MatrixRow,
             ~ top r + bottom r == 0 -> vectors_list r <> [] ->
             (length (voronoi_cells r) <= S (length (vectors_list r)))%nat ->
             forall reg, exists reg', predict_neighbor_cells_2 r reg = Ok reg').
  { intros r Hnz Hne Hlen reg. unfold predict_neighbor_cells_2.
    apply for_each_total. intros s [i [k kn]] Hin.
    apply adjacent_pairs_index in Hin. unfold predict_step_2.
    destruct (height_nonzero_total r i (i + 1) Hnz Hne) as (b & ->); [lia | lia |].
    simpl. destruct b; eauto. }
  assert (Hraise : forall r : MatrixRow,
             top r + bottom r == 0 -> (2 <= length (voronoi_cells r))%nat ->
             forall reg, predict_neighbor_cells_2 r reg = Raise ZeroDivisionError).
  { intros r Hz Hlen reg. unfold predict_neighbor_cells_2, adjacent_pairs.
    destruct (voronoi_cells r) as [|k [|kn cells]]; simpl in Hlen; try lia.
    simpl. rewrite height_zero_raises by exact Hz. reflexivity. }
  split.
  - intros Hnz Hne. split.
    + intros i j Hi Hj. apply height_nonzero_total; assumption.
    + intros Hlen reg. apply Htotal; assumption.
  - intros Hz. split.
    + intros i j. apply height_zero_raises. exact Hz.
    + intros Hlen. split; [apply Hraise; assumption|].
      intros m reg Hin Hwf. unfold predict_rows_neighbor_cells_2.
      revert reg. induction (rows m) as [|r rs IH]; intros reg; [inversion Hin|].
      simpl.
      assert (Hwf' : forall r', r' ∈ rs -> vectors_list r' <> [] /\
                (length (voronoi_cells r') <= S (length (vectors_list r')))%nat)
        by (intros r' Hr'; apply Hwf; right; exact Hr').
      destruct (Qeq_bool (top r + bottom r) 0) eqn:Hr.
      * apply Qeq_bool_iff in Hr.
        destruct (le_lt_dec 2 (length (voronoi_cells r))) as [H2|H2].
        -- rewrite Hraise by assumption. reflexivity.
        -- assert (Hnil : adjacent_pairs (voronoi_cells r) = []).
           { unfold adjacent_pairs. destruct (voronoi_cells r) as [|k [|kn cells]];
               simpl in H2; [reflexivity | reflexivity | lia]. }
           unfold predict_neighbor_cells_2 at 1. rewrite Hnil. simpl.
           apply IH; [|exact Hwf'].
           inversion Hin; subst; [lia | assumption].
      * assert (Hnz : ~ top r + bottom r == 0).
        { intros Hq. apply Qeq_bool_iff in Hq. congruence. }
        destruct (Hwf r) as (Hne & Hlen'); [left|].
        destruct (Htotal r Hnz Hne Hlen' reg) as (reg' & ->). simpl.
        apply IH; [|exact Hwf'].
        inversion Hin; subst; [contradiction | assumption].
Qed.

End HeuristicB.

(** The row with a band of height 30 and the row with a band of height
    zero, over the two bare cells. *)
Lemma heuristic_B_height_witness :
  let L := SpecLib.spec_lib 0 in
  (exists reg', predict_neighbor_cells_2 Examples.band_row Examples.bare_registry = Ok reg') /\
  predict_neighbor_cells_2 Examples.flat_row Examples.bare_registry = Raise ZeroDivisionError /\
  predict_rows_neighbor_cells_2 Examples.flat_manager Examples.bare_registry
    = Raise ZeroDivisionError.
Proof.
  intros L. split; [|split].
  - destruct (heuristic_B_height Examples.band_row) as (P & _).
    destruct P as (_ & P).
    + intros Hq. vm_compute in Hq. discriminate.
    + discriminate.
    + apply P. simpl. lia.
  - destruct (heuristic_B_height Examples.flat_row) as (_ & P).
    destruct P as (_ & P); [reflexivity|].
    destruct P as (P & _); [simpl; lia|]. apply P.
  - destruct (heuristic_B_height Examples.flat_row) as (_ & P).
    destruct P as (_ & P); [reflexivity|].
    destruct P as (_ & P); [simpl; lia|]. apply P.
    + left.
    + intros r Hr. apply list_elem_of_singleton in Hr. subst r. split; [discriminate|].
      simpl. lia.
Defined.

Section Synthesis.
Import Voronoi.

Lemma Qlt_bool_comp (a a' b b' : Q) :
  a == a' -> b == b' -> Qlt_bool a b = Qlt_bool a' b'.
Proof. intros Ha Hb. unfold Qlt_bool. rewrite Ha, Hb. reflexivity. Qed.

Lemma Qlt_bool_true (a b : Q) : Qlt_bool a b = true <-> a < b.
Proof.
  unfold Qlt_bool. destruct (Qle_bool b a) eqn:Hle; simpl.
  - apply Qle_bool_iff in Hle. split; [discriminate | lra].
  - split; [|reflexivity]. intros _. apply Qnot_le_lt. intros Hba.
    apply Qle_bool_iff in Hba. congruence.
Qed.

Lemma Qlt_bool_false (a b : Q) : Qlt_bool a b = false <-> b <= a.
Proof.
  unfold Qlt_bool. destruct (Qle_bool b a) eqn:Hle; simpl.
  - apply Qle_bool_iff in Hle. split; [auto | reflexivity].
  - split; [discriminate|]. intros Hba. apply Qle_bool_iff in Hba. congruence.
Qed.

Lemma py_max_swap (a b a' b' : Q) : a == a' -> b == b' -> py_max a b == py_max b' a'.
Proof.
  intros Ha Hb. unfold py_max.
  destruct (Qlt_bool a b) eqn:H1; destruct (Qlt_bool b' a') eqn:H2;
    try apply Qlt_bool_true in H1; try apply Qlt_bool_true in H2;
    try apply Qlt_bool_false in H1; try apply Qlt_bool_false in H2; lra.
Qed.

Lemma py_min_swap (a b a' b' : Q) : a == a' -> b == b' -> py_min a b == py_min b' a'.
Proof.
  intros Ha Hb. unfold py_min.
  destruct (Qlt_bool b a) eqn:H1; destruct (Qlt_bool a' b') eqn:H2;
    try apply Qlt_bool_true in H1; try apply Qlt_bool_true in H2;
    try apply Qlt_bool_false in H1; try apply Qlt_bool_false in H2; lra.
Qed.

Lemma from_slope_abscissa (m x0 x1 : Q) (s : Dot) :
  (from_slope m x0 x1 s).1 = (if Qlt_bool 0 m then py_max x0 x1 else py_min x0 x1).
Proof.
  unfold from_slope. cbv zeta. cbn [fst].
  destruct (Qlt_bool (- m) 0) eqn:Hb.
  - apply Qlt_bool_true in Hb.
    assert (H0 : Qlt_bool 0 m = true) by (apply Qlt_bool_true; lra).
    rewrite H0. reflexivity.
  - apply Qlt_bool_false in Hb.
    assert (H0 : Qlt_bool 0 m = false) by (apply Qlt_bool_false; lra).
    rewrite H0. reflexivity.
Qed.

Lemma from_slope_ordinate (m x0 x1 : Q) (s : Dot) :
  ~ m == 0 ->
  (from_slope m x0 x1 s).2
    = Number (- (-(1) * (from_slope m x0 x1 s).1 + - (-(1) * s.1 + - m * s.2)) / - m).
Proof.
  intros Hm. unfold from_slope, np_div. cbv zeta. cbn [fst snd].
  destruct (Qeq_bool (- m) 0) eqn:Hz; [|reflexivity].
  apply Qeq_bool_iff in Hz. exfalso. apply Hm. lra.
Qed.

Lemma from_slope_zero (m x0 x1 : Q) (s : Dot) :
  m == 0 -> from_slope m x0 x1 s = (py_min x0 x1, InfOrNan).
Proof.
  intros Hm. unfold from_slope, np_div. cbv zeta.
  assert (Hb : Qlt_bool (- m) 0 = false) by (apply Qlt_bool_false; lra).
  assert (Hz : Qeq_bool (- m) 0 = true) by (apply Qeq_bool_iff; lra).
  rewrite Hb, Hz. reflexivity.
Qed.

(** Two fits with the same non-zero slope, for the two orders of the
    centers, give the same replacement end point. *)
Lemma from_slope_swap (m m' x0 x1 : Q) (s : Dot) :
  m == m' -> ~ m == 0 -> end_eq (from_slope m x0 x1 s) (from_slope m' x1 x0 s).
Proof.
  intros Hm Hne.
  assert (Hne' : ~ m' == 0) by (rewrite <- Hm; exact Hne).
  assert (Hx : (from_slope m x0 x1 s).1 == (from_slope m' x1 x0 s).1).
  { rewrite !from_slope_abscissa.
    rewrite (Qlt_bool_comp 0 0 m m') by (reflexivity || exact Hm).
    destruct (Qlt_bool 0 m'); [apply py_max_swap | apply py_min_swap]; reflexivity. }
  split; [exact Hx|].
  rewrite (from_slope_ordinate m) by exact Hne.
  rewrite (from_slope_ordinate m') by exact Hne'.
  rewrite Hx, Hm. reflexivity.
Qed.

End Synthesis.

Section Fits.
Import Voronoi.
Context `{Numpy}.

Lemma synthesize_dot_end_from_slope (p0 p1 s : Dot) (m c : Q) :
  lstsq p0 p1 = Ok (m, c) ->
  synthesize_dot_end p0 p1 s = Ok (from_slope m p0.1 p1.1 s).
Proof. intros Hfit. unfold synthesize_dot_end. rewrite Hfit. reflexivity. Qed.

Lemma synthesize_dot_end_Ok (p0 p1 s : Dot) (e : end_dot) :
  synthesize_dot_end p0 p1 s = Ok e ->
  exists m c, lstsq p0 p1 = Ok (m, c) /\ e = from_slope m p0.1 p1.1 s.
Proof.
  unfold synthesize_dot_end. destruct (lstsq p0 p1) as [[m c]|err]; [|discriminate].
  intros [= <-]. exists m, c. split; reflexivity.
Qed.

End Fits.

Section Adjacency.
Import Voronoi.
Context `{Numpy}.

Lemma dot_eq_refl (p : Dot) : dot_eq p p.
Proof. split; reflexivity. Qed.

Lemma dot_eq_sym (p q : Dot) : dot_eq p q -> dot_eq q p.
Proof. intros [H1 H2]. split; symmetry; assumption. Qed.

Lemma end_eq_sym (p q : end_dot) : end_eq p q -> end_eq q p.
Proof.
  destruct p as [x [y|]], q as [x' [y'|]]; unfold end_eq; simpl;
    intros [H1 H2]; try contradiction; split; symmetry; assumption.
Qed.

Lemma mirrors_sym (n n' : CellNeighbor) : mirrors n n' -> mirrors n' n.
Proof.
  intros (H1 & H2 & H3 & H4 & H5). unfold mirrors.
  do 4 (split; [congruence|]).
  intros Hf. apply end_eq_sym, H5. congruence.
Qed.

Lemma lookup_with_pair (reg : registry) (k0 k1 : Z) (n1 n2 : CellNeighbor) (a : Z) :
  with_pair reg k0 k1 n1 n2 !! a =
  (fun c => mkCell (id c) (center c) (is_closed c)
              (neighbors c ++ (if decide (k0 = a) then [n1] else [])
                           ++ (if decide (k1 = a) then [n2] else []))
              (digit_width c) (relative_width c) (come_with c) (predicted_number c))
    <$> reg !! a.
Proof.
  unfold with_pair.
  destruct (decide (k1 = a)) as [->|N1]; destruct (decide (k0 = a)) as [->|N0];
    rewrite ?lookup_alter_eq, ?lookup_alter_ne by assumption;
    rewrite ?lookup_alter_eq, ?lookup_alter_ne by assumption;
    destruct (reg !! a) as [[]|]; simpl; try reflexivity;
    unfold append_neighbor; simpl; f_equal; f_equal;
    rewrite <- ?app_assoc, ?app_nil_r; reflexivity.
Qed.

(** Appending neighbours moves no center, so an end that was
    synthesized from the centers of the registry stays one. *)
Lemma synthesized_with_pair (reg : registry) (k0 k1 : Z) (n1 n2 n : CellNeighbor) :
  synthesized reg n -> synthesized (with_pair reg k0 k1 n1 n2) n.
Proof.
  intros Hs Hf. destruct (Hs Hf) as (c0 & c1 & m & c & H0 & H1 & Hfit & He).
  eexists _, _, m, c. rewrite !lookup_with_pair, H0, H1. simpl.
  split; [reflexivity|]. split; [reflexivity|]. split; [exact Hfit | exact He].
Qed.

Lemma with_pair_preserves (reg : registry) (k0 k1 : Z) (n1 n2 : CellNeighbor) :
  ids_are_keys reg -> symmetric_adjacency reg ->
  is_Some (reg !! k0) -> is_Some (reg !! k1) ->
  cell_id n1 = k0 -> neighbor_id n1 = k1 -> mirrors n1 n2 ->
  synthesized reg n1 -> synthesized reg n2 ->
  ids_are_keys (with_pair reg k0 k1 n1 n2) /\
  symmetric_adjacency (with_pair reg k0 k1 n1 n2).
Proof.
  intros Hids Hsym [c0 Hk0] [c1 Hk1] Hc1 Hn1 Hmir Hs1 Hs2.
  assert (Hmir' := mirrors_sym _ _ Hmir).
  assert (Hmir0 := Hmir).
  destruct Hmir as (Hn2 & Hc2 & _).
  split.
  - intros k c Hk. rewrite lookup_with_pair in Hk.
    destruct (reg !! k) as [c'|] eqn:Hk'; simpl in Hk; [|discriminate].
    injection Hk as <-. simpl. apply Hids. exact Hk'.
  - assert (Hin1 : exists cB, with_pair reg k0 k1 n1 n2 !! k0 = Some cB /\ n1 ∈ neighbors cB).
    { rewrite lookup_with_pair, Hk0. simpl. eexists. split; [reflexivity|]. simpl.
      rewrite decide_True by reflexivity. apply elem_of_app. right. left. }
    assert (Hin2 : exists cB, with_pair reg k0 k1 n1 n2 !! k1 = Some cB /\ n2 ∈ neighbors cB).
    { rewrite lookup_with_pair, Hk1. simpl. eexists. split; [reflexivity|]. simpl.
      rewrite (decide_True (P := k1 = k1)) by reflexivity.
      apply elem_of_app. right. apply elem_of_app. right. left. }
    intros a cA n Ha Hn. rewrite lookup_with_pair in Ha.
    destruct (reg !! a) as [cA0|] eqn:Ha0; simpl in Ha; [|discriminate].
    injection Ha as <-. simpl in Hn.
    apply elem_of_app in Hn as [Hn|Hn]; [|apply elem_of_app in Hn as [Hn|Hn]].
    + destruct (Hsym a cA0 n Ha0 Hn) as (Hcid & Hsyn & cB & n' & HB & Hn' & Hm).
      split; [exact Hcid|]. split; [apply synthesized_with_pair; exact Hsyn|].
      exists (mkCell (id cB) (center cB) (is_closed cB)
                (neighbors cB ++ (if decide (k0 = neighbor_id n) then [n1] else [])
                              ++ (if decide (k1 = neighbor_id n) then [n2] else []))
                (digit_width cB) (relative_width cB) (come_with cB) (predicted_number cB)), n'.
      split; [rewrite lookup_with_pair, HB; reflexivity|].
      split; [simpl; apply elem_of_app; left; exact Hn' | exact Hm].
    + destruct (decide (k0 = a)) as [<-|]; [|inversion Hn].
      apply list_elem_of_singleton in Hn. subst n.
      split; [exact Hc1|]. split; [apply synthesized_with_pair; exact Hs1|].
      destruct Hin2 as (cB & HB & Hn2').
      exists cB, n2. rewrite Hn1. split; [exact HB|]. split; [exact Hn2' | exact Hmir0].
    + destruct (decide (k1 = a)) as [<-|]; [|inversion Hn].
      apply list_elem_of_singleton in Hn. subst n.
      split; [rewrite Hc2; exact Hn1|]. split; [apply synthesized_with_pair; exact Hs2|].
      destruct Hin1 as (cB & HB & Hn1').
      exists cB, n1. rewrite Hn2, Hc1. split; [exact HB|]. split; [exact Hn1' | exact Hmir'].
Qed.

Lemma lookup_cell_Ok (reg : registry) (k : Z) (c : Cell) :
  lookup_cell reg k = Ok c -> reg !! k = Some c.
Proof. unfold lookup_cell. destruct (reg !! k); [intros [= <-]; reflexivity | discriminate]. Qed.

Lemma process_ridge_preserves (verts : list Dot) (reg reg' : registry)
    (item : (Z * Z) * (Z * Z)) :
  ids_are_keys reg -> symmetric_adjacency reg ->
  process_ridge verts reg item = Ok reg' ->
  ids_are_keys reg' /\ symmetric_adjacency reg'.
Proof.
  intros Hids Hsym. destruct item as [[k0 k1] [d0 d1]]. unfold process_ridge.
  intros Hstep.
  apply bind_Ok in Hstep as (cell_1 & H1 & Hstep). apply lookup_cell_Ok in H1.
  apply bind_Ok in Hstep as (cell_2 & H2 & Hstep). apply lookup_cell_Ok in H2.
  rewrite (Hids _ _ H1), (Hids _ _ H2) in Hstep.
  assert (Hcenter : forall n k c, alter (append_neighbor n) k0 reg !! k = Some c ->
            exists c', reg !! k = Some c' /\ center c = center c').
  { intros n k c. rewrite lookup_alter. destruct (decide (k0 = k)) as [<-|].
    - rewrite H1. simpl. intros [= <-]. eauto.
    - intros Hk. eauto. }
  destruct ((d0 =? -1)%Z || (d1 =? -1)%Z).
  - apply bind_Ok in Hstep as (v & _ & Hstep).
    apply bind_Ok in Hstep as (n1 & Hn1 & Hstep).
    apply bind_Ok in Hstep as (n2 & Hn2 & Hstep).
    injection Hstep as <-.
    unfold CellNeighbor_init in Hn1, Hn2.
    apply bind_Ok in Hn1 as (a0 & Ha0 & Hn1). apply lookup_cell_Ok in Ha0.
    apply bind_Ok in Hn1 as (a1 & Ha1 & Hn1). apply lookup_cell_Ok in Ha1.
    apply bind_Ok in Hn1 as (e1 & He1 & Hn1). injection Hn1 as <-.
    apply bind_Ok in Hn2 as (b1 & Hb1 & Hn2). apply lookup_cell_Ok in Hb1.
    apply bind_Ok in Hn2 as (b0 & Hb0 & Hn2). apply lookup_cell_Ok in Hb0.
    apply bind_Ok in Hn2 as (e2 & He2 & Hn2). injection Hn2 as <-.
    apply Hcenter in Hb1 as (b1' & Hb1' & Hcb1). apply Hcenter in Hb0 as (b0' & Hb0' & Hcb0).
    rewrite Hcb1, Hcb0 in He2.
    apply synthesize_dot_end_Ok in He1 as (m1 & c1 & Hfit1 & ->).
    apply synthesize_dot_end_Ok in He2 as (m2 & c2 & Hfit2 & ->).
    apply with_pair_preserves; eauto.
    + unfold mirrors. simpl. repeat split; try reflexivity; discriminate.
    + intros _. simpl. exists a0, a1, m1, c1. auto.
    + intros _. simpl. exists b1', b0', m2, c2. auto.
  - apply bind_Ok in Hstep as (v0 & _ & Hstep).
    apply bind_Ok in Hstep as (v1 & _ & Hstep).
    simpl in Hstep. injection Hstep as <-.
    apply with_pair_preserves; eauto; try (intros Hf; discriminate Hf).
    unfold mirrors. simpl. repeat split; reflexivity.
Qed.

Lemma process_ridges_preserves (verts : list Dot) (items : list ((Z * Z) * (Z * Z)))
    (reg reg' : registry) :
  ids_are_keys reg -> symmetric_adjacency reg ->
  process_ridges verts reg items = Ok reg' ->
  ids_are_keys reg' /\ symmetric_adjacency reg'.
Proof.
  revert reg. induction items as [|item items IH]; intros reg Hids Hsym Hrun; simpl in Hrun.
  - injection Hrun as <-. auto.
  - apply bind_Ok in Hrun as (reg1 & Hstep & Hrun).
    destruct (process_ridge_preserves _ _ _ _ Hids Hsym Hstep) as (Hids1 & Hsym1).
    eapply IH; eassumption.
Qed.

Lemma create_cells_fresh (dots : list Dot) (reg : registry) (i : Z) :
  ids_are_keys reg -> symmetric_adjacency reg ->
  ids_are_keys (create_cells reg i dots) /\ symmetric_adjacency (create_cells reg i dots).
Proof.
  revert reg i. induction dots as [|d dots IH]; intros reg i Hids Hsym; simpl; [auto|].
  apply IH; unfold Cell_init; destruct (reg !! i) as [c|] eqn:Hi; try assumption.
  - intros k c Hk. destruct (decide (i = k)) as [<-|Hne].
    + rewrite lookup_insert_eq in Hk. injection Hk as <-. reflexivity.
    + rewrite lookup_insert_ne in Hk by exact Hne. apply Hids. exact Hk.
  - assert (Hkeep : forall k c, reg !! k = Some c -> <[i := mkCell i d false [] None None None None]> reg !! k = Some c).
    { intros k c Hk. destruct (decide (i = k)) as [<-|Hne]; [congruence|].
      rewrite lookup_insert_ne by exact Hne. exact Hk. }
    intros a cA n Ha Hn. destruct (decide (i = a)) as [<-|Hne].
    + rewrite lookup_insert_eq in Ha. injection Ha as <-. inversion Hn.
    + rewrite lookup_insert_ne in Ha by exact Hne.
      destruct (Hsym a cA n Ha Hn) as (Hcid & Hsyn & cB & n' & HB & Hn' & Hm).
      split; [exact Hcid|]. split.
      * intros Hf. destruct (Hsyn Hf) as (c0 & c1 & m & c & Hc0 & Hc1 & Hfit & He).
        exists c0, c1, m, c. auto.
      * exists cB, n'. split; [apply Hkeep; exact HB | split; assumption].
Qed.

(** C5, amended.  After [process] has returned, adjacency is symmetric:
    a cell [A] holds a neighbour entry that refers to [B] exactly when
    [B] holds one that refers to [A], and every entry of [A] that
    refers to [B] has a mirror among the entries of [B] with the same
    start dot and the same [is_finite].  For a bounded ridge the two
    have the same end dot.  For an unbounded ridge each end dot is
    synthesized from the slope of a call of [lstsq] of its own, made
    with the two centers in the order owner, neighbour; the two end
    dots are equal whenever the two calls return the same non-zero
    slope. *)
Theorem adjacency_symmetric `{Scipy} (dots : list Dot) (reg : registry)
    (a b : Z) (cA cB : Cell) :
  process dots = Ok reg ->
  reg !! a = Some cA -> reg !! b = Some cB ->
  ((exists n, n ∈ neighbors cA /\ neighbor_id n = id cB) <->
   (exists n', n' ∈ neighbors cB /\ neighbor_id n' = id cA)) /\
  (forall n, n ∈ neighbors cA -> neighbor_id n = id cB ->
     exists n', n' ∈ neighbors cB /\ neighbor_id n' = id cA /\
       dot_eq (dot_start n') (dot_start n) /\
       is_finite n' = is_finite n /\
       (is_finite n = true -> end_eq (dot_end n') (dot_end n)) /\
       (is_finite n = false ->
        exists m c m' c',
          lstsq (center cA) (center cB) = Ok (m, c) /\
          lstsq (center cB) (center cA) = Ok (m', c') /\
          dot_end n = from_slope m (center cA).1 (center cB).1 (dot_start n) /\
          dot_end n' = from_slope m' (center cB).1 (center cA).1 (dot_start n') /\
          (m == m' -> ~ m == 0 -> end_eq (dot_end n') (dot_end n)))).
Proof.
  intros Hproc Ha Hb. unfold process in Hproc.
  apply bind_Ok in Hproc as (vr & _ & Hrun).
  apply process_ridges_preserves in Hrun as (Hids & Hsym).
  2, 3: apply create_cells_fresh; [intros k c Hk | intros k c n Hk];
        rewrite lookup_empty in Hk; discriminate.
  assert (Hmirror : forall x y cX cY n, reg !! x = Some cX -> reg !! y = Some cY ->
            n ∈ neighbors cX -> neighbor_id n = id cY ->
            exists n', n' ∈ neighbors cY /\ neighbor_id n' = id cX /\
              dot_eq (dot_start n') (dot_start n) /\
              is_finite n' = is_finite n /\
              (is_finite n = true -> end_eq (dot_end n') (dot_end n)) /\
              (is_finite n = false ->
               exists m c m' c',
                 lstsq (center cX) (center cY) = Ok (m, c) /\
                 lstsq (center cY) (center cX) = Ok (m', c') /\
                 dot_end n = from_slope m (center cX).1 (center cY).1 (dot_start n) /\
                 dot_end n' = from_slope m' (center cY).1 (center cX).1 (dot_start n') /\
                 (m == m' -> ~ m == 0 -> end_eq (dot_end n') (dot_end n)))).
  { intros x y cX cY n Hx Hy Hn Hnid.
    destruct (Hsym x cX n Hx Hn) as (Hcid & Hsyn & cB' & n' & HB' & Hn' & Hm).
    assert (Hy' : reg !! neighbor_id n = Some cY) by (rewrite Hnid, (Hids _ _ Hy); exact Hy).
    rewrite Hy' in HB'. injection HB' as <-.
    destruct (Hsym _ cY n' Hy' Hn') as (Hcid' & Hsyn' & _).
    destruct Hm as (Hm1 & Hm2 & Hm3 & Hm4 & Hm5).
    exists n'. split; [exact Hn'|]. split; [rewrite (Hids _ _ Hx), Hm1; exact Hcid|].
    split; [rewrite Hm3; apply dot_eq_refl|]. split; [exact Hm4|]. split; [exact Hm5|].
    intros Hf.
    destruct (Hsyn Hf) as (c0 & c1 & m & c & Hc0 & Hc1 & Hfit & He).
    rewrite Hcid, Hx in Hc0. injection Hc0 as <-.
    rewrite Hy' in Hc1. injection Hc1 as <-.
    assert (Hf' : is_finite n' = false) by congruence.
    destruct (Hsyn' Hf') as (c0' & c1' & m' & c' & Hc0' & Hc1' & Hfit' & He').
    rewrite Hm2, Hy' in Hc0'. injection Hc0' as <-.
    rewrite Hm1, Hcid, Hx in Hc1'. injection Hc1' as <-.
    exists m, c, m', c'. do 4 (split; [assumption|]).
    intros Heq Hne. rewrite He, He', Hm3.
    apply end_eq_sym, from_slope_swap; assumption. }
  split; [split|].
  - intros (n & Hn & Hnid). destruct (Hmirror a b cA cB n Ha Hb Hn Hnid) as (n' & ? & ? & _).
    eauto.
  - intros (n & Hn & Hnid). destruct (Hmirror b a cB cA n Hb Ha Hn Hnid) as (n' & ? & ? & _).
    eauto.
  - intros n Hn Hnid. exact (Hmirror a b cA cB n Ha Hb Hn Hnid).
Qed.

End Adjacency.

(** Symmetry on the four generators of [kite_dots], the fit of two
    centers being the same for their two orders: the generators 0 and 1
    share an unbounded ridge, and both entries end at (4, -3). *)
Lemma adjacency_symmetric_witness :
  let S := Examples.example_scipy in
  let N := Examples.example_numpy in
  Voronoi.process Examples.kite_dots = Ok Examples.kite_registry /\
  exists cA cB n n',
    Examples.kite_registry !! 0%Z = Some cA /\
    Examples.kite_registry !! 1%Z = Some cB /\
    n ∈ Voronoi.neighbors cA /\ Voronoi.neighbor_id n = 1%Z /\
    Voronoi.is_finite n = false /\ end_eq (Voronoi.dot_end n) (4, Number (-(3))) /\
    n' ∈ Voronoi.neighbors cB /\ Voronoi.neighbor_id n' = 0%Z /\
    end_eq (Voronoi.dot_end n') (Voronoi.dot_end n).
Proof.
  intros S N.
  assert (Hproc : Voronoi.process Examples.kite_dots = Ok Examples.kite_registry)
    by (vm_compute; reflexivity).
  split; [exact Hproc|].
  destruct (Examples.kite_registry !! 0%Z) as [cA|] eqn:HA; [|discriminate HA].
  destruct (Examples.kite_registry !! 1%Z) as [cB|] eqn:HB; [|discriminate HB].
  assert (Hn : exists n, n ∈ Voronoi.neighbors cA /\ Voronoi.neighbor_id n = Voronoi.id cB /\
                 Voronoi.is_finite n = false /\
                 end_eq (Voronoi.dot_end n) (4, Number (-(3))) /\
                 Voronoi.id cA = 0%Z /\ Voronoi.id cB = 1%Z /\
                 Voronoi.center cA = (0, 0) /\ Voronoi.center cB = (4, 2)).
  { vm_compute in HA. injection HA as <-. vm_compute in HB. injection HB as <-.
    eexists. split; [left|]. do 2 (split; [reflexivity|]).
    split; [split; vm_compute; reflexivity|]. repeat split; reflexivity. }
  destruct Hn as (n & Hin & Hid & Hfin & Hend & HidA & HidB & HcA & HcB).
  destruct (adjacency_symmetric Examples.kite_dots Examples.kite_registry 0 1 cA cB
              Hproc HA HB) as (_ & Hmir).
  destruct (Hmir n Hin Hid) as (n' & Hin' & Hid' & _ & _ & _ & Hsyn).
  destruct (Hsyn Hfin) as (m & c & m' & c' & Hfit & Hfit' & _ & _ & Heq).
  rewrite HcA, HcB in Hfit, Hfit'.
  vm_compute in Hfit. injection Hfit as <- <-.
  vm_compute in Hfit'. injection Hfit' as <- <-.
  rewrite HidB in Hid. rewrite HidA in Hid'.
  exists cA, cB, n, n'. do 2 (split; [reflexivity|]).
  repeat (split; [assumption|]).
  apply Heq; [reflexivity | intros H0; vm_compute in H0; discriminate H0].
Defined.

(** C5 as stated fails on [kite_dots] as soon as the slopes that
    [lstsq] returns for the two orders of two centers differ, as they do
    in the last digits for (2, 4) and (6, 6).  The ridge between the
    generators 2 and 3 is unbounded, with known vertex (13/3, 13/3); the
    entry of cell 2 ends at (6, 1 + 11/2^52) and its mirror in cell 3 at
    (6, 1 + 10/2^52). *)
Lemma mirrored_with_same_ends_counterexample :
  let S := Examples.example_scipy in
  let N := Examples.rounding_numpy in
  Voronoi.process Examples.kite_dots = Ok Examples.kite_registry_rounded /\
  (exists c2 c3 n n',
     Examples.kite_registry_rounded !! 2%Z = Some c2 /\
     Examples.kite_registry_rounded !! 3%Z = Some c3 /\
     n ∈ Voronoi.neighbors c2 /\ Voronoi.neighbor_id n = 3%Z /\
     n' ∈ Voronoi.neighbors c3 /\ Voronoi.neighbor_id n' = 2%Z /\
     end_eq (Voronoi.dot_end n) (6, Number (1 + (11 # 4503599627370496))) /\
     end_eq (Voronoi.dot_end n') (6, Number (1 + (10 # 4503599627370496)))) /\
  ~ mirrored_with_same_ends Examples.kite_registry_rounded.
Proof.
  intros S N.
  split; [vm_compute; reflexivity|].
  destruct (Examples.kite_registry_rounded !! 2%Z) as [c2|] eqn:H2; [|discriminate H2].
  destruct (Examples.kite_registry_rounded !! 3%Z) as [c3|] eqn:H3; [|discriminate H3].
  pose proof H2 as H2'. pose proof H3 as H3'.
  vm_compute in H2'. injection H2' as E2. vm_compute in H3'. injection H3' as E3.
  split.
  - exists c2, c3. rewrite <- E2, <- E3. eexists _, _.
    do 2 (split; [reflexivity|]).
    split; [do 2 right; left|]. split; [reflexivity|].
    split; [right; left|]. split; [reflexivity|].
    split; split; vm_compute; reflexivity.
  - intros Hclaim.
    assert (Hn : exists n, n ∈ Voronoi.neighbors c2 /\ Voronoi.neighbor_id n = Voronoi.id c3 /\
                   forall n', n' ∈ Voronoi.neighbors c3 ->
                     Voronoi.neighbor_id n' = Voronoi.id c2 ->
                     ~ end_eq (Voronoi.dot_end n') (Voronoi.dot_end n)).
    { rewrite <- E2, <- E3. eexists. split; [do 2 right; left|]. split; [reflexivity|].
      intros n' Hn' Hid. cbn [Voronoi.neighbors] in Hn'.
      apply elem_of_cons in Hn' as [->|Hn'].
      - vm_compute in Hid. discriminate Hid.
      - apply list_elem_of_singleton in Hn'. subst n'.
        intros [_ Hy]. vm_compute in Hy. discriminate Hy. }
    destruct Hn as (n & Hin & Hid & Hno).
    destruct (Hclaim 2%Z 3%Z c2 c3 n H2 H3 Hin Hid) as (n' & Hin' & Hid' & _ & Hend).
    exact (Hno n' Hin' Hid' Hend).
Qed.

(** C4 fails on the unit square.  The four cells are created; every
    ridge of the square is unbounded and joins two generators on a
    common vertical or horizontal line.  For the generators (1, 1) and
    (1, 0) the system of the fit has rank one, the fitted line has
    slope 1/4, and the replacement end point is (1, -3/2): on the line
    x = 1 through the two centers, below the square, and not to the
    right of it on the bisector y = 1/2. *)
Theorem unit_square_endpoints :
  let S := Examples.example_scipy in
  let N := Examples.example_numpy in
  let reg := Voronoi.create_cells ∅ 0 Examples.square_dots in
  let vertex : Dot := (1 # 2, 1 # 2) in
  size reg = 4%nat /\
  Voronoi.Voronoi Examples.square_dots = Ok Examples.square_voronoi /\
  (exists n, Voronoi.CellNeighbor_init reg 2 3 vertex None = Ok n /\
             Voronoi.is_finite n = false /\
             end_eq (Voronoi.dot_end n) (1, Number (-(3 # 2)))) /\
  (exists n, Voronoi.CellNeighbor_init reg 3 2 vertex None = Ok n /\
             Voronoi.is_finite n = false /\
             end_eq (Voronoi.dot_end n) (1, Number (-(3 # 2)))).
Proof.
  intros S N reg vertex.
  split; [vm_compute; reflexivity|].
  split; [vm_compute; reflexivity|].
  split; eexists; (split; [vm_compute; reflexivity|]); split; vm_compute; auto.
Qed.

Section Chain.
Context `{Lib}.

Lemma chained_snoc (vl : list Vector) (w v : Vector) :
  chained vl -> last vl = Some w -> v_end w = v_begin v -> chained (vl ++ [v]).
Proof.
  intros Hc Hlast Hwv i a b Ha Hb. rewrite last_lookup in Hlast.
  destruct (decide (S i < length vl)%nat) as [Hlt|Hge].
  - rewrite lookup_app_l in Ha by lia. rewrite lookup_app_l in Hb by lia. eapply Hc; eassumption.
  - assert (Hlen : S i = length vl).
    { apply lookup_lt_Some in Hb. rewrite length_app in Hb. simpl in Hb. lia. }
    rewrite lookup_app_l in Ha by lia. rewrite lookup_app_r in Hb by lia.
    replace (S i - length vl)%nat with 0%nat in Hb by lia. simpl in Hb. injection Hb as <-.
    rewrite <- Hlen in Hlast. simpl in Hlast. congruence.
Qed.

Lemma chained_contiguous (vl : list Vector) : chained vl -> contiguous vl.
Proof.
  induction vl as [|v [|w vl] IH]; intros Hc; simpl; auto.
  split.
  - rewrite (Hc 0%nat v w eq_refl eq_refl). split; reflexivity.
  - apply IH. intros i a b Ha Hb. apply (Hc (S i) a b); assumption.
Qed.

Lemma _update_top_vectors (r r' : MatrixRow) (d : Dot) :
  _update_top r d = Ok r' -> vectors_list r' = vectors_list r.
Proof.
  unfold _update_top. destruct (vectors_list r) eqn:Hvl.
  - intros [= <-]. exact Hvl.
  - intros Hu. apply bind_Ok in Hu as (fv & _ & Hu). apply bind_Ok in Hu as (x & _ & Hu).
    destruct (Qlt_bool (top r) x).
    + injection Hu as <-. exact Hvl.
    + apply bind_Ok in Hu as (y & _ & Hu). injection Hu as <-. exact Hvl.
Qed.

Lemma _update_bottom_vectors (r r' : MatrixRow) (d : Dot) :
  _update_bottom r d = Ok r' -> vectors_list r' = vectors_list r.
Proof.
  unfold _update_bottom. destruct (vectors_list r) eqn:Hvl.
  - intros [= <-]. exact Hvl.
  - intros Hu. apply bind_Ok in Hu as (fv & _ & Hu). apply bind_Ok in Hu as (x & _ & Hu).
    destruct (Qlt_bool (bottom r) x).
    + injection Hu as <-. exact Hvl.
    + apply bind_Ok in Hu as (y & _ & Hu). injection Hu as <-. exact Hvl.
Qed.

Lemma update_top_bottom_vectors (r r' : MatrixRow) (t b : Dot) :
  update_top_bottom t b r = Ok r' -> vectors_list r' = vectors_list r.
Proof.
  unfold update_top_bottom. intros Hu. apply bind_Ok in Hu as (r1 & H1 & H2).
  apply _update_top_vectors in H1. apply _update_bottom_vectors in H2. congruence.
Qed.

Lemma add_hatch_vectors (r r' : MatrixRow) (v : Vector) (t b : Dot) :
  add_hatch r v t b = Ok r' -> vectors_list r' = vectors_list (extend_or_append r v).
Proof.
  unfold add_hatch. intros Hu. apply bind_Ok in Hu as (r1 & H1 & H2).
  apply _update_top_vectors in H1. apply _update_bottom_vectors in H2. congruence.
Qed.

Lemma on_last_row_Ok (f : MatrixRow -> result MatrixRow) (rows rows' : list MatrixRow) :
  on_last_row f rows = Ok rows' ->
  exists init r r', rows = init ++ [r] /\ rows' = init ++ [r'] /\ f r = Ok r'.
Proof.
  revert rows'. induction rows as [|r rows IH]; intros rows' Hu; [discriminate|].
  destruct rows as [|r2 rows].
  - simpl in Hu. apply bind_Ok in Hu as (r' & Hf & Hu). injection Hu as <-.
    exists [], r, r'. auto.
  - change (on_last_row f (r :: r2 :: rows))
      with (let* rs' := on_last_row f (r2 :: rows) in Ok (r :: rs')) in Hu.
    apply bind_Ok in Hu as (rs' & Hrs & Hu). injection Hu as <-.
    destruct (IH _ Hrs) as (init & x & x' & -> & -> & Hf).
    exists (r :: init), x, x'. auto.
Qed.

(** The end of the last vector of the last row. *)
Lemma final_vector_end (r : MatrixRow) (fv : Vector) :
  final_vector r = Ok fv -> exists w, last (vectors_list r) = Some w /\ v_end fv = v_end w.
Proof.
  unfold final_vector, subscript_last. intros Hf.
  apply bind_Ok in Hf as (first & _ & Hf).
  destruct (last (vectors_list r)) as [w|]; simpl in Hf; [|discriminate].
  injection Hf as <-. eauto.
Qed.

Lemma extend_or_append_chained (r : MatrixRow) (v w : Vector) :
  chained (vectors_list r) -> last (vectors_list r) = Some w -> v_end w = v_begin v ->
  chained (vectors_list (extend_or_append r v)) /\
  exists w', last (vectors_list (extend_or_append r v)) = Some w' /\ v_end w' = v_end v.
Proof.
  intros Hc Hlast Hwv.
  assert (Happ : chained (vectors_list r ++ [v]) /\
                 exists w', last (vectors_list r ++ [v]) = Some w' /\ v_end w' = v_end v).
  { split; [eapply chained_snoc; eassumption|]. exists v. rewrite last_snoc. auto. }
  unfold extend_or_append.
  destruct (vectors_list r) as [|v0 [|v1 vl]] eqn:Hvl; simpl; try exact Happ.
  destruct (_is_vector_extended r); simpl; [exact Happ|].
  split.
  - intros [|[|i]] a b Ha Hb; simpl in *; discriminate.
  - eexists. split; reflexivity.
Qed.

Lemma process_step_chain (self : RowsManager) (st st' : loop_state) (j : nat)
    (cos : Q) (vector : Vector) (t b : Dot) :
  linked_vectors (vectors self) ->
  vectors self !! S j = Some vector ->
  chain_invariant self j st ->
  process_step self st (j, (cos, (vector, (t, b)))) = Ok st' ->
  (forall idx, last (trace st') <> Some (AddedToRow idx)) ->
  chain_invariant self (S j) st'.
Proof.
  intros Hlinked Hvec (Hrows & init & r & w & Hst & Hlast & Hpend) Hstep Hno.
  unfold process_step in Hstep.
  apply bind_Ok in Hstep as (skip & _ & Hstep). destruct skip.
  { injection Hstep as <-. split; [exact Hrows|]. exists init, r, w. simpl. auto. }
  destruct (Qle_bool cos NEW_ROW_ANGLE).
  - apply bind_Ok in Hstep as (v' & Hv' & Hstep).
    apply bind_Ok in Hstep as (rows' & Hrows' & Hstep). injection Hstep as <-. simpl.
    unfold _add_hatch_to_current_row in Hrows'.
    apply on_last_row_Ok in Hrows' as (init' & r0 & r' & Heq & -> & Hadd).
    rewrite Hst in Heq. apply app_inj_tail in Heq as (<- & <-).
    apply add_hatch_vectors in Hadd.
    assert (Hv'end : v_end v' = v_end vector /\ v_end w = v_begin v').
    { destruct (is_prev_horizontal st) eqn:Hflag.
      - apply bind_Ok in Hv' as (l & Hl & Hv'). apply bind_Ok in Hv' as (fv & Hfv & Hv').
        injection Hv' as <-. simpl. split; [reflexivity|].
        unfold subscript_last in Hl. rewrite Hst, last_snoc in Hl. injection Hl as <-.
        apply final_vector_end in Hfv as (w' & Hw' & ->). congruence.
      - injection Hv' as <-. split; [reflexivity|].
        destruct Hpend as [|(p & Hp & Hwp)]; [discriminate|].
        destruct (Hlinked j vector Hvec) as (p' & Hp' & Hbegin). congruence. }
    destruct Hv'end as (Hend & Hbegin).
    destruct (extend_or_append_chained r v' w) as (Hc & w' & Hw' & Hw'end);
      [apply Hrows; rewrite Hst; apply elem_of_app; right; left | exact Hlast | exact Hbegin |].
    split.
    + intros x Hx. apply elem_of_app in Hx as [Hx|Hx].
      * apply Hrows. rewrite Hst. apply elem_of_app. left. exact Hx.
      * apply list_elem_of_singleton in Hx. subst x. rewrite Hadd. exact Hc.
    + exists init, r', w'. rewrite Hadd. repeat split; [exact Hw'|].
      right. exists vector. split; [exact Hvec | congruence].
  - apply bind_Ok in Hstep as ([[[rows' added] rid] ev] & Hp & Hstep).
    injection Hstep as <-. simpl in *. unfold _process_hatch_not_current_row in Hp.
    apply bind_Ok in Hp as (found & _ & Hp). destruct found as [row|].
    + injection Hp as <- <- <- <-. exfalso. apply (Hno (index row)).
      rewrite last_snoc. reflexivity.
    + apply bind_Ok in Hp as (rows2 & Hrows2 & Hp). injection Hp as <- <- <- <-.
      apply on_last_row_Ok in Hrows2 as (init' & r0 & r' & Heq & -> & Hupd).
      rewrite Hst in Heq. apply app_inj_tail in Heq as (<- & <-).
      apply update_top_bottom_vectors in Hupd.
      split.
      * intros x Hx. apply elem_of_app in Hx as [Hx|Hx];
          [apply elem_of_app in Hx as [Hx|Hx]|].
        -- apply Hrows. rewrite Hst. apply elem_of_app. left. exact Hx.
        -- apply list_elem_of_singleton in Hx. subst x. rewrite Hupd.
           apply Hrows. rewrite Hst. apply elem_of_app. right. left.
        -- apply list_elem_of_singleton in Hx. subst x. simpl.
           intros [|[|i]] a c Ha Hc; simpl in *; discriminate.
      * exists (init ++ [r']). eexists. eexists. split; [reflexivity|].
        simpl. split; [reflexivity|]. right. exists vector. auto.
Qed.

Lemma loop_chain (self : RowsManager) (items : list (nat * (Q * (Vector * (Dot * Dot)))))
    (j : nat) (st st' : loop_state) :
  linked_vectors (vectors self) ->
  (forall k i c vec t b, items !! k = Some (i, (c, (vec, (t, b)))) ->
     i = (j + k)%nat /\ vectors self !! S (j + k) = Some vec) ->
  chain_invariant self j st ->
  for_each (process_step self) st items = Ok st' ->
  (forall k idx, (length (trace st) <= k)%nat -> trace st' !! k <> Some (AddedToRow idx)) ->
  chain_invariant self (j + length items) st'.
Proof.
  intros Hlinked. revert j st.
  induction items as [|[i [c [vec [t b]]]] items IH]; intros j st Hitems Hinv Hrun Hno;
    simpl in Hrun.
  - injection Hrun as <-. simpl. rewrite Nat.add_0_r. exact Hinv.
  - apply bind_Ok in Hrun as (st1 & Hstep & Hrun).
    destruct (Hitems 0%nat i c vec t b eq_refl) as (-> & Hvec). rewrite Nat.add_0_r in *.
    destruct (process_step_event _ _ _ _ _ _ _ _ Hstep) as (ev & Htr & _).
    destruct (loop_trace _ _ _ _ Hrun) as (evs & Htr' & _ & _).
    assert (Hinv1 : chain_invariant self (S j) st1).
    { eapply process_step_chain; try eassumption.
      intros idx Hlast. rewrite Htr, last_snoc in Hlast. injection Hlast as ->.
      apply (Hno (length (trace st)) idx); [lia|].
      rewrite Htr', Htr, <- app_assoc. rewrite lookup_app_r by lia.
      rewrite Nat.sub_diag. reflexivity. }
    simpl. replace (j + S (length items))%nat with (S j + length items)%nat by lia.
    apply IH with (st := st1); try assumption.
    + intros k i' c' vec' t' b' Hk. destruct (Hitems (S k) i' c' vec' t' b' Hk) as (-> & Hv).
      replace (S j + k)%nat with (j + S k)%nat by lia. auto.
    + intros k idx Hk. apply Hno. rewrite Htr, length_app in Hk. simpl in Hk. lia.
Qed.

(** X1.  Without an absorbed stroke the rows are chains: if no
    iteration of the pass logs that a hatch was added to an existing
    row, every row that [process] returns is contiguous.  The
    iterations skipped by the lookahead keep the chain, because the
    next vector is stitched to the end of the row. *)
Lemma contiguous_without_absorption (hs : list Hatch) (self m m' : RowsManager)
    (tr : list event) :
  add_hatches (clear self) hs = (m, Ok tt) ->
  process m = Ok (m', tr) ->
  (forall k idx, tr !! k <> Some (AddedToRow idx)) ->
  forall r, r ∈ rows m' -> contiguous (vectors_list r).
Proof.
  intros Hfeed Hproc Hno.
  assert (Hlinked : linked_vectors (vectors m)).
  { eapply add_hatches_linked; [|exact Hfeed]. intros j w Hj. simpl in Hj.
    discriminate. }
  unfold process in Hproc.
  apply bind_Ok in Hproc as (v0 & Hv0 & Hproc).
  apply bind_Ok in Hproc as (st & Hloop & Hproc).
  apply bind_Ok in Hproc as (rows' & Hpost & Hproc). injection Hproc as <- <-. simpl.
  assert (Hinv : chain_invariant m (0 + length (loop_items m)) st).
  { eapply loop_chain; try eassumption.
    - intros k i c vec t b Hk. apply loop_items_lookup in Hk as (-> & _ & Hvec & _).
      simpl. auto.
    - split.
      + intros r Hr. apply list_elem_of_singleton in Hr. subst r. simpl.
        intros [|[|i]] a c Ha Hc; simpl in *; discriminate.
      + exists [], (set_vectors_list (MatrixRow_init 0) [v0] false), v0. simpl.
        repeat split. right. exists v0. split; [|reflexivity].
        unfold subscript in Hv0. destruct (vectors m !! 0%nat); [|discriminate].
        injection Hv0 as <-. reflexivity.
    - intros k idx _. apply Hno. }
  destruct Hinv as (Hrows & _).
  intros r Hr. apply chained_contiguous.
  destruct (is_added_to_existing_row st); simpl in Hpost.
  - injection Hpost as <-. apply Hrows. exact Hr.
  - apply bind_Ok in Hpost as (t & _ & Hpost).
    apply bind_Ok in Hpost as (rows1 & H1 & Hpost).
    apply bind_Ok in Hpost as (b & _ & H2).
    apply on_last_row_Ok in H1 as (init & r0 & r1 & Hst & -> & Hu1).
    apply on_last_row_Ok in H2 as (init' & r1' & r2 & Heq & -> & Hu2).
    apply app_inj_tail in Heq as (<- & <-).
    apply _update_top_vectors in Hu1. apply _update_bottom_vectors in Hu2.
    apply elem_of_app in Hr as [Hr|Hr].
    + apply Hrows. rewrite Hst. apply elem_of_app. left. exact Hr.
    + apply list_elem_of_singleton in Hr. subst r. rewrite Hu2, Hu1.
      apply Hrows. rewrite Hst. apply elem_of_app. right. left.
Qed.

End Chain.

(** The chain on [seven_strokes]: the pass opens three rows and
    absorbs nothing; its first row holds the two vectors from (100, 0)
    over (90, 0) to (80, 15), and every row is contiguous. *)
Lemma contiguous_without_absorption_witness :
  let L := SpecLib.spec_lib 0 in
  exists m' tr r0 r1 r2 v w,
    process Examples.seven_manager = Ok (m', tr) /\
    rows m' = [r0; r1; r2] /\ vectors_list r0 = [v; w] /\
    dot_eq (v_end v) (90, 0) /\ dot_eq (v_begin w) (90, 0) /\
    forall r, r ∈ rows m' -> contiguous (vectors_list r).
Proof.
  intros L.
  assert (Hfeed : add_hatches (clear RowsManager_init) Examples.seven_strokes
                  = (Examples.seven_manager, Ok tt)) by (vm_compute; reflexivity).
  assert (Hproc : process Examples.seven_manager = Examples.seven_run)
    by (vm_compute; reflexivity).
  unfold Examples.seven_run in Hproc.
  eexists _, _, _, _, _, _, _. split; [exact Hproc|].
  do 2 (split; [reflexivity|]).
  do 2 (split; [split; vm_compute; reflexivity|]).
  apply (contiguous_without_absorption _ _ _ _ _ Hfeed Hproc).
  intros [|[|[|[|[|[|k]]]]]] idx Hk; simpl in Hk; discriminate.
Defined.

(** * Further properties of the code *)

(** ** Loops and comprehensions *)

Lemma for_each_app {S A} (body : S -> A -> result S) (l1 l2 : list A) (s s' : S) :
  for_each body s (l1 ++ l2) = Ok s' <->
  exists s1, for_each body s l1 = Ok s1 /\ for_each body s1 l2 = Ok s'.
Proof.
  revert s. induction l1 as [|a l1 IH]; intros s; simpl.
  - split; [eauto | intros (s1 & [= <-] & ?); assumption].
  - destruct (body s a) as [s0|e]; simpl.
    + apply IH.
    + split; [discriminate | intros (s1 & ? & _); discriminate].
Qed.

Lemma for_each_invariant {S A} (P : S -> Prop) (body : S -> A -> result S) (l : list A) :
  (forall s a s', P s -> body s a = Ok s' -> P s') ->
  forall s s', P s -> for_each body s l = Ok s' -> P s'.
Proof.
  intros Hstep. induction l as [|a l IH]; intros s s' Hs Hrun; simpl in Hrun.
  - injection Hrun as <-. exact Hs.
  - apply bind_Ok in Hrun as (s1 & H1 & Hrun). eauto.
Qed.

Lemma for_each_invariant_indexed {S A} (body : S -> A -> result S) (l : list A) :
  forall (Q : nat -> S -> Prop),
  (forall k a s s', l !! k = Some a -> Q k s -> body s a = Ok s' -> Q (Datatypes.S k) s') ->
  forall s s', Q 0%nat s -> for_each body s l = Ok s' -> Q (length l) s'.
Proof.
  induction l as [|a l IH]; intros Q Hstep s s' Hs Hrun; simpl in Hrun.
  - injection Hrun as <-. exact Hs.
  - apply bind_Ok in Hrun as (s1 & H1 & Hrun). simpl.
    apply (IH (fun k => Q (Datatypes.S k))) with (s := s1).
    + intros k x t t' Hk Hq Hb. apply (Hstep (Datatypes.S k) x t t'); assumption.
    + apply (Hstep 0%nat a s s1); [reflexivity | exact Hs | exact H1].
    + exact Hrun.
Qed.

Lemma map_result_map {A B} (f : A -> result B) (g : A -> B) (l : list A) :
  (forall a, a ∈ l -> f a = Ok (g a)) -> map_result f l = Ok (map g l).
Proof.
  induction l as [|a l IH]; intros Hf; simpl; [reflexivity|].
  rewrite (Hf a) by left. simpl. rewrite IH; [reflexivity|].
  intros x Hx. apply Hf. right. exact Hx.
Qed.

Lemma map_result_Ok {A B} (f : A -> result B) (l : list A) (bs : list B) :
  map_result f l = Ok bs -> Forall2 (fun a b => f a = Ok b) l bs.
Proof.
  revert bs. induction l as [|a l IH]; intros bs Hrun; simpl in Hrun.
  - injection Hrun as <-. constructor.
  - apply bind_Ok in Hrun as (b & Hb & Hrun). apply bind_Ok in Hrun as (bs' & Hbs & Hrun).
    injection Hrun as <-. constructor; [exact Hb | apply IH; exact Hbs].
Qed.

Lemma map_result_total {A B} (f : A -> result B) (l : list A) :
  (forall a, a ∈ l -> exists b, f a = Ok b) -> exists bs, map_result f l = Ok bs.
Proof.
  induction l as [|a l IH]; intros Hf; simpl; [eauto|].
  destruct (Hf a) as (b & ->); [left|]. simpl.
  destruct IH as (bs & ->); [intros x Hx; apply Hf; right; exact Hx|]. simpl. eauto.
Qed.

Lemma map_result_raises {A B} (f : A -> result B) (l : list A) (e : error) :
  (forall a, a ∈ l -> (exists b, f a = Ok b) \/ f a = Raise e) ->
  (exists a, a ∈ l /\ f a = Raise e) ->
  map_result f l = Raise e.
Proof.
  induction l as [|a l IH]; intros Hall (x & Hx & Hfx); [inversion Hx|].
  simpl. destruct (Hall a) as [(b & Hb)|Hb]; [left | | rewrite Hb; reflexivity].
  rewrite Hb. simpl. rewrite IH; [reflexivity | |].
  - intros y Hy. apply Hall. right. exact Hy.
  - apply elem_of_cons in Hx as [->|Hx]; [congruence | eauto].
Qed.

(** ** The registry of cells *)

Section Registration.
Import Voronoi.

Lemma Cell_init_lookup (reg : registry) (i k : Z) (d : Dot) :
  Cell_init reg i d !! k =
    match reg !! k with
    | Some c => Some c
    | None => if decide (k = i) then Some (fresh_cell i d) else None
    end.
Proof.
  unfold Cell_init. destruct (reg !! i) as [c0|] eqn:Hi.
  - destruct (reg !! k) as [c|] eqn:Hk; [reflexivity|].
    destruct (decide (k = i)) as [->|]; [congruence | reflexivity].
  - destruct (decide (k = i)) as [->|Hne].
    + rewrite lookup_insert_eq, Hi. reflexivity.
    + rewrite lookup_insert_ne by congruence. destruct (reg !! k); reflexivity.
Qed.

Lemma create_cells_keeps_lookup (dots : list Dot) (reg : registry) (i k : Z) (c : Cell) :
  reg !! k = Some c -> create_cells reg i dots !! k = Some c.
Proof.
  revert reg i. induction dots as [|d dots IH]; intros reg i Hk; simpl; [exact Hk|].
  apply IH. rewrite Cell_init_lookup, Hk. reflexivity.
Qed.

Lemma create_cells_lookup (dots : list Dot) (reg : registry) (i k : Z) :
  reg !! k = None ->
  create_cells reg i dots !! k =
    if decide (i <= k < i + Z.of_nat (length dots))%Z
    then fresh_cell k <$> dots !! Z.to_nat (k - i)
    else None.
Proof.
  revert reg i. induction dots as [|d dots IH]; intros reg i Hk; simpl create_cells.
  - rewrite Hk. destruct (decide _) as [Hr|]; [simpl in Hr; lia | reflexivity].
  - destruct (decide (k = i)) as [->|Hne].
    + rewrite (create_cells_keeps_lookup _ _ _ _ (fresh_cell i d)).
      2: { rewrite Cell_init_lookup, Hk. rewrite decide_True by reflexivity. reflexivity. }
      rewrite decide_True by (simpl; lia).
      rewrite Z.sub_diag. reflexivity.
    + rewrite IH by (rewrite Cell_init_lookup, Hk, decide_False by exact Hne; reflexivity).
      destruct (decide (i + 1 <= k < i + 1 + Z.of_nat (length dots))%Z) as [Hr|Hr].
      * rewrite decide_True by (simpl; lia).
        replace (Z.to_nat (k - i)) with (S (Z.to_nat (k - (i + 1)))) by lia.
        reflexivity.
      * rewrite decide_False by (simpl; lia). reflexivity.
Qed.

Lemma create_cells_size (dots : list Dot) (reg : registry) (i : Z) :
  (forall k, (i <= k)%Z -> reg !! k = None) ->
  size (create_cells reg i dots) = (size reg + length dots)%nat.
Proof.
  revert reg i. induction dots as [|d dots IH]; intros reg i Hfree; simpl; [lia|].
  rewrite (IH _ (i + 1)%Z).
  - unfold Cell_init. rewrite (Hfree i) by lia.
    rewrite map_size_insert_None by (apply Hfree; lia). lia.
  - intros k Hk. rewrite Cell_init_lookup, Hfree by lia.
    rewrite decide_False by lia. reflexivity.
Qed.

(** X2.  The loop of [VoronoiTesselation.process] that creates the
    cells, from the registry it has just emptied: it registers one cell
    per dot, the cell of the dot at position [i] under the id [i], with
    that dot as its center, no neighbours and every other field at its
    default; no other id is registered. *)
Theorem create_cells_registers (dots : list Dot) :
  let reg := create_cells ∅ 0 dots in
  size reg = length dots /\
  (forall i d, dots !! i = Some d -> reg !! Z.of_nat i = Some (fresh_cell (Z.of_nat i) d)) /\
  (forall k, (k < 0 \/ Z.of_nat (length dots) <= k)%Z -> reg !! k = None).
Proof.
  intros reg. split; [|split].
  - unfold reg. rewrite create_cells_size; [rewrite map_size_empty; lia|].
    intros k _. apply lookup_empty.
  - intros i d Hi. unfold reg. rewrite create_cells_lookup by apply lookup_empty.
    apply lookup_lt_Some in Hi as Hlt.
    rewrite decide_True by lia.
    replace (Z.to_nat (Z.of_nat i - 0)) with i by lia. rewrite Hi. reflexivity.
  - intros k Hk. unfold reg. rewrite create_cells_lookup by apply lookup_empty.
    rewrite decide_False by lia. reflexivity.
Qed.

(** X3.  [Cell.__post_init__] registers a cell only if its id is free:
    a cell that is registered is never replaced, neither by a [Cell]
    constructed with its id, whatever the center, nor by the cells that
    the creation loop constructs afterwards. *)
Theorem create_cells_keeps_registered (dots : list Dot) (reg : registry) (i k : Z) (c : Cell) :
  reg !! k = Some c ->
  (forall d, Cell_init reg k d = reg) /\
  create_cells reg i dots !! k = Some c.
Proof.
  intros Hk. split; [|apply create_cells_keeps_lookup; exact Hk].
  intros d. unfold Cell_init. rewrite Hk. reflexivity.
Qed.

End Registration.

(** The cell of the stroke at (100, 0) survives a second creation loop
    that would reuse its id. *)
Lemma create_cells_keeps_registered_witness :
  (forall d, Voronoi.Cell_init Examples.bare_registry 0 d = Examples.bare_registry) /\
  Voronoi.create_cells Examples.bare_registry 0 [(5, 5)] !! 0%Z
    = Some (fresh_cell 0 (100, 0)).
Proof.
  apply (create_cells_keeps_registered [(5, 5)] Examples.bare_registry 0 0
           (fresh_cell 0 (100, 0))).
  vm_compute. reflexivity.
Defined.

(** ** The ridges *)

Section Ridges.
Import Voronoi.
Context `{Numpy}.

Lemma process_ridge_with_pair (verts : list Dot) (reg reg' : registry)
    (k0 k1 d0 d1 : Z) :
  ids_are_keys reg ->
  process_ridge verts reg ((k0, k1), (d0, d1)) = Ok reg' ->
  exists n1 n2, reg' = with_pair reg k0 k1 n1 n2 /\
    cell_id n1 = k0 /\ neighbor_id n1 = k1 /\ cell_id n2 = k1 /\ neighbor_id n2 = k0 /\
    is_finite n1 = bounded ((k0, k1), (d0, d1)) /\
    is_finite n2 = bounded ((k0, k1), (d0, d1)).
Proof.
  intros Hids. unfold process_ridge, bounded. cbn [fst snd]. intros Hstep.
  apply bind_Ok in Hstep as (cell_1 & H1 & Hstep). apply lookup_cell_Ok in H1.
  apply bind_Ok in Hstep as (cell_2 & H2 & Hstep). apply lookup_cell_Ok in H2.
  rewrite (Hids _ _ H1), (Hids _ _ H2) in Hstep.
  destruct ((d0 =? -1)%Z || (d1 =? -1)%Z).
  - apply bind_Ok in Hstep as (v & _ & Hstep).
    apply bind_Ok in Hstep as (n1 & Hn1 & Hstep).
    apply bind_Ok in Hstep as (n2 & Hn2 & Hstep).
    injection Hstep as <-.
    unfold CellNeighbor_init in Hn1, Hn2.
    apply bind_Ok in Hn1 as (a0 & _ & Hn1). apply bind_Ok in Hn1 as (a1 & _ & Hn1).
    apply bind_Ok in Hn1 as (e1 & _ & Hn1). injection Hn1 as <-.
    apply bind_Ok in Hn2 as (b1 & _ & Hn2). apply bind_Ok in Hn2 as (b0 & _ & Hn2).
    apply bind_Ok in Hn2 as (e2 & _ & Hn2). injection Hn2 as <-.
    eexists _, _. split; [reflexivity|]. simpl. auto 10.
  - apply bind_Ok in Hstep as (v0 & _ & Hstep).
    apply bind_Ok in Hstep as (v1 & _ & Hstep).
    simpl in Hstep. injection Hstep as <-.
    eexists _, _. split; [reflexivity|]. simpl. auto 10.
Qed.

Lemma with_pair_ids (reg : registry) (k0 k1 : Z) (n1 n2 : CellNeighbor) :
  ids_are_keys reg -> ids_are_keys (with_pair reg k0 k1 n1 n2).
Proof.
  intros Hids k c Hk. rewrite lookup_with_pair in Hk.
  destruct (reg !! k) as [c'|] eqn:Hk'; simpl in Hk; [|discriminate].
  injection Hk as <-. simpl. apply Hids. exact Hk'.
Qed.

Lemma process_ridges_neighbors (verts : list Dot) (items : list ((Z * Z) * (Z * Z)))
    (reg reg' : registry) :
  ids_are_keys reg ->
  process_ridges verts reg items = Ok reg' ->
  forall a, exists extra,
    reg' !! a = (fun c => with_neighbors c (neighbors c ++ extra)) <$> reg !! a /\
    map (fun n => (neighbor_id n, is_finite n)) extra = partners a items /\
    (forall n, n ∈ extra -> cell_id n = a).
Proof.
  revert reg. induction items as [|[[k0 k1] [d0 d1]] items IH]; intros reg Hids Hrun a;
    simpl in Hrun.
  - injection Hrun as <-. exists []. split; [|split; [reflexivity | intros n Hn; inversion Hn]].
    destruct (reg !! a) as [[]|]; simpl; [|reflexivity].
    unfold with_neighbors. simpl. rewrite app_nil_r. reflexivity.
  - apply bind_Ok in Hrun as (reg1 & Hstep & Hrun).
    apply process_ridge_with_pair in Hstep
      as (n1 & n2 & -> & Hc1 & Hn1 & Hc2 & Hn2 & Hf1 & Hf2); [|exact Hids].
    destruct (IH _ (with_pair_ids _ k0 k1 n1 n2 Hids) Hrun a) as (extra & Hlook & Hmap & Hown).
    exists ((if decide (k0 = a) then [n1] else []) ++
            (if decide (k1 = a) then [n2] else []) ++ extra).
    split; [|split].
    + rewrite Hlook, lookup_with_pair. destruct (reg !! a) as [c|]; simpl; [|reflexivity].
      unfold with_neighbors. simpl. rewrite <- !app_assoc. reflexivity.
    + cbn [partners flat_map fst snd]. fold (partners a items).
      rewrite !map_app, Hmap, <- app_assoc.
      destruct (decide (k0 = a)), (decide (k1 = a)); simpl; congruence.
    + intros n Hn. apply elem_of_app in Hn as [Hn|Hn]; [|apply elem_of_app in Hn as [Hn|Hn]].
      * destruct (decide (k0 = a)); [|inversion Hn].
        apply list_elem_of_singleton in Hn. congruence.
      * destruct (decide (k1 = a)); [|inversion Hn].
        apply list_elem_of_singleton in Hn. congruence.
      * apply Hown. exact Hn.
Qed.

Lemma process_ridges_size (verts : list Dot) (items : list ((Z * Z) * (Z * Z)))
    (reg reg' : registry) :
  ids_are_keys reg ->
  process_ridges verts reg items = Ok reg' -> size reg' = size reg.
Proof.
  revert reg. induction items as [|[[k0 k1] [d0 d1]] items IH]; intros reg Hids Hrun;
    simpl in Hrun.
  - injection Hrun as <-. reflexivity.
  - apply bind_Ok in Hrun as (reg1 & Hstep & Hrun).
    apply process_ridge_with_pair in Hstep as (n1 & n2 & -> & _); [|exact Hids].
    rewrite (IH _ (with_pair_ids _ k0 k1 n1 n2 Hids) Hrun).
    unfold with_pair. rewrite <- !size_dom, !dom_alter_L. reflexivity.
Qed.

Lemma create_cells_ids_from (dots : list Dot) (reg : registry) (i : Z) :
  ids_are_keys reg -> ids_are_keys (create_cells reg i dots).
Proof.
  revert reg i. induction dots as [|d dots IH]; intros reg i Hids; simpl; [exact Hids|].
  apply IH. intros k c. rewrite Cell_init_lookup.
  destruct (reg !! k) as [c'|] eqn:Hk.
  - intros [= <-]. apply Hids. exact Hk.
  - destruct (decide (k = i)) as [->|]; [|discriminate]. intros [= <-]. reflexivity.
Qed.

Lemma create_cells_ids (dots : list Dot) : ids_are_keys (create_cells ∅ 0 dots).
Proof.
  apply create_cells_ids_from. intros k c Hk. rewrite lookup_empty in Hk. discriminate.
Qed.

(** X4.  What [VoronoiTesselation.process] leaves in the registry: one
    cell per dot, under the position of the dot, with the dot as its
    center and every field but [neighbors] as the constructor left it;
    no other id.  The neighbours of the cell [k] are, in the order of
    [ridge_dict], one entry per ridge that names [k], owned by [k],
    referring to the other generator of the ridge, and finite exactly
    when neither vertex of the ridge is the one at infinity. *)
Theorem process_keeps_cells `{Scipy} (dots : list Dot) (vr : VoronoiResult) (reg : registry) :
  Voronoi dots = Ok vr ->
  process dots = Ok reg ->
  size reg = length dots /\
  (forall i d, dots !! i = Some d ->
     exists ns, reg !! Z.of_nat i = Some (with_neighbors (fresh_cell (Z.of_nat i) d) ns) /\
       map (fun n => (neighbor_id n, is_finite n)) ns
         = partners (Z.of_nat i) (ridge_dict vr) /\
       (forall n, n ∈ ns -> cell_id n = Z.of_nat i)) /\
  (forall k, (k < 0 \/ Z.of_nat (length dots) <= k)%Z -> reg !! k = None).
Proof.
  intros Hvor Hproc. unfold process in Hproc. rewrite Hvor in Hproc. simpl in Hproc.
  pose proof (create_cells_ids dots) as Hids.
  split; [|split].
  - rewrite (process_ridges_size _ _ _ _ Hids Hproc).
    rewrite create_cells_size by (intros k _; apply lookup_empty).
    rewrite map_size_empty. reflexivity.
  - intros i d Hi.
    destruct (process_ridges_neighbors _ _ _ _ Hids Hproc (Z.of_nat i))
      as (extra & Hlook & Hmap & Hown).
    exists extra. rewrite Hlook, create_cells_lookup by apply lookup_empty.
    apply lookup_lt_Some in Hi as Hlt. rewrite decide_True by lia.
    replace (Z.to_nat (Z.of_nat i - 0)) with i by lia. rewrite Hi. simpl. auto.
  - intros k Hk.
    destruct (process_ridges_neighbors _ _ _ _ Hids Hproc k) as (extra & Hlook & _).
    rewrite Hlook, create_cells_lookup by apply lookup_empty.
    rewrite decide_False by lia. reflexivity.
Qed.

End Ridges.

(** The registry of the four generators of [kite_dots]: the generator
    (4, 2) takes part in three ridges, the second of them bounded. *)
Lemma process_keeps_cells_witness :
  let S := Examples.example_scipy in
  let N := Examples.example_numpy in
  size Examples.kite_registry = 4%nat /\
  exists ns,
    Examples.kite_registry !! 1%Z = Some (with_neighbors (fresh_cell 1 (4, 2)) ns) /\
    map (fun n => (Voronoi.neighbor_id n, Voronoi.is_finite n)) ns
      = [(0%Z, false); (2%Z, true); (3%Z, false)].
Proof.
  intros S N.
  assert (Hvor : Voronoi.Voronoi Examples.kite_dots = Ok Examples.kite_voronoi)
    by (vm_compute; reflexivity).
  assert (Hproc : Voronoi.process Examples.kite_dots = Ok Examples.kite_registry)
    by (vm_compute; reflexivity).
  destruct (process_keeps_cells _ _ _ Hvor Hproc) as (Hsize & Hcells & _).
  split; [exact Hsize|].
  destruct (Hcells 1%nat (4, 2) eq_refl) as (ns & Hlook & Hmap & _).
  exists ns. split; [exact Hlook | exact Hmap].
Defined.

(** ** The replacement end point of an unbounded ridge *)

Section Endpoints.
Import Voronoi.
Context `{Numpy}.

(** X5.  The replacement end point of an unbounded ridge when [lstsq]
    returns a slope [m] that is not zero.  [__post_init__] produces a
    dot of two numbers; the segment from [dot_start] to it is
    perpendicular to the fitted direction (1, m); and its abscissa is
    the larger of the abscissas of the two centers when the fitted
    slope is positive, the smaller when it is negative. *)
Theorem synthesized_end_perpendicular (p0 p1 s : Dot) (m c : Q) :
  lstsq p0 p1 = Ok (m, c) -> ~ m == 0 ->
  exists x y,
    synthesize_dot_end p0 p1 s = Ok (x, Number y) /\
    (x - s.1) * 1 + (y - s.2) * m == 0 /\
    x = (if Qlt_bool 0 m then py_max p0.1 p1.1 else py_min p0.1 p1.1).
Proof.
  intros Hfit Hm. rewrite (synthesize_dot_end_from_slope _ _ _ _ _ Hfit).
  pose proof (from_slope_abscissa m p0.1 p1.1 s) as Hx.
  pose proof (from_slope_ordinate m p0.1 p1.1 s Hm) as Hy.
  destruct (from_slope m p0.1 p1.1 s) as [x y]. cbn [fst snd] in Hx, Hy. subst y.
  eexists x, _. split; [reflexivity|]. split; [|exact Hx].
  field. exact Hm.
Qed.

(** X6.  An unbounded ridge for which [lstsq] returns the slope zero.
    The division that gives the ordinate of the replacement end point
    has divisor zero; on numpy floats this raises nothing.  The
    constructor returns an entry whose end has the smaller of the
    abscissas of the two centers, and an ordinate that is [inf] or
    [nan]. *)
Theorem synthesized_end_zero_slope (reg : registry) (cid nid : Z) (c0 c1 : Cell)
    (s : Dot) (m c : Q) :
  reg !! cid = Some c0 -> reg !! nid = Some c1 ->
  lstsq (center c0) (center c1) = Ok (m, c) -> m == 0 ->
  CellNeighbor_init reg cid nid s None
    = Ok (mkCellNeighbor cid nid s (py_min (center c0).1 (center c1).1, InfOrNan) false).
Proof.
  intros Hc0 Hc1 Hfit Hm. unfold CellNeighbor_init, lookup_cell.
  rewrite Hc0, Hc1. cbn [bind].
  rewrite (synthesize_dot_end_from_slope _ _ _ _ _ Hfit). cbn [bind].
  rewrite (from_slope_zero _ _ _ _ Hm). reflexivity.
Qed.

(** X7.  Two centers on a vertical line.  Whatever slope [lstsq]
    returns, the abscissa of the replacement end point is that of the
    two centers: the point lies on the line through the centers. *)
Theorem synthesized_end_stacked_centers (p0 p1 s : Dot) (e : end_dot) :
  p0.1 == p1.1 ->
  synthesize_dot_end p0 p1 s = Ok e ->
  e.1 == p0.1 /\ e.1 == p1.1.
Proof.
  intros Hx Hsyn. apply synthesize_dot_end_Ok in Hsyn as (m & c & _ & ->).
  rewrite from_slope_abscissa.
  assert (He : (if Qlt_bool 0 m then py_max p0.1 p1.1 else py_min p0.1 p1.1) == p0.1).
  { destruct (Qlt_bool 0 m).
    - unfold py_max. destruct (Qlt_bool p0.1 p1.1); [symmetry; exact Hx | reflexivity].
    - unfold py_min. destruct (Qlt_bool p1.1 p0.1); [symmetry; exact Hx | reflexivity]. }
  split; [exact He | rewrite He; exact Hx].
Qed.

End Endpoints.

(** The ridge of [kite_dots] between (0, 0) and (4, 2), known vertex
    (5/3, 5/3), fitted slope 1/2: the end point is (4, -3). *)
Lemma synthesized_end_perpendicular_witness :
  let N := Examples.example_numpy in
  exists x y, Voronoi.synthesize_dot_end (0, 0) (4, 2) (5 # 3, 5 # 3) = Ok (x, Number y) /\
    (x - (5 # 3)) * 1 + (y - (5 # 3)) * (1 # 2) == 0 /\ x == 4 /\ y == -(3).
Proof.
  intros N.
  destruct (synthesized_end_perpendicular (0, 0) (4, 2) (5 # 3, 5 # 3) (1 # 2) 0)
    as (x & y & Hsyn & Hperp & _).
  - vm_compute. reflexivity.
  - intros H0. vm_compute in H0. discriminate H0.
  - exists x, y. split; [exact Hsyn|]. split; [exact Hperp|].
    vm_compute in Hsyn. injection Hsyn as <- <-. split; vm_compute; reflexivity.
Defined.

(** Two generators of the unit square on the line y = 0, for which the
    fit is the zero line: the entry of the cell at (0, 0) for the cell
    at (1, 0) is created, with an end at abscissa 0 that has no finite
    ordinate. *)
Lemma synthesized_end_zero_slope_witness :
  let N := Examples.example_numpy in
  Voronoi.CellNeighbor_init (Voronoi.create_cells ∅ 0 Examples.square_dots) 0 3
      (1 # 2, 1 # 2) None
    = Ok (Voronoi.mkCellNeighbor 0 3 (1 # 2, 1 # 2) (py_min 0 1, InfOrNan) false).
Proof.
  intros N.
  apply (synthesized_end_zero_slope (Voronoi.create_cells ∅ 0 Examples.square_dots) 0 3
           (fresh_cell 0 (0, 0)) (fresh_cell 3 (1, 0)) (1 # 2, 1 # 2) 0 0);
    vm_compute; reflexivity.
Defined.

(** Two generators of the unit square on the line x = 1: the end point
    (1, -3/2) is on that line. *)
Lemma synthesized_end_stacked_centers_witness :
  let N := Examples.example_numpy in
  exists e, Voronoi.synthesize_dot_end (1, 1) (1, 0) (1 # 2, 1 # 2) = Ok e /\
    end_eq e (1, Number (-(3 # 2))) /\ e.1 == 1.
Proof.
  intros N.
  destruct (Voronoi.synthesize_dot_end (1, 1) (1, 0) (1 # 2, 1 # 2)) as [e|err] eqn:Hsyn;
    [|vm_compute in Hsyn; discriminate Hsyn].
  exists e. split; [reflexivity|].
  assert (Hx : ((1, 1) : Dot).1 == ((1, 0) : Dot).1) by (simpl; lra).
  destruct (synthesized_end_stacked_centers _ _ _ _ Hx Hsyn) as (He & _).
  split; [|exact He].
  vm_compute in Hsyn. injection Hsyn as <-. split; vm_compute; reflexivity.
Defined.

(** ** Feeding strokes *)

Section Feed.
Context `{Lib}.

Lemma add_new_hatch_dots (self m : RowsManager) (h : Hatch) (r : result unit) :
  add_new_hatch self h = (m, r) ->
  dots m = dots self ++ (if upright h then [middle_dot h] else []) /\
  processed m = processed self /\ rows m = rows self.
Proof.
  unfold add_new_hatch, upright. cbv zeta.
  assert (Hd : (if negb (is_hatch_horizontal (h_top h).2 (h_bottom h).2)
                then dots self ++ [middle_dot h] else dots self)
               = dots self ++ (if negb (is_hatch_horizontal (h_top h).2 (h_bottom h).2)
                               then [middle_dot h] else [])).
  { destruct (negb _); [reflexivity | rewrite app_nil_r; reflexivity]. }
  destruct (vectors self) as [|v0 vs] eqn:Hv.
  - intros [= <- <-]. simpl. auto.
  - destruct (last (v0 :: vs)) as [prev|] eqn:Hlast.
    + destruct (get_angle_between_vectors _ _) as [c|e]; intros [= <- <-]; simpl; auto.
    + apply last_None in Hlast. discriminate.
Qed.

Lemma add_hatches_dots_from (hs : list Hatch) (s m : RowsManager) (r : result unit) :
  add_hatches s hs = (m, r) ->
  (r = Ok tt -> dots m = dots s ++ map middle_dot (List.filter upright hs)) /\
  (exists n, dots m = dots s ++ map middle_dot (List.filter upright (take n hs))) /\
  processed m = processed s /\ rows m = rows s.
Proof.
  revert s. induction hs as [|h hs IH]; intros s Hrun; simpl in Hrun.
  - injection Hrun as <- <-. simpl. rewrite app_nil_r. repeat split; auto.
    exists 0%nat. simpl. rewrite app_nil_r. reflexivity.
  - destruct (add_new_hatch s h) as [s1 [[]|e]] eqn:Hstep.
    + apply add_new_hatch_dots in Hstep as (Hd & Hp & Hr).
      apply IH in Hrun as (Hall & (n & Hn) & Hp' & Hr').
      assert (Hcons : forall l, dots s1 ++ map middle_dot (List.filter upright l)
                        = dots s ++ map middle_dot (List.filter upright (h :: l))).
      { intros l. rewrite Hd. simpl. destruct (upright h); simpl.
        - rewrite <- app_assoc. reflexivity.
        - rewrite app_nil_r. reflexivity. }
      split; [|split; [|split; congruence]].
      * intros Hok. rewrite (Hall Hok). apply Hcons.
      * exists (S n). rewrite Hn. apply (Hcons (take n hs)).
    + injection Hrun as <- <-.
      apply add_new_hatch_dots in Hstep as (Hd & Hp & Hr).
      split; [discriminate|]. split; [|split; assumption].
      exists 1%nat. rewrite Hd. simpl.
      destruct (upright h); simpl; reflexivity.
Qed.

Lemma add_hatches_raised (hs : list Hatch) (s m : RowsManager) (e : error) :
  add_hatches s hs = (m, Raise e) ->
  exists n h m_n, hs !! n = Some h /\
    add_hatches s (take n hs) = (m_n, Ok tt) /\
    add_new_hatch m_n h = (m, Raise e) /\
    dots m = dots s ++ map middle_dot (List.filter upright (take (S n) hs)).
Proof.
  revert s. induction hs as [|h hs IH]; intros s Hrun; cbn [add_hatches] in Hrun.
  - discriminate.
  - destruct (add_new_hatch s h) as [s1 [[]|e']] eqn:Hstep.
    + destruct (IH _ Hrun) as (n & h' & m_n & Hn & Hpre & Hlast & Hdots).
      exists (S n), h', m_n. split; [exact Hn|].
      split; [cbn [take add_hatches]; rewrite Hstep; exact Hpre|].
      split; [exact Hlast|].
      apply add_new_hatch_dots in Hstep as (Hd & _).
      rewrite Hdots, Hd. rewrite (firstn_cons (S n) h hs). cbn [List.filter].
      destruct (upright h); simpl.
      * rewrite <- app_assoc. reflexivity.
      * rewrite app_nil_r. reflexivity.
    + injection Hrun as <- <-. exists 0%nat, h, s.
      split; [reflexivity|]. split; [reflexivity|]. split; [exact Hstep|].
      apply add_new_hatch_dots in Hstep as (Hd & _). rewrite Hd. simpl.
      destruct (upright h); reflexivity.
Qed.

(** X8.  The list [dots], the generators handed to the tessellation:
    after strokes were fed to a cleared manager it holds, in the order
    of the strokes, the middle dots of the strokes that are not
    horizontal; if a call raised, those of the strokes up to and
    including the one that raised, the strokes before it having been
    accepted. *)
Theorem add_hatches_dots (hs : list Hatch) (self m : RowsManager) (r : result unit) :
  add_hatches (clear self) hs = (m, r) ->
  (r = Ok tt -> dots m = map middle_dot (List.filter upright hs)) /\
  (forall e, r = Raise e ->
     exists n h m_n, hs !! n = Some h /\
       add_hatches (clear self) (take n hs) = (m_n, Ok tt) /\
       add_new_hatch m_n h = (m, Raise e) /\
       dots m = map middle_dot (List.filter upright (take (S n) hs))).
Proof.
  intros Hrun. split.
  - apply add_hatches_dots_from in Hrun as (H1 & _). exact H1.
  - intros e ->. apply add_hatches_raised in Hrun. exact Hrun.
Qed.

(** X9.  [add_new_hatch] is not atomic.  When the cosine of the new
    vector cannot be computed, the exception leaves the manager with
    the vector appended to [vectors] and nothing appended to
    [top_list], [bottom_list] and [cos_list]: the lists are no longer
    parallel. *)
Theorem add_new_hatch_failure (self m : RowsManager) (h : Hatch) (e : error) :
  parallel_lists self ->
  add_new_hatch self h = (m, Raise e) ->
  exists prev, last (vectors self) = Some prev /\
    get_angle_between_vectors (mkVector (v_end prev) (middle_dot h))
                              (mkVector (0, 0) (1, 0)) = Raise e /\
    vectors m = vectors self ++ [mkVector (v_end prev) (middle_dot h)] /\
    top_list m = top_list self /\ bottom_list m = bottom_list self /\
    Manager.cos_list m = Manager.cos_list self /\
    ~ parallel_lists m.
Proof.
  intros (Ht & Hb & Hc). unfold add_new_hatch. cbv zeta.
  destruct (vectors self) as [|v0 vs] eqn:Hv; [discriminate|].
  destruct (last (v0 :: vs)) as [prev|] eqn:Hlast.
  - destruct (get_angle_between_vectors _ _) as [c|e'] eqn:Hang; [discriminate|].
    intros [= <- <-]. exists prev. simpl.
    split; [reflexivity|]. split; [exact Hang|]. do 4 (split; [reflexivity|]).
    intros (Ht' & _). simpl in Ht'. rewrite length_app in Ht'. simpl in *. lia.
  - apply last_None in Hlast. discriminate.
Qed.

(** X10.  The life cycle of the manager.  Feeding strokes does not mark
    it processed: until [process] has run, [add_voronoi_cells] raises
    [AssertionError].  [process] on a manager that was fed no stroke
    raises [IndexError]; when it returns, the manager is marked
    processed. *)
Theorem add_voronoi_cells_needs_process (hs : list Hatch) (self m : RowsManager)
    (r : result unit) (reg : Voronoi.registry) :
  add_hatches (clear self) hs = (m, r) ->
  add_voronoi_cells m reg = Raise AssertionError /\
  (hs = [] -> process m = Raise IndexError) /\
  (forall m' tr, process m = Ok (m', tr) -> processed m' = true).
Proof.
  intros Hrun. pose proof Hrun as Hrun'.
  apply add_hatches_dots_from in Hrun' as (_ & _ & Hp & _). simpl in Hp.
  split; [|split].
  - unfold add_voronoi_cells. rewrite Hp. reflexivity.
  - intros ->. simpl in Hrun. injection Hrun as <- _. reflexivity.
  - intros m' tr Hproc. unfold process in Hproc.
    apply bind_Ok in Hproc as (v0 & _ & Hproc).
    apply bind_Ok in Hproc as (st & _ & Hproc).
    apply bind_Ok in Hproc as (rows' & _ & Hproc). injection Hproc as <- _. reflexivity.
Qed.

End Feed.

(** Of the three strokes of [dashed_strokes] the second is horizontal:
    [dots] holds the middle dots of the other two.  Of the strokes of
    [repeated_strokes] the second raises: [dots] holds the middle dots
    of the first two. *)
Lemma add_hatches_dots_witness :
  let L := SpecLib.spec_lib 0 in
  add_hatches (clear RowsManager_init) Examples.dashed_strokes
    = (Examples.dashed_manager, Ok tt) /\
  dots Examples.dashed_manager
    = [middle_dot (Examples.stroke 100 0); middle_dot (Examples.stroke 80 0)] /\
  add_hatches (clear RowsManager_init) Examples.repeated_strokes
    = (Examples.one_manager_failed, Raise ZeroDivisionError) /\
  exists n, Examples.repeated_strokes !! n = Some (Examples.stroke 100 0) /\
    add_new_hatch Examples.one_manager (Examples.stroke 100 0)
      = (Examples.one_manager_failed, Raise ZeroDivisionError) /\
    dots Examples.one_manager_failed
      = map middle_dot (List.filter upright (take (S n) Examples.repeated_strokes)) /\
    n = 1%nat.
Proof.
  intros L.
  assert (Hfeed : add_hatches (clear RowsManager_init) Examples.dashed_strokes
                  = (Examples.dashed_manager, Ok tt)) by (vm_compute; reflexivity).
  split; [exact Hfeed|].
  destruct (add_hatches_dots _ _ _ _ Hfeed) as (Hdots & _).
  split; [exact (Hdots eq_refl)|].
  assert (Hfail : add_hatches (clear RowsManager_init) Examples.repeated_strokes
                  = (Examples.one_manager_failed, Raise ZeroDivisionError))
    by (vm_compute; reflexivity).
  split; [exact Hfail|].
  destruct (add_hatches_dots _ _ _ _ Hfail) as (_ & Hraised).
  destruct (Hraised _ eq_refl) as (n & h & m_n & Hn & Hpre & Hlast & Hd).
  assert (Hpos : n = 1%nat /\ h = Examples.stroke 100 0 /\ m_n = Examples.one_manager).
  { destruct n as [|[|[|n]]].
    - vm_compute in Hpre. injection Hpre as <-. injection Hn as <-.
      vm_compute in Hlast. discriminate Hlast.
    - injection Hn as <-. vm_compute in Hpre. injection Hpre as <-. auto.
    - vm_compute in Hpre. discriminate Hpre.
    - vm_compute in Hn. discriminate Hn. }
  destruct Hpos as (-> & -> & ->).
  exists 1%nat. split; [reflexivity|]. split; [exact Hlast|]. split; [exact Hd | reflexivity].
Defined.

(** The stroke at (100, 0) fed twice: the second vector has no
    direction, and the call leaves two vectors for one pair of corners. *)
Lemma add_new_hatch_failure_witness :
  let L := SpecLib.spec_lib 0 in
  add_new_hatch Examples.one_manager (Examples.stroke 100 0)
    = (Examples.one_manager_failed, Raise ZeroDivisionError) /\
  length (vectors Examples.one_manager_failed) = 2%nat /\
  length (top_list Examples.one_manager_failed) = 1%nat /\
  ~ parallel_lists Examples.one_manager_failed.
Proof.
  intros L.
  assert (Hadd : add_new_hatch Examples.one_manager (Examples.stroke 100 0)
                 = (Examples.one_manager_failed, Raise ZeroDivisionError))
    by (vm_compute; reflexivity).
  assert (Hpar : parallel_lists Examples.one_manager)
    by (split; [reflexivity | split; reflexivity]).
  split; [exact Hadd|].
  destruct (add_new_hatch_failure _ _ _ _ Hpar Hadd) as (prev & _ & _ & _ & _ & _ & _ & Hnot).
  split; [reflexivity|]. split; [reflexivity | exact Hnot].
Defined.

(** The two example strokes, fed and not yet processed. *)
Lemma add_voronoi_cells_needs_process_witness :
  let L := SpecLib.spec_lib 0 in
  add_voronoi_cells Examples.two_manager Examples.bare_registry = Raise AssertionError.
Proof.
  intros L.
  assert (Hfeed : add_hatches (clear RowsManager_init) Examples.two_strokes
                  = (Examples.two_manager, Ok tt)) by (vm_compute; reflexivity).
  destruct (add_voronoi_cells_needs_process _ _ _ _ Examples.bare_registry Hfeed)
    as (Hassert & _).
  exact Hassert.
Defined.

(** ** The rows that [process] builds *)

Section Rows.
Context `{Lib}.

Lemma _update_top_frame (r r' : MatrixRow) (d : Dot) :
  _update_top r d = Ok r' ->
  index r' = index r /\ vectors_list r' = vectors_list r /\
  voronoi_cells r' = voronoi_cells r /\ bottom r' = bottom r /\
  _bottom_dot r' = _bottom_dot r /\ _is_vector_extended r' = _is_vector_extended r.
Proof.
  unfold _update_top. destruct (vectors_list r) eqn:Hvl.
  - intros [= <-]. auto 10.
  - intros Hu. apply bind_Ok in Hu as (fv & _ & Hu). apply bind_Ok in Hu as (x & _ & Hu).
    destruct (Qlt_bool (top r) x).
    + injection Hu as <-. simpl. auto 10.
    + apply bind_Ok in Hu as (y & _ & Hu). injection Hu as <-. simpl. auto 10.
Qed.

Lemma _update_bottom_frame (r r' : MatrixRow) (d : Dot) :
  _update_bottom r d = Ok r' ->
  index r' = index r /\ vectors_list r' = vectors_list r /\
  voronoi_cells r' = voronoi_cells r /\ top r' = top r /\
  _top_dot r' = _top_dot r /\ _is_vector_extended r' = _is_vector_extended r.
Proof.
  unfold _update_bottom. destruct (vectors_list r) eqn:Hvl.
  - intros [= <-]. auto 10.
  - intros Hu. apply bind_Ok in Hu as (fv & _ & Hu). apply bind_Ok in Hu as (x & _ & Hu).
    destruct (Qlt_bool (bottom r) x).
    + injection Hu as <-. simpl. auto 10.
    + apply bind_Ok in Hu as (y & _ & Hu). injection Hu as <-. simpl. auto 10.
Qed.

Lemma extend_or_append_frame (r : MatrixRow) (v : Vector) :
  index (extend_or_append r v) = index r /\
  voronoi_cells (extend_or_append r v) = voronoi_cells r /\
  vectors_list (extend_or_append r v) <> [].
Proof.
  unfold extend_or_append.
  destruct (vectors_list r) as [|v0 [|v1 vl]] eqn:Hvl; simpl; try rewrite Hvl.
  - repeat split; discriminate.
  - destruct (_is_vector_extended r); simpl; try rewrite Hvl; repeat split; discriminate.
  - repeat split; discriminate.
Qed.

Lemma add_hatch_frame (r r' : MatrixRow) (v : Vector) (t b : Dot) :
  add_hatch r v t b = Ok r' ->
  index r' = index r /\ voronoi_cells r' = voronoi_cells r /\ vectors_list r' <> [].
Proof.
  unfold add_hatch. intros Hu. apply bind_Ok in Hu as (r1 & H1 & H2).
  apply _update_top_frame in H1 as (I1 & V1 & C1 & _).
  apply _update_bottom_frame in H2 as (I2 & V2 & C2 & _).
  destruct (extend_or_append_frame r v) as (I0 & C0 & V0).
  repeat split; congruence.
Qed.

Lemma update_top_bottom_frame (r r' : MatrixRow) (t b : Dot) :
  update_top_bottom t b r = Ok r' ->
  index r' = index r /\ voronoi_cells r' = voronoi_cells r /\
  vectors_list r' = vectors_list r.
Proof.
  unfold update_top_bottom. intros Hu. apply bind_Ok in Hu as (r1 & H1 & H2).
  apply _update_top_frame in H1 as (I1 & V1 & C1 & _).
  apply _update_bottom_frame in H2 as (I2 & V2 & C2 & _).
  repeat split; congruence.
Qed.

(** Replacing the last row by one with the same index, no cells and
    some vector keeps the numbering. *)
Lemma rows_numbered_last (init : list MatrixRow) (r r' : MatrixRow)
    (rid : Z) (a a' p p' : bool) (tr : list event) (ev : event) :
  is_new_row ev = false ->
  index r' = index r -> voronoi_cells r' = voronoi_cells r -> vectors_list r' <> [] ->
  rows_numbered (mkLoop (init ++ [r]) rid a p tr) ->
  rows_numbered (mkLoop (init ++ [r']) rid a' p' (tr ++ [ev])).
Proof.
  intros Hev Hi Hc Hv (Hne & Hidx & Hrows & Hrid & Hlen). simpl in *.
  unfold rows_numbered. simpl.
  rewrite length_app in *. simpl in *.
  split; [intros Heq; apply app_eq_nil in Heq as [_ Heq]; discriminate|].
  split; [rewrite map_app in *; simpl in *; rewrite Hi; exact Hidx|].
  split; [|split; [exact Hrid|]].
  - intros x Hx. apply elem_of_app in Hx as [Hx|Hx].
    + apply Hrows. apply elem_of_app. left. exact Hx.
    + apply list_elem_of_singleton in Hx. subst x. split; [exact Hv|].
      rewrite Hc. apply Hrows. apply elem_of_app. right. left.
  - rewrite List.filter_app. simpl. rewrite Hev. rewrite length_app. simpl. lia.
Qed.

Lemma process_step_numbered (self : RowsManager) (st st' : loop_state)
    (item : nat * (Q * (Vector * (Dot * Dot)))) :
  rows_numbered st -> process_step self st item = Ok st' -> rows_numbered st'.
Proof.
  destruct item as [i [cos [vector [t b]]]]. intros Hinv Hstep.
  unfold process_step in Hstep.
  apply bind_Ok in Hstep as (skip & _ & Hstep). destruct skip.
  { injection Hstep as <-. destruct Hinv as (Hne & Hidx & Hrows & Hrid & Hlen).
    unfold rows_numbered. simpl. repeat split; try assumption; try (apply Hrows; assumption).
    rewrite List.filter_app, length_app. simpl. lia. }
  destruct (Qle_bool cos NEW_ROW_ANGLE).
  - apply bind_Ok in Hstep as (v' & _ & Hstep).
    apply bind_Ok in Hstep as (rows' & Hrows' & Hstep). injection Hstep as <-.
    unfold _add_hatch_to_current_row in Hrows'.
    apply on_last_row_Ok in Hrows' as (init & r0 & r' & Heq & -> & Hadd).
    apply add_hatch_frame in Hadd as (Hi & Hc & Hv).
    destruct st as [rows rid a p tr]. simpl in *. subst rows.
    eapply rows_numbered_last; eauto.
  - apply bind_Ok in Hstep as ([[[rows' added] rid] ev] & Hp & Hstep).
    injection Hstep as <-. unfold _process_hatch_not_current_row in Hp.
    apply bind_Ok in Hp as (found & _ & Hp). destruct found as [row|].
    + injection Hp as <- <- <- <-.
      destruct Hinv as (Hne & Hidx & Hrows & Hrid & Hlen).
      unfold rows_numbered. simpl. repeat split; try assumption; try (apply Hrows; assumption).
      rewrite List.filter_app, length_app. simpl. lia.
    + apply bind_Ok in Hp as (rows2 & Hrows2 & Hp). injection Hp as <- <- <- <-.
      apply on_last_row_Ok in Hrows2 as (init & r0 & r' & Heq & -> & Hupd).
      apply update_top_bottom_frame in Hupd as (Hi & Hc & Hv).
      destruct st as [rows rid a p tr]. simpl in *. subst rows.
      assert (Hmid : rows_numbered (mkLoop (init ++ [r']) rid false p (tr ++ [Skipped]))).
      { eapply rows_numbered_last; eauto. rewrite Hv.
        destruct Hinv as (_ & _ & Hrows & _). apply Hrows. apply elem_of_app. right. left. }
      destruct Hmid as (Hne & Hidx & Hrows & Hrid & Hlen). simpl in *.
      rewrite List.filter_app, length_app in Hlen. simpl in Hlen.
      unfold rows_numbered. simpl.
      rewrite !length_app in *. simpl in *.
      split; [intros Heq; apply app_eq_nil in Heq as [_ Heq]; discriminate|].
      split; [|split; [|split]].
      * rewrite map_app, Hidx. simpl.
        replace (Z.of_nat (length init + 1 + 1)) with (Z.of_nat (length init + 1) + 1)%Z by lia.
        rewrite seqZ_app by lia. simpl. rewrite Hrid.
        replace (Z.of_nat (length init + 1) - 1 + 1)%Z with (0 + Z.of_nat (length init + 1))%Z by lia.
        reflexivity.
      * intros x Hx. apply elem_of_app in Hx as [Hx|Hx]; [apply Hrows; exact Hx|].
        apply list_elem_of_singleton in Hx. subst x. simpl. split; [discriminate | reflexivity].
      * lia.
      * rewrite List.filter_app, length_app. simpl. lia.
Qed.

Lemma process_numbered (m m' : RowsManager) (tr : list event) :
  process m = Ok (m', tr) ->
  exists st, rows_numbered st /\ trace st = tr /\
    (rows m' = l_rows st \/
     exists init r r', l_rows st = init ++ [r] /\ rows m' = init ++ [r'] /\
       index r' = index r /\ voronoi_cells r' = voronoi_cells r /\
       vectors_list r' = vectors_list r) /\
    processed m' = true.
Proof.
  intros Hproc. unfold process in Hproc.
  apply bind_Ok in Hproc as (v0 & Hv0 & Hproc).
  apply bind_Ok in Hproc as (st & Hloop & Hproc).
  apply bind_Ok in Hproc as (rows' & Hpost & Hproc). injection Hproc as <- <-.
  exists st. split; [|split; [reflexivity|split; [|reflexivity]]].
  - eapply (for_each_invariant rows_numbered); [| |exact Hloop].
    + intros s a s' Hs Hb. eapply process_step_numbered; eassumption.
    + unfold rows_numbered, loop_start. simpl.
      split; [discriminate|]. split; [reflexivity|]. split; [|split; reflexivity].
      intros r Hr. apply list_elem_of_singleton in Hr. subst r. simpl.
      split; [discriminate | reflexivity].
  - simpl. destruct (is_added_to_existing_row st); simpl in Hpost.
    + injection Hpost as <-. left. reflexivity.
    + right. apply bind_Ok in Hpost as (t & _ & Hpost).
      apply bind_Ok in Hpost as (rows1 & H1 & Hpost).
      apply bind_Ok in Hpost as (b & _ & H2).
      apply on_last_row_Ok in H1 as (init & r0 & r1 & Hst & -> & Hu1).
      apply on_last_row_Ok in H2 as (init' & r1' & r2 & Heq & -> & Hu2).
      apply app_inj_tail in Heq as (<- & <-).
      apply _update_top_frame in Hu1 as (I1 & V1 & C1 & _).
      apply _update_bottom_frame in Hu2 as (I2 & V2 & C2 & _).
      exists init, r0, r2. repeat split; congruence.
Qed.

(** X11.  The rows that [process] returns.  There is at least one; the
    row at position [i] has index [i]; every row has at least one
    vector and no cells yet; there is one row more than the pass logged
    row breaks; and the manager is marked processed. *)
Theorem process_rows_numbered (m m' : RowsManager) (tr : list event) :
  process m = Ok (m', tr) ->
  rows m' <> [] /\
  map index (rows m') = seqZ 0 (Z.of_nat (length (rows m'))) /\
  (forall r, r ∈ rows m' -> vectors_list r <> [] /\ voronoi_cells r = []) /\
  length (rows m') = S (length (List.filter is_new_row tr)) /\
  processed m' = true.
Proof.
  intros Hproc.
  apply process_numbered in Hproc as (st & (Hne & Hidx & Hrows & _ & Hlen) & <- & Hshape & Hp).
  destruct Hshape as [-> | (init & r & r' & Hst & -> & Hi & Hc & Hv)].
  - auto.
  - rewrite Hst in *. rewrite length_app in *. simpl in *.
    split; [intros Heq; apply app_eq_nil in Heq as [_ Heq]; discriminate|].
    split; [rewrite map_app in *; simpl in *; rewrite Hi; exact Hidx|].
    split; [|split; assumption].
    intros x Hx. apply elem_of_app in Hx as [Hx|Hx].
    + apply Hrows. apply elem_of_app. left. exact Hx.
    + apply list_elem_of_singleton in Hx. subst x. rewrite Hv, Hc.
      apply Hrows. apply elem_of_app. right. left.
Qed.

Lemma predict_2_no_cells (rows : list MatrixRow) (reg : Voronoi.registry) :
  (forall r, r ∈ rows -> voronoi_cells r = []) ->
  for_each (fun reg row => predict_neighbor_cells_2 row reg) reg rows = Ok reg.
Proof.
  induction rows as [|r rows IH]; intros Hc; simpl; [reflexivity|].
  unfold predict_neighbor_cells_2 at 1. rewrite (Hc r) by left. simpl.
  apply IH. intros x Hx. apply Hc. right. exact Hx.
Qed.

(** X12.  The heuristics before [add_voronoi_cells] has run.  The rows
    that [process] returns hold no cells: [predict_rows_neighbor_cells]
    divides the empty sum of widths by the number of cells, zero, and
    raises [ZeroDivisionError]; [predict_rows_neighbor_cells_2] loops
    over no cell and leaves the registry as it is. *)
Theorem predict_before_cells (m m' : RowsManager) (tr : list event) (reg : Voronoi.registry) :
  process m = Ok (m', tr) ->
  predict_rows_neighbor_cells m' reg = Raise ZeroDivisionError /\
  predict_rows_neighbor_cells_2 m' reg = Ok reg.
Proof.
  intros Hproc.
  apply process_numbered in Hproc as (st & (Hne & _ & Hrows & _) & _ & Hshape & _).
  assert (Hcells : rows m' <> [] /\ forall r, r ∈ rows m' -> voronoi_cells r = []).
  { destruct Hshape as [-> | (init & r & r' & Hst & -> & _ & Hc & _)].
    - split; [exact Hne|]. intros r Hr. apply Hrows. exact Hr.
    - split; [intros Heq; apply app_eq_nil in Heq as [_ Heq]; discriminate|].
      intros x Hx. apply elem_of_app in Hx as [Hx|Hx].
      + apply Hrows. rewrite Hst. apply elem_of_app. left. exact Hx.
      + apply list_elem_of_singleton in Hx. subst x. rewrite Hc.
        apply Hrows. rewrite Hst. apply elem_of_app. right. left. }
  destruct Hcells as (Hne' & Hcells). split.
  - unfold predict_rows_neighbor_cells. destruct (rows m') as [|r rs]; [congruence|].
    simpl. unfold predict_neighbor_cells. rewrite (Hcells r) by left. reflexivity.
  - apply predict_2_no_cells. exact Hcells.
Qed.

Lemma process_step_prefix (self : RowsManager) (st st' : loop_state)
    (item : nat * (Q * (Vector * (Dot * Dot)))) (closed tail : list MatrixRow) :
  tail <> [] -> l_rows st = closed ++ tail ->
  process_step self st item = Ok st' ->
  exists tail', tail' <> [] /\ l_rows st' = closed ++ tail'.
Proof.
  destruct item as [i [cos [vector [t b]]]]. intros Hne Hst Hstep.
  assert (Hlast : forall init r, l_rows st = init ++ [r] ->
            exists t0, init = closed ++ t0).
  { intros init r Heq. rewrite Hst in Heq.
    destruct tail as [|x tail' _] using rev_ind; [congruence|].
    rewrite app_assoc in Heq. apply app_inj_tail in Heq as (<- & _). eauto. }
  unfold process_step in Hstep.
  apply bind_Ok in Hstep as (skip & _ & Hstep). destruct skip.
  { injection Hstep as <-. simpl. eauto. }
  destruct (Qle_bool cos NEW_ROW_ANGLE).
  - apply bind_Ok in Hstep as (v' & _ & Hstep).
    apply bind_Ok in Hstep as (rows' & Hrows' & Hstep). injection Hstep as <-. simpl.
    apply on_last_row_Ok in Hrows' as (init & r0 & r' & Heq & -> & _).
    destruct (Hlast _ _ Heq) as (t0 & ->). exists (t0 ++ [r']).
    split; [intros E; apply app_eq_nil in E as [_ E]; discriminate|].
    rewrite app_assoc. reflexivity.
  - apply bind_Ok in Hstep as ([[[rows' added] rid] ev] & Hp & Hstep).
    injection Hstep as <-. simpl. unfold _process_hatch_not_current_row in Hp.
    apply bind_Ok in Hp as (found & _ & Hp). destruct found as [row|].
    + injection Hp as <- <- <- <-. eauto.
    + apply bind_Ok in Hp as (rows2 & Hrows2 & Hp). injection Hp as <- <- <- <-.
      apply on_last_row_Ok in Hrows2 as (init & r0 & r' & Heq & -> & _).
      destruct (Hlast _ _ Heq) as (t0 & ->). eexists ((t0 ++ [r']) ++ [_]).
      split; [intros E; apply app_eq_nil in E as [_ E]; discriminate|].
      rewrite !app_assoc. reflexivity.
Qed.

(** X13.  A row that is closed is not written to again.  If after
    some iterations of the loop of [process] the rows are [closed]
    followed by the current row, the rows that [process] returns start
    with those same rows [closed], with the same vectors, [top],
    [bottom] and extreme dots. *)
Theorem closed_rows_frozen (m m' : RowsManager) (tr : list event) (n : nat)
    (st : loop_state) (closed : list MatrixRow) (current : MatrixRow) :
  loop_after m n = Ok st ->
  l_rows st = closed ++ [current] ->
  process m = Ok (m', tr) ->
  exists rest, rest <> [] /\ rows m' = closed ++ rest.
Proof.
  intros Hafter Hst Hproc. unfold loop_after in Hafter. unfold process in Hproc.
  apply bind_Ok in Hproc as (v0 & Hv0 & Hproc). rewrite Hv0 in Hafter. simpl in Hafter.
  apply bind_Ok in Hproc as (st' & Hloop & Hproc).
  apply bind_Ok in Hproc as (rows' & Hpost & Hproc). injection Hproc as <- _. simpl.
  rewrite <- (take_drop n (loop_items m)) in Hloop.
  apply for_each_app in Hloop as (s1 & H1 & H2).
  rewrite Hafter in H1. injection H1 as <-.
  assert (Hpre : exists tail, tail <> [] /\ l_rows st' = closed ++ tail).
  { eapply (for_each_invariant
              (fun s => exists tail, tail <> [] /\ l_rows s = closed ++ tail));
      [| |exact H2].
    - intros s a s' (tail & Hne & Hs) Hb. eapply process_step_prefix; eassumption.
    - exists [current]. split; [discriminate | exact Hst]. }
  destruct Hpre as (tail & Hne & Hst').
  destruct (is_added_to_existing_row st'); simpl in Hpost.
  - injection Hpost as <-. eauto.
  - apply bind_Ok in Hpost as (t & _ & Hpost).
    apply bind_Ok in Hpost as (rows1 & Hu1 & Hpost).
    apply bind_Ok in Hpost as (b & _ & Hu2).
    apply on_last_row_Ok in Hu1 as (init & r0 & r1 & Heq & -> & _).
    apply on_last_row_Ok in Hu2 as (init' & r1' & r2 & Heq' & -> & _).
    apply app_inj_tail in Heq' as (<- & <-).
    rewrite Hst' in Heq.
    destruct tail as [|x tail' _] using rev_ind; [congruence|].
    rewrite app_assoc in Heq. apply app_inj_tail in Heq as (<- & _).
    exists (tail' ++ [r2]).
    split; [intros E; apply app_eq_nil in E as [_ E]; discriminate|].
    rewrite app_assoc. reflexivity.
Qed.

End Rows.

(** The three rows of [seven_strokes]. *)
Lemma process_rows_numbered_witness :
  let L := SpecLib.spec_lib 0 in
  exists m' tr, process Examples.seven_manager = Ok (m', tr) /\
    map index (rows m') = [0; 1; 2]%Z /\
    length (List.filter is_new_row tr) = 2%nat.
Proof.
  intros L.
  assert (Hproc : process Examples.seven_manager = Examples.seven_run)
    by (vm_compute; reflexivity).
  unfold Examples.seven_run in Hproc.
  eexists _, _. split; [exact Hproc|].
  destruct (process_rows_numbered _ _ _ Hproc) as (_ & Hidx & _ & Hlen & _).
  split; [exact Hidx|]. apply eq_add_S. symmetry. exact Hlen.
Defined.

(** The two example strokes, processed, without cells. *)
Lemma predict_before_cells_witness :
  let L := SpecLib.spec_lib 0 in
  predict_rows_neighbor_cells Examples.two_strokes_processed Examples.bare_registry
    = Raise ZeroDivisionError /\
  predict_rows_neighbor_cells_2 Examples.two_strokes_processed Examples.bare_registry
    = Ok Examples.bare_registry.
Proof.
  intros L.
  assert (Hproc : process Examples.two_manager = Examples.two_run)
    by (vm_compute; reflexivity).
  unfold Examples.two_run in Hproc.
  exact (predict_before_cells _ _ _ Examples.bare_registry Hproc).
Defined.

(** [seven_strokes] after four iterations: the first row is closed,
    and it is the first of the rows returned. *)
Lemma closed_rows_frozen_witness :
  let L := SpecLib.spec_lib 0 in
  exists m' tr rest, process Examples.seven_manager = Ok (m', tr) /\
    rows m' = [Examples.first_row (l_rows Examples.seven_state_4)] ++ rest.
Proof.
  intros L.
  assert (Hafter : loop_after Examples.seven_manager 4 = Ok Examples.seven_state_4)
    by (vm_compute; reflexivity).
  assert (Hproc : process Examples.seven_manager = Examples.seven_run)
    by (vm_compute; reflexivity).
  unfold Examples.seven_run in Hproc.
  destruct (closed_rows_frozen _ _ _ 4 Examples.seven_state_4
              [Examples.first_row (l_rows Examples.seven_state_4)] _
              Hafter eq_refl Hproc) as (rest & _ & Hrows).
  eexists _, _, rest. split; [exact Hproc | exact Hrows].
Defined.

(** ** Rows and generators *)

Section Generators.
Context `{Lib}.

Lemma final_vector_in (r : MatrixRow) (fv : Vector) :
  final_vector r = Ok fv ->
  exists w, w ∈ vectors_list r /\ v_end fv = v_end w.
Proof.
  intros Hf. apply final_vector_end in Hf as (w & Hw & He).
  exists w. split; [|exact He]. rewrite last_lookup in Hw.
  eapply list_elem_of_lookup_2. exact Hw.
Qed.

Lemma extend_or_append_cases (r : MatrixRow) (v : Vector) :
  vectors_list (extend_or_append r v) = vectors_list r ++ [v] \/
  exists v0, vectors_list r = [v0] /\ _is_vector_extended r = false /\
    vectors_list (extend_or_append r v) = [mkVector (v_begin v0) (v_end v)] /\
    _is_vector_extended (extend_or_append r v) = true.
Proof.
  unfold extend_or_append.
  destruct (vectors_list r) as [|v0 [|v1 vl]] eqn:Hvl;
    [left; reflexivity | | left; reflexivity].
  destruct (_is_vector_extended r) eqn:Hext; simpl.
  - left. reflexivity.
  - right. exists v0. auto.
Qed.

Lemma extend_or_append_in (r : MatrixRow) (v w : Vector) :
  w ∈ vectors_list (extend_or_append r v) ->
  w ∈ vectors_list r \/ w = v \/
  exists v0, v0 ∈ vectors_list r /\ w = mkVector (v_begin v0) (v_end v).
Proof.
  destruct (extend_or_append_cases r v) as [-> | (v0 & Hvl & _ & -> & _)]; intros Hw.
  - apply elem_of_app in Hw as [Hw|Hw]; [auto|].
    apply list_elem_of_singleton in Hw. auto.
  - apply list_elem_of_singleton in Hw. right. right. exists v0.
    split; [rewrite Hvl; left | exact Hw].
Qed.

Lemma process_step_dots (P : Dot -> Prop) (self : RowsManager) (st st' : loop_state)
    (j : nat) (cos : Q) (vec : Vector) (t b : Dot) :
  linked_vectors (vectors self) ->
  (forall k v, vectors self !! S k = Some v -> next_is_horizontal self k = Ok false ->
               P (v_end v)) ->
  vectors self !! S j = Some vec ->
  dots_invariant P self j st ->
  process_step self st (j, (cos, (vec, (t, b)))) = Ok st' ->
  dots_invariant P self (S j) st'.
Proof.
  intros Hlinked Hend Hvec (Hdots & Hne & Hpend) Hstep.
  unfold process_step in Hstep.
  apply bind_Ok in Hstep as (skip & Hskip & Hstep). destruct skip.
  { injection Hstep as <-. split; [exact Hdots|]. split; [exact Hne|]. left. reflexivity. }
  assert (HPend : P (v_end vec)) by (eapply Hend; eassumption).
  assert (Hnext : forall vec', vectors self !! S (S j) = Some vec' -> P (v_begin vec')).
  { intros vec' Hv'. destruct (Hlinked (S j) vec' Hv') as (p & Hp & ->).
    rewrite Hvec in Hp. injection Hp as <-. exact HPend. }
  destruct (Qle_bool cos NEW_ROW_ANGLE).
  - apply bind_Ok in Hstep as (v' & Hv' & Hstep).
    apply bind_Ok in Hstep as (rows' & Hrows' & Hstep). injection Hstep as <-. simpl.
    unfold _add_hatch_to_current_row in Hrows'.
    apply on_last_row_Ok in Hrows' as (init & r0 & r' & Heq & -> & Hadd).
    assert (Hr0 : r0 ∈ l_rows st) by (rewrite Heq; apply elem_of_app; right; left).
    assert (HPv' : P (v_begin v') /\ P (v_end v')).
    { destruct (is_prev_horizontal st) eqn:Hflag.
      - apply bind_Ok in Hv' as (l & Hl & Hv'). apply bind_Ok in Hv' as (fv & Hfv & Hv').
        injection Hv' as <-. simpl. split; [|exact HPend].
        unfold subscript_last in Hl. rewrite Heq, last_snoc in Hl. injection Hl as <-.
        apply final_vector_in in Hfv as (w & Hw & ->). apply (Hdots r0 w Hr0 Hw).
      - injection Hv' as <-. split; [|exact HPend].
        destruct Hpend as [|Hpend]; [discriminate|]. apply Hpend. exact Hvec. }
    pose proof (add_hatch_vectors _ _ _ _ _ Hadd) as Hvl.
    apply add_hatch_frame in Hadd as (_ & _ & Hne').
    split; [|split; [|right; exact Hnext]].
    + intros r v Hr Hv. apply elem_of_app in Hr as [Hr|Hr].
      * apply (Hdots r v); [rewrite Heq; apply elem_of_app; left; exact Hr | exact Hv].
      * apply list_elem_of_singleton in Hr. subst r. rewrite Hvl in Hv.
        apply extend_or_append_in in Hv as [Hv | [-> | (v0 & Hv0 & ->)]].
        -- apply (Hdots r0 v Hr0 Hv).
        -- exact HPv'.
        -- simpl. split; [apply (Hdots r0 v0 Hr0 Hv0) | apply HPv'].
    + intros r Hr. apply elem_of_app in Hr as [Hr|Hr].
      * apply Hne. rewrite Heq. apply elem_of_app. left. exact Hr.
      * apply list_elem_of_singleton in Hr. subst r. exact Hne'.
  - apply bind_Ok in Hstep as ([[[rows' added] rid] ev] & Hp & Hstep).
    injection Hstep as <-. simpl. unfold _process_hatch_not_current_row in Hp.
    apply bind_Ok in Hp as (found & _ & Hp). destruct found as [row|].
    + injection Hp as <- <- <- <-.
      split; [exact Hdots|]. split; [exact Hne|].
      destruct Hpend as [Hflag|_]; [left; exact Hflag | right; exact Hnext].
    + apply bind_Ok in Hp as (rows2 & Hrows2 & Hp). injection Hp as <- <- <- <-.
      apply on_last_row_Ok in Hrows2 as (init & r0 & r' & Heq & -> & Hupd).
      apply update_top_bottom_vectors in Hupd.
      assert (Hr0 : r0 ∈ l_rows st) by (rewrite Heq; apply elem_of_app; right; left).
      split; [|split].
      * intros r v Hr Hv. apply elem_of_app in Hr as [Hr|Hr];
          [apply elem_of_app in Hr as [Hr|Hr]|].
        -- apply (Hdots r v); [rewrite Heq; apply elem_of_app; left; exact Hr | exact Hv].
        -- apply list_elem_of_singleton in Hr. subst r. rewrite Hupd in Hv.
           apply (Hdots r0 v Hr0 Hv).
        -- apply list_elem_of_singleton in Hr. subst r. simpl in Hv.
           apply list_elem_of_singleton in Hv. subst v. simpl. auto.
      * intros r Hr. apply elem_of_app in Hr as [Hr|Hr];
          [apply elem_of_app in Hr as [Hr|Hr]|].
        -- apply Hne. rewrite Heq. apply elem_of_app. left. exact Hr.
        -- apply list_elem_of_singleton in Hr. subst r. rewrite Hupd. apply Hne. exact Hr0.
        -- apply list_elem_of_singleton in Hr. subst r. simpl. discriminate.
      * destruct Hpend as [Hflag|_]; [left; exact Hflag | right; exact Hnext].
Qed.

Lemma process_dots (P : Dot -> Prop) (m m' : RowsManager) (tr : list event) (v0 : Vector) :
  linked_vectors (vectors m) ->
  (forall k v, vectors m !! S k = Some v -> next_is_horizontal m k = Ok false ->
               P (v_end v)) ->
  vectors m !! 0%nat = Some v0 -> P (v_begin v0) -> P (v_end v0) ->
  process m = Ok (m', tr) ->
  forall r v, r ∈ rows m' -> v ∈ vectors_list r -> P (v_begin v) /\ P (v_end v).
Proof.
  intros Hlinked Hend Hv0 HP0 HP0' Hproc.
  unfold process in Hproc. unfold subscript in Hproc. rewrite Hv0 in Hproc. simpl in Hproc.
  apply bind_Ok in Hproc as (st & Hloop & Hproc).
  apply bind_Ok in Hproc as (rows' & Hpost & Hproc). injection Hproc as <- _. simpl.
  assert (Hinv : dots_invariant P m (length (loop_items m)) st).
  { eapply (for_each_invariant_indexed (process_step m) (loop_items m)
              (fun j s => dots_invariant P m j s)); [| |exact Hloop].
    - intros k [i [c [vec [t b]]]] s s' Hk Hq Hb.
      apply loop_items_lookup in Hk as (-> & _ & Hvec & _).
      eapply process_step_dots; eassumption.
    - split; [|split].
      + intros r v Hr Hv. apply list_elem_of_singleton in Hr. subst r. simpl in Hv.
        apply list_elem_of_singleton in Hv. subst v. auto.
      + intros r Hr. apply list_elem_of_singleton in Hr. subst r. discriminate.
      + right. intros vec Hvec. destruct (Hlinked 0%nat vec Hvec) as (p & Hp & ->).
        rewrite Hv0 in Hp. injection Hp as <-. exact HP0'. }
  destruct Hinv as (Hdots & _).
  intros r v Hr Hv.
  destruct (is_added_to_existing_row st); simpl in Hpost.
  - injection Hpost as <-. apply (Hdots r v Hr Hv).
  - apply bind_Ok in Hpost as (t & _ & Hpost).
    apply bind_Ok in Hpost as (rows1 & Hu1 & Hpost).
    apply bind_Ok in Hpost as (b & _ & Hu2).
    apply on_last_row_Ok in Hu1 as (init & r0 & r1 & Heq & -> & Hf1).
    apply on_last_row_Ok in Hu2 as (init' & r1' & r2 & Heq' & -> & Hf2).
    apply app_inj_tail in Heq' as (<- & <-).
    apply _update_top_vectors in Hf1. apply _update_bottom_vectors in Hf2.
    apply elem_of_app in Hr as [Hr|Hr].
    + apply (Hdots r v); [rewrite Heq; apply elem_of_app; left; exact Hr | exact Hv].
    + apply list_elem_of_singleton in Hr. subst r. rewrite Hf2, Hf1 in Hv.
      apply (Hdots r0 v); [rewrite Heq; apply elem_of_app; right; left | exact Hv].
Qed.

Lemma upright_in_dots (hs : list Hatch) (self m : RowsManager) (k : nat) (h : Hatch) :
  add_hatches (clear self) hs = (m, Ok tt) ->
  hs !! k = Some h -> upright h = true -> middle_dot h ∈ dots m.
Proof.
  intros Hfeed Hk Hup. apply add_hatches_dots_from in Hfeed as (Hd & _).
  rewrite (Hd eq_refl). simpl.
  apply list_elem_of_In. apply in_map. apply List.filter_In. split; [|exact Hup].
  apply list_elem_of_In. eapply list_elem_of_lookup_2. exact Hk.
Qed.

Lemma process_keeps_dots (m m' : RowsManager) (tr : list event) :
  process m = Ok (m', tr) -> dots m' = dots m.
Proof.
  intros Hproc. unfold process in Hproc. apply bind_Ok in Hproc as (v0 & _ & Hproc).
  apply bind_Ok in Hproc as (st & _ & Hproc).
  apply bind_Ok in Hproc as (rows' & _ & Hproc). injection Hproc as <- _. reflexivity.
Qed.

Lemma add_hatches_vectors_prefix (l : list Hatch) (s s' : RowsManager) (r : result unit) :
  add_hatches s l = (s', r) -> exists rest, vectors s' = vectors s ++ rest.
Proof.
  revert s. induction l as [|x l IH]; intros s Hrun; simpl in Hrun.
  - injection Hrun as <- _. exists []. rewrite app_nil_r. reflexivity.
  - destruct (add_new_hatch s x) as [s1 [[]|e]] eqn:Hstep.
    + apply add_new_hatch_lists in Hstep as (_ & _ & v & Hv & _).
      apply IH in Hrun as (rest & ->). rewrite Hv, <- app_assoc. eauto.
    + injection Hrun as <- _. unfold add_new_hatch in Hstep. cbv zeta in Hstep.
      destruct (vectors s) eqn:Hvs; [discriminate|].
      destruct (last _);
        [|injection Hstep as <- _; exists []; rewrite Hvs, app_nil_r; reflexivity].
      destruct (get_angle_between_vectors _ _); [discriminate|].
      injection Hstep as <- _. simpl. eauto.
Qed.

(** What feeding strokes, the first of them upright, establishes for
    the pass of [process]. *)
Lemma fed_generators (hs : list Hatch) (self m : RowsManager) (h0 : Hatch) :
  add_hatches (clear self) hs = (m, Ok tt) ->
  hs !! 0%nat = Some h0 -> upright h0 = true ->
  linked_vectors (vectors m) /\
  (forall k v, vectors m !! S k = Some v -> next_is_horizontal m k = Ok false ->
               v_end v ∈ dots m) /\
  exists v0, vectors m !! 0%nat = Some v0 /\ v_begin v0 ∈ dots m /\ v_end v0 ∈ dots m.
Proof.
  intros Hfeed Hh0 Hup.
  pose proof (add_hatches_lists _ _ _ Hfeed) as (Ht & Hb & Hv). simpl in Ht, Hb, Hv.
  assert (Hmid : forall k v, vectors m !! k = Some v ->
            exists h, hs !! k = Some h /\ v_end v = middle_dot h).
  { intros k v Hk.
    assert (Hk' : map v_end (vectors m) !! k = Some (v_end v))
      by (rewrite list_lookup_fmap, Hk; reflexivity).
    rewrite Hv, list_lookup_fmap in Hk'.
    destruct (hs !! k) as [h|]; [|discriminate]. simpl in Hk'. injection Hk' as Hk'.
    exists h. auto. }
  split; [|split].
  - eapply add_hatches_linked; [|exact Hfeed]. intros j w Hj. simpl in Hj. discriminate.
  - intros k v Hk Hnext. destruct (Hmid _ _ Hk) as (h & Hh & ->).
    eapply upright_in_dots; try eassumption.
    unfold next_is_horizontal in Hnext.
    assert (Hlen : (k + 1 < length (top_list m))%nat).
    { rewrite Ht, length_map. apply lookup_lt_Some in Hh. lia. }
    rewrite decide_True in Hnext by exact Hlen.
    unfold subscript in Hnext. rewrite Ht, Hb, !list_lookup_fmap in Hnext.
    replace (k + 1)%nat with (S k) in Hnext by lia. rewrite Hh in Hnext. simpl in Hnext.
    injection Hnext as Hnext. unfold upright. rewrite Hnext. reflexivity.
  - destruct hs as [|h hs']; [discriminate|]. simpl in Hh0. injection Hh0 as ->.
    pose proof Hfeed as Hfeed'. cbn [add_hatches] in Hfeed'.
    destruct (add_new_hatch_first (clear self) h0 eq_refl) as (m1 & Hm1 & Hv1 & _).
    rewrite Hm1 in Hfeed'.
    apply add_hatches_vectors_prefix in Hfeed' as (rest & Hrest). rewrite Hv1 in Hrest.
    eexists. rewrite Hrest. simpl. split; [reflexivity|].
    split; eapply (upright_in_dots _ _ _ 0%nat); try eassumption; reflexivity.
Qed.

(** X14.  Every dot of every row is a generator of the tessellation.
    When the first stroke fed is not horizontal, the begin and the end
    of every vector of every row that [process] returns are in [dots]:
    the vector that leads to a horizontal stroke is skipped, and the
    vector that leaves one is stitched to the end of the row. *)
Theorem row_dots_are_generators (hs : list Hatch) (self m m' : RowsManager)
    (tr : list event) (h0 : Hatch) :
  add_hatches (clear self) hs = (m, Ok tt) ->
  hs !! 0%nat = Some h0 -> upright h0 = true ->
  process m = Ok (m', tr) ->
  forall r v, r ∈ rows m' -> v ∈ vectors_list r ->
    v_begin v ∈ dots m' /\ v_end v ∈ dots m'.
Proof.
  intros Hfeed Hh0 Hup Hproc.
  rewrite (process_keeps_dots _ _ _ Hproc).
  destruct (fed_generators _ _ _ _ Hfeed Hh0 Hup) as (Hlinked & Hend & v0 & Hv0 & Hb0 & He0).
  eapply (process_dots (fun p => p ∈ dots m)); eassumption.
Qed.

End Generators.

(** The row of the two example strokes: its vector runs between two
    dots of [dots]. *)
Lemma row_dots_are_generators_witness :
  let L := SpecLib.spec_lib 0 in
  exists r v, rows Examples.two_strokes_processed = [r] /\ vectors_list r = [v] /\
    v_begin v ∈ dots Examples.two_strokes_processed /\
    v_end v ∈ dots Examples.two_strokes_processed.
Proof.
  intros L.
  assert (Hfeed : add_hatches (clear RowsManager_init) Examples.two_strokes
                  = (Examples.two_manager, Ok tt)) by (vm_compute; reflexivity).
  assert (Hproc : process Examples.two_manager = Examples.two_run)
    by (vm_compute; reflexivity).
  unfold Examples.two_run in Hproc.
  eexists _, _. split; [reflexivity|]. split; [reflexivity|].
  eapply (row_dots_are_generators _ _ _ _ _ (Examples.stroke 100 0)
            Hfeed eq_refl eq_refl Hproc); left.
Defined.

(** ** Attaching the cells to the rows *)

(** X15.  The list [neighbor_cells] of [add_voronoi_cells].  For a row
    of at least two cells it has one entry per cell: the cell before
    it in the row, if there is one, and the cell after it, if there is
    one.  For a row of fewer than two cells the subscript
    [row.voronoi_cells[1]] raises [IndexError]. *)
Theorem neighbor_cells_row_adjacent (cells : list Z) :
  neighbor_cells cells =
    if decide (2 <= length cells)%nat
    then Ok (map (row_adjacent cells) (seq 0 (length cells)))
    else Raise IndexError.
Proof.
  unfold neighbor_cells.
  destruct cells as [|c0 [|c1 cells]]; [reflexivity | reflexivity |].
  rewrite decide_True by (simpl; lia).
  set (l := c0 :: c1 :: cells).
  assert (Hlen : length l = S (S (length cells))) by reflexivity.
  unfold subscript at 1. simpl (l !! 1%nat). cbn [bind].
  rewrite (map_result_map _ (row_adjacent l)).
  2: { intros i Hi. apply elem_of_seq in Hi.
       unfold subscript.
       destruct (l !! (i - 1)%nat) as [a|] eqn:Ha;
         [|apply lookup_ge_None in Ha; lia].
       destruct (l !! (i + 1)%nat) as [b|] eqn:Hb;
         [|apply lookup_ge_None in Hb; lia].
       simpl. unfold row_adjacent. destruct i as [|j]; [lia|].
       replace (S j - 1)%nat with j in Ha by lia.
       replace (S j + 1)%nat with (S (S j)) in Hb by lia.
       rewrite Ha, Hb. reflexivity. }
  cbn [bind]. unfold py_index.
  replace (0 <=? -2)%Z with false by reflexivity.
  replace (- -2 <=? Z.of_nat (length l))%Z with true by (symmetry; apply Z.leb_le; lia).
  replace (Z.to_nat (Z.of_nat (length l) + -2)) with (length cells) by lia.
  unfold subscript.
  destruct (l !! length cells) as [z|] eqn:Hz; [|apply lookup_ge_None in Hz; lia].
  cbn [bind]. f_equal.
  rewrite Hlen. replace (S (S (length cells)) - 2)%nat with (length cells) by lia.
  change (seq 0 (S (S (length cells)))) with (0%nat :: seq 1 (S (length cells))).
  rewrite seq_S. simpl map at 2. rewrite map_app. simpl.
  f_equal. f_equal. unfold row_adjacent.
  destruct (length cells) as [|n] eqn:Hn.
  - destruct cells; [|discriminate]. simpl in *. injection Hz as ->. reflexivity.
  - replace (1 + S n)%nat with (S (S n)) by lia.
    change (l !! S n) with ((c1 :: cells) !! n).
    change (l !! S (S (S n))) with (cells !! S n).
    change (l !! S n) with ((c1 :: cells) !! n) in Hz.
    rewrite Hz. rewrite (proj2 (lookup_ge_None cells (S n))) by lia. reflexivity.
Qed.

Section Cells.
Context `{Lib}.
Import Voronoi.

Lemma registry_items_lookup (reg : registry) (k : Z) (c : Cell) :
  (k, c) ∈ registry_items reg -> reg !! k = Some c.
Proof.
  unfold registry_items. intros Hin. apply list_elem_of_omap in Hin as (k' & _ & Hk').
  destruct (reg !! k') as [c'|] eqn:Hlook; simpl in Hk'; [|discriminate].
  injection Hk' as <- <-. exact Hlook.
Qed.

Lemma cell_id_center_dict_Ok (items : list (Z * Cell)) (p : Dot) (k : Z) :
  cell_id_center_dict items p = Ok k ->
  exists c, (k, c) ∈ items /\ dot_eq (center c) p.
Proof.
  unfold cell_id_center_dict.
  destruct (last (filter _ items)) as [[k' c]|] eqn:Hlast; [|discriminate].
  intros [= <-]. rewrite last_lookup in Hlast.
  apply list_elem_of_lookup_2 in Hlast. apply list_elem_of_filter in Hlast as (Heq & Hin).
  exists c. split; [exact Hin|]. simpl in Heq. unfold dot_eqb in Heq.
  apply Is_true_true in Heq. apply andb_true_iff in Heq as (H1 & H2).
  split; apply Qeq_bool_iff; assumption.
Qed.

Lemma cell_id_center_dict_KeyError (items : list (Z * Cell)) (p : Dot) :
  (forall k c, (k, c) ∈ items -> ~ dot_eq (center c) p) ->
  cell_id_center_dict items p = Raise KeyError.
Proof.
  intros Hno. unfold cell_id_center_dict.
  destruct (last (filter _ items)) as [[k' c]|] eqn:Hlast; [|reflexivity].
  exfalso. rewrite last_lookup in Hlast.
  apply list_elem_of_lookup_2 in Hlast. apply list_elem_of_filter in Hlast as (Heq & Hin).
  apply (Hno _ _ Hin). simpl in Heq. unfold dot_eqb in Heq.
  apply Is_true_true in Heq. apply andb_true_iff in Heq as (H1 & H2).
  split; apply Qeq_bool_iff; assumption.
Qed.

(** X16.  The first loop of [add_voronoi_cells] on one row.  When it
    returns it has appended to [voronoi_cells] one cell more than the
    row has vectors: for each vector a cell whose center is the begin
    of the vector, then a cell whose center is the end of the last
    vector; each of them is a cell of the registry. *)
Theorem attach_cells_centers (reg : registry) (row row' : MatrixRow) :
  attach_cells (registry_items reg) row = Ok row' ->
  exists cells,
    row' = set_voronoi_cells row (voronoi_cells row ++ cells) /\
    length cells = S (length (vectors_list row)) /\
    Forall2 (fun k p => exists c, reg !! k = Some c /\ dot_eq (center c) p)
            cells (attach_dots row).
Proof.
  unfold attach_cells. intros Hrun.
  apply bind_Ok in Hrun as (begins & Hbegins & Hrun).
  apply bind_Ok in Hrun as (w & Hw & Hrun).
  apply bind_Ok in Hrun as (e & He & Hrun). injection Hrun as <-.
  exists (begins ++ [e]). split; [reflexivity|].
  apply map_result_Ok in Hbegins.
  pose proof (Forall2_length _ _ _ Hbegins) as Hlen.
  split; [rewrite length_app; simpl; lia|].
  unfold attach_dots. unfold subscript_last in Hw.
  destruct (last (vectors_list row)) as [w'|]; [|discriminate]. injection Hw as ->.
  apply Forall2_app.
  - apply Forall2_fmap_r. apply Forall2_flip. eapply Forall2_impl; [exact Hbegins|].
    intros v k Hk. apply cell_id_center_dict_Ok in Hk as (c & Hin & Hc).
    exists c. split; [apply registry_items_lookup; exact Hin | exact Hc].
  - simpl. constructor; [|constructor].
    apply cell_id_center_dict_Ok in He as (c & Hin & Hc).
    exists c. split; [apply registry_items_lookup; exact Hin | exact Hc].
Qed.


Lemma cell_id_center_dict_cases (items : list (Z * Cell)) (p : Dot) :
  (exists k, cell_id_center_dict items p = Ok k) \/
  cell_id_center_dict items p = Raise KeyError.
Proof.
  unfold cell_id_center_dict. destruct (last _) as [kc|]; eauto.
Qed.

(** X17.  A missing key.  If the begin of some vector of the row, or
    the end of its last vector, is the center of no cell of the
    registry, the first loop of [add_voronoi_cells] raises [KeyError]. *)
Theorem attach_cells_missing_center (reg : registry) (row : MatrixRow) (p : Dot) :
  p ∈ attach_dots row ->
  (forall k c, reg !! k = Some c -> ~ dot_eq (center c) p) ->
  attach_cells (registry_items reg) row = Raise KeyError.
Proof.
  intros Hp Hno.
  assert (Hmiss : cell_id_center_dict (registry_items reg) p = Raise KeyError).
  { apply cell_id_center_dict_KeyError. intros k c Hin.
    apply Hno with k. apply registry_items_lookup. exact Hin. }
  unfold attach_cells, attach_dots in *.
  apply elem_of_app in Hp as [Hp|Hp].
  - apply list_elem_of_fmap in Hp as (v & -> & Hv).
    rewrite (map_result_raises _ _ KeyError); [reflexivity | |].
    + intros a _. apply cell_id_center_dict_cases.
    + exists v. auto.
  - destruct (map_result _ (vectors_list row)) as [begins|e] eqn:Hb.
    + simpl. unfold subscript_last.
      destruct (last (vectors_list row)) as [w|]; [|inversion Hp].
      simpl in Hp. apply list_elem_of_singleton in Hp. subst p. simpl.
      rewrite Hmiss. reflexivity.
    + simpl. f_equal.
      assert (Hcases : forall l e',
                map_result (fun v => cell_id_center_dict (registry_items reg) (v_begin v)) l
                = Raise e' -> e' = KeyError).
      { clear. induction l as [|a l IH]; intros e' Hr; simpl in Hr; [discriminate|].
        destruct (cell_id_center_dict_cases (registry_items reg) (v_begin a)) as [(k & Hk)|Hk];
          rewrite Hk in Hr; simpl in Hr.
        - destruct (map_result _ l) eqn:Hl; simpl in Hr; [discriminate|].
          injection Hr as <-. apply IH. reflexivity.
        - congruence. }
      eapply Hcases. exact Hb.
Qed.

(** X18.  A row of a single stroke, that is, one vector from a dot to
    itself.  The first loop of [add_voronoi_cells] attaches the cell of
    that dot twice; the second loop then asks the cell for its width
    against itself, and since no cell is its own neighbour,
    [calculate_width] raises [AttributeError]. *)
Theorem lone_stroke_row_width (reg : registry) (row row' : MatrixRow) (v : Vector) :
  ids_are_keys reg ->
  (forall k c n, reg !! k = Some c -> n ∈ neighbors c -> neighbor_id n <> k) ->
  vectors_list row = [v] -> v_begin v = v_end v -> voronoi_cells row = [] ->
  attach_cells (registry_items reg) row = Ok row' ->
  exists k, voronoi_cells row' = [k; k] /\
    calculate_widths reg row' = Raise AttributeError.
Proof.
  intros Hids Hself Hvl Hdeg Hcells Hatt. unfold attach_cells in Hatt.
  rewrite Hvl, Hcells in Hatt. simpl in Hatt.
  apply bind_Ok in Hatt as (begins & Hb & Hatt).
  apply bind_Ok in Hb as (k & Hk & Hb). injection Hb as <-.
  rewrite <- Hdeg, Hk in Hatt. simpl in Hatt. injection Hatt as <-.
  exists k. split; [reflexivity|].
  apply cell_id_center_dict_Ok in Hk as (c & Hin & _).
  apply registry_items_lookup in Hin.
  unfold calculate_widths. simpl.
  unfold lookup_cell. rewrite Hin. simpl. rewrite (Hids _ _ Hin).
  unfold calculate_width, matching_neighbors.
  assert (Hnone : filter (fun n => neighbor_id n ∈ [k]) (neighbors c) = []).
  { destruct (filter _ (neighbors c)) as [|n l] eqn:Hf; [reflexivity|]. exfalso.
    assert (Hn : n ∈ filter (fun n => neighbor_id n ∈ [k]) (neighbors c))
      by (rewrite Hf; left).
    apply list_elem_of_filter in Hn as (Hin' & Hn).
    apply list_elem_of_singleton in Hin'. apply (Hself _ _ _ Hin Hn). exact Hin'. }
  rewrite Hnone. reflexivity.
Qed.

Lemma same_but_width_refl (c : Cell) : same_but_width c c.
Proof. destruct c. reflexivity. Qed.

Lemma same_but_width_trans (a b c : Cell) :
  same_but_width a b -> same_but_width b c -> same_but_width a c.
Proof. unfold same_but_width. intros -> ->. reflexivity. Qed.

Lemma cellwise_refl (R : Cell -> Cell -> Prop) (reg : registry) :
  (forall c, R c c) -> cellwise R reg reg.
Proof. intros HR k. destruct (reg !! k); constructor. apply HR. Qed.

Lemma cellwise_trans (R : Cell -> Cell -> Prop) (r1 r2 r3 : registry) :
  (forall a b c, R a b -> R b c -> R a c) ->
  cellwise R r1 r2 -> cellwise R r2 r3 -> cellwise R r1 r3.
Proof.
  intros HR H12 H23 k. specialize (H12 k). specialize (H23 k).
  destruct H12 as [a b Hab|]; inversion H23; subst; constructor. eapply HR; eassumption.
Qed.

Lemma cellwise_insert (R : Cell -> Cell -> Prop) (reg : registry) (k : Z) (c c' : Cell) :
  (forall c, R c c) -> reg !! k = Some c -> R c c' -> cellwise R reg (<[k := c']> reg).
Proof.
  intros HR Hk Hc a. destruct (decide (k = a)) as [<-|Hne].
  - rewrite lookup_insert_eq, Hk. constructor. exact Hc.
  - rewrite lookup_insert_ne by exact Hne. destruct (reg !! a); constructor. apply HR.
Qed.

Lemma calculate_width_same (c c' : Cell) (ids : list Z) :
  calculate_width c ids = Ok c' -> same_but_width c c'.
Proof.
  unfold calculate_width.
  destruct (matching_neighbors c ids) as [|n0 [|n1 [|n2 l]]]; try discriminate; intros Hc.
  - apply bind_Ok in Hc as (w & _ & Hc). injection Hc as <-. reflexivity.
  - apply bind_Ok in Hc as (w1 & _ & Hc). apply bind_Ok in Hc as (w2 & _ & Hc).
    injection Hc as <-. reflexivity.
Qed.

Lemma calculate_width_at_same (reg reg' : registry) (kn : Z * list Z) :
  calculate_width_at reg kn = Ok reg' -> cellwise same_but_width reg reg'.
Proof.
  destruct kn as [k ns]. unfold calculate_width_at. intros Hrun.
  apply bind_Ok in Hrun as (ids & _ & Hrun).
  apply bind_Ok in Hrun as (c & Hc & Hrun). apply lookup_cell_Ok in Hc.
  apply bind_Ok in Hrun as (c' & Hc' & Hrun). injection Hrun as <-.
  apply (cellwise_insert _ _ _ c); [apply same_but_width_refl | exact Hc |].
  eapply calculate_width_same. exact Hc'.
Qed.

Lemma for_each_cellwise {A} (R : Cell -> Cell -> Prop)
    (body : registry -> A -> result registry) (l : list A) (reg reg' : registry) :
  (forall c, R c c) -> (forall a b c, R a b -> R b c -> R a c) ->
  (forall r a r', body r a = Ok r' -> cellwise R r r') ->
  for_each body reg l = Ok reg' -> cellwise R reg reg'.
Proof.
  intros Hrefl Htrans Hbody. revert reg. induction l as [|a l IH]; intros reg Hrun;
    simpl in Hrun.
  - injection Hrun as <-. apply cellwise_refl. exact Hrefl.
  - apply bind_Ok in Hrun as (r1 & H1 & Hrun).
    eapply cellwise_trans; [exact Htrans | eapply Hbody; exact H1 | apply IH; exact Hrun].
Qed.

(** X19.  What [add_voronoi_cells] changes when it returns.  In the
    registry: the [digit_width] of cells, and nothing else; no cell is
    added or removed.  In the manager: each row gets one cell more than
    it has vectors appended to [voronoi_cells], and nothing else
    changes. *)
Theorem add_voronoi_cells_frame (self self' : RowsManager) (reg reg' : registry) :
  add_voronoi_cells self reg = Ok (self', reg') ->
  cellwise same_but_width reg reg' /\
  Forall2 (fun r r' => exists cells,
             r' = set_voronoi_cells r (voronoi_cells r ++ cells) /\
             length cells = S (length (vectors_list r)))
          (rows self) (rows self') /\
  (vectors self', dots self', Manager.cos_list self', top_list self', bottom_list self')
    = (vectors self, dots self, Manager.cos_list self, top_list self, bottom_list self).
Proof.
  unfold add_voronoi_cells. destruct (processed self); simpl; [|discriminate].
  intros Hrun. apply bind_Ok in Hrun as (rows' & Hrows & Hrun).
  apply bind_Ok in Hrun as (reg1 & Hreg & Hrun). injection Hrun as <- <-. simpl.
  split; [|split; [|reflexivity]].
  - eapply (for_each_cellwise same_but_width); [| | |exact Hreg].
    + apply same_but_width_refl.
    + apply same_but_width_trans.
    + intros r row r' Hw. unfold calculate_widths in Hw.
      apply bind_Ok in Hw as (ncs & _ & Hw).
      eapply (for_each_cellwise same_but_width); [| | |exact Hw].
      * apply same_but_width_refl.
      * apply same_but_width_trans.
      * intros r0 a r0' Ha. eapply calculate_width_at_same. exact Ha.
  - apply map_result_Ok in Hrows. eapply Forall2_impl; [exact Hrows|].
    intros r r' Hatt. unfold attach_cells in Hatt.
    apply bind_Ok in Hatt as (begins & Hbegins & Hatt).
    apply bind_Ok in Hatt as (w & _ & Hatt).
    apply bind_Ok in Hatt as (e & _ & Hatt). injection Hatt as <-.
    exists (begins ++ [e]). split; [reflexivity|].
    apply map_result_Ok, Forall2_length in Hbegins.
    rewrite length_app. simpl. lia.
Qed.

End Cells.

(** The cells of the row from (100, 0) to (80, 0). *)
Lemma attach_cells_centers_witness :
  let L := SpecLib.spec_lib 0 in
  exists row' cells,
    attach_cells (registry_items Examples.bare_registry) Examples.bare_row = Ok row' /\
    row' = set_voronoi_cells Examples.bare_row cells /\
    length cells = 2%nat.
Proof.
  intros L.
  destruct (attach_cells (registry_items Examples.bare_registry) Examples.bare_row)
    as [row'|e] eqn:Hatt; [|vm_compute in Hatt; discriminate Hatt].
  destruct (attach_cells_centers _ _ _ Hatt) as (cells & Hrow & Hlen & _).
  exists row', cells. split; [reflexivity|]. split; [exact Hrow | exact Hlen].
Defined.

(** No cell of [bare_registry] has its center at (1, 1). *)
Lemma attach_cells_missing_center_witness :
  let L := SpecLib.spec_lib 0 in
  attach_cells (registry_items Examples.bare_registry) Examples.stray_row = Raise KeyError.
Proof.
  intros L.
  apply (attach_cells_missing_center Examples.bare_registry Examples.stray_row (1, 1)).
  - left.
  - intros k c Hk. unfold Examples.bare_registry in Hk.
    rewrite create_cells_lookup in Hk by apply lookup_empty.
    destruct (decide _) as [Hr|Hr]; [|discriminate Hk].
    simpl in Hr.
    assert (Hcases : k = 0%Z \/ k = 1%Z) by lia.
    destruct Hcases as [-> | ->]; simpl in Hk; injection Hk as <-;
      intros [Hx _]; vm_compute in Hx; discriminate Hx.
Defined.

(** The stroke at (100, 0) alone in a row. *)
Lemma lone_stroke_row_width_witness :
  let L := SpecLib.spec_lib 0 in
  exists row' k,
    attach_cells (registry_items Examples.bare_registry) Examples.lone_row = Ok row' /\
    voronoi_cells row' = [k; k] /\
    calculate_widths Examples.bare_registry row' = Raise AttributeError.
Proof.
  intros L.
  destruct (attach_cells (registry_items Examples.bare_registry) Examples.lone_row)
    as [row'|e] eqn:Hatt; [|vm_compute in Hatt; discriminate Hatt].
  destruct (lone_stroke_row_width Examples.bare_registry Examples.lone_row row'
              (mkVector (100, 0) (100, 0))) as (k & Hcells & Hraise).
  - apply create_cells_ids.
  - intros k c n Hk Hn. unfold Examples.bare_registry in Hk.
    rewrite create_cells_lookup in Hk by apply lookup_empty.
    destruct (decide _); [|discriminate Hk].
    apply fmap_Some in Hk as (d & _ & ->). inversion Hn.
  - reflexivity.
  - reflexivity.
  - reflexivity.
  - exact Hatt.
  - exists row', k. split; [reflexivity|]. split; [exact Hcells | exact Hraise].
Defined.

(** The two cells of [paired_registry] get their widths, 10 each. *)
Lemma add_voronoi_cells_frame_witness :
  let L := SpecLib.spec_lib 0 in
  exists self' reg',
    add_voronoi_cells Examples.bare_manager Examples.paired_registry = Ok (self', reg') /\
    cellwise same_but_width Examples.paired_registry reg' /\
    vectors self' = vectors Examples.bare_manager.
Proof.
  intros L.
  assert (Hrun : add_voronoi_cells Examples.bare_manager Examples.paired_registry
                 = Examples.bare_manager_cells) by (vm_compute; reflexivity).
  unfold Examples.bare_manager_cells in Hrun.
  eexists _, _. split; [exact Hrun|].
  destruct (add_voronoi_cells_frame _ _ _ _ Hrun) as (Hcells & _ & Hrest).
  split; [exact Hcells|]. exact (f_equal (fun x => x.1.1.1.1) Hrest).
Defined.

(** ** The two heuristics *)

Section Predict.
Context `{Lib}.
Import Voronoi.

Lemma same_but_link_refl (c : Cell) : same_but_link c c.
Proof. destruct c. split; [reflexivity | auto]. Qed.

Lemma same_but_link_trans (a b c : Cell) :
  same_but_link a b -> same_but_link b c -> same_but_link a c.
Proof.
  unfold same_but_link. intros [-> H1] [-> H2]. simpl in *. split; [reflexivity | auto].
Qed.

Lemma cellwise_alter (R : Cell -> Cell -> Prop) (f : Cell -> Cell) (reg : registry) (k : Z) :
  (forall c, R c c) -> (forall c, R c (f c)) -> cellwise R reg (alter f k reg).
Proof.
  intros Hrefl Hf a. rewrite lookup_alter. destruct (decide (k = a)) as [<-|].
  - destruct (reg !! k); constructor. apply Hf.
  - destruct (reg !! a); constructor. apply Hrefl.
Qed.

Lemma set_come_with_link (k : Z) (c : Cell) : same_but_link c (set_come_with k c).
Proof. split; [reflexivity|]. intros _. simpl. eauto. Qed.

Lemma set_relative_width_link (w : Q) (c : Cell) : same_but_link c (set_relative_width w c).
Proof. split; [reflexivity|]. intros Hs. exact Hs. Qed.

Lemma predict_step_link (avg : Q) (reg reg' : registry) (item : nat * (Z * Z)) :
  predict_step avg reg item = Ok reg' -> cellwise same_but_link reg reg'.
Proof.
  destruct item as [i [k kn]]. unfold predict_step. intros Hrun.
  apply bind_Ok in Hrun as (cell & _ & Hrun). apply bind_Ok in Hrun as (next & _ & Hrun).
  apply bind_Ok in Hrun as (rel & _ & Hrun).
  assert (H1 : cellwise same_but_link reg (alter (set_relative_width rel) k reg)).
  { apply cellwise_alter; [apply same_but_link_refl | apply set_relative_width_link]. }
  destruct (Qle_bool rel (3 # 2)); injection Hrun as <-; [|exact H1].
  eapply cellwise_trans; [apply same_but_link_trans | exact H1 |].
  apply cellwise_alter; [apply same_but_link_refl | apply set_come_with_link].
Qed.

Lemma predict_step_2_link (row : MatrixRow) (reg reg' : registry) (item : nat * (Z * Z)) :
  predict_step_2 row reg item = Ok reg' ->
  cellwise (fun c c' => same_but_link c c' /\ relative_width c' = relative_width c) reg reg'.
Proof.
  destruct item as [i [k kn]]. unfold predict_step_2. intros Hrun.
  apply bind_Ok in Hrun as (together & _ & Hrun).
  destruct together; injection Hrun as <-.
  - apply cellwise_alter; intros c; (split; [|reflexivity]);
      [apply same_but_link_refl | apply set_come_with_link].
  - apply cellwise_refl. intros c. split; [apply same_but_link_refl | reflexivity].
Qed.

(** X20.  What the two heuristics change when they return.
    [predict_rows_neighbor_cells] changes [relative_width] and
    [come_with] of cells and nothing else;
    [predict_rows_neighbor_cells_2] changes [come_with] only.  Neither
    adds or removes a cell, and neither resets a [come_with] that was
    set. *)
Theorem predict_rows_frame (self : RowsManager) (reg reg' : registry) :
  (predict_rows_neighbor_cells self reg = Ok reg' -> cellwise same_but_link reg reg') /\
  (predict_rows_neighbor_cells_2 self reg = Ok reg' ->
   cellwise (fun c c' => same_but_link c c' /\ relative_width c' = relative_width c)
            reg reg').
Proof.
  split; intros Hrun.
  - eapply (for_each_cellwise same_but_link); [| | |exact Hrun].
    + apply same_but_link_refl.
    + apply same_but_link_trans.
    + intros r row r' Hrow. unfold predict_neighbor_cells in Hrow.
      apply bind_Ok in Hrow as (total & _ & Hrow).
      apply bind_Ok in Hrow as (avg & _ & Hrow).
      eapply (for_each_cellwise same_but_link); [| | |exact Hrow].
      * apply same_but_link_refl.
      * apply same_but_link_trans.
      * intros r0 a r0' Ha. eapply predict_step_link. exact Ha.
  - assert (Hrefl : forall c : Cell, same_but_link c c /\ relative_width c = relative_width c)
      by (intros c; split; [apply same_but_link_refl | reflexivity]).
    assert (Htrans : forall a b c : Cell,
              same_but_link a b /\ relative_width b = relative_width a ->
              same_but_link b c /\ relative_width c = relative_width b ->
              same_but_link a c /\ relative_width c = relative_width a).
    { intros a b c [L1 W1] [L2 W2]. split; [eapply same_but_link_trans; eassumption|].
      congruence. }
    eapply (for_each_cellwise _); [exact Hrefl | exact Htrans | |exact Hrun].
    intros r row r' Hrow. unfold predict_neighbor_cells_2 in Hrow.
    eapply (for_each_cellwise _); [exact Hrefl | exact Htrans | |exact Hrow].
    intros r0 a r0' Ha. eapply predict_step_2_link. exact Ha.
Qed.

End Predict.

(** ** The band of a row *)

Section Band.
Context `{Lib}.

Lemma _update_top_distance (r r' : MatrixRow) (d : Dot) (fv : Vector) :
  final_vector r = Ok fv ->
  _update_top r d = Ok r' ->
  get_dist_to_straight (_top_dot r') (v_begin fv) (v_end fv) = Ok (top r') /\
  (_top_dot r' = Some d /\ top r < top r' \/ _top_dot r' = _top_dot r).
Proof.
  intros Hfv. unfold _update_top.
  destruct (vectors_list r) eqn:Hvl.
  { unfold final_vector, subscript in Hfv. rewrite Hvl in Hfv. discriminate. }
  rewrite Hfv. simpl. intros Hu.
  apply bind_Ok in Hu as (x & Hx & Hu).
  destruct (Qlt_bool (top r) x) eqn:Hlt.
  - injection Hu as <-. simpl. split; [exact Hx|]. left. split; [reflexivity|].
    apply Qlt_bool_true. exact Hlt.
  - apply bind_Ok in Hu as (y & Hy & Hu). injection Hu as <-. simpl. auto.
Qed.

Lemma _update_bottom_distance (r r' : MatrixRow) (d : Dot) (fv : Vector) :
  final_vector r = Ok fv ->
  _update_bottom r d = Ok r' ->
  get_dist_to_straight (_bottom_dot r') (v_begin fv) (v_end fv) = Ok (bottom r') /\
  (_bottom_dot r' = Some d /\ bottom r < bottom r' \/ _bottom_dot r' = _bottom_dot r).
Proof.
  intros Hfv. unfold _update_bottom.
  destruct (vectors_list r) eqn:Hvl.
  { unfold final_vector, subscript in Hfv. rewrite Hvl in Hfv. discriminate. }
  rewrite Hfv. simpl. intros Hu.
  apply bind_Ok in Hu as (x & Hx & Hu).
  destruct (Qlt_bool (bottom r) x) eqn:Hlt.
  - injection Hu as <-. simpl. split; [exact Hx|]. left. split; [reflexivity|].
    apply Qlt_bool_true. exact Hlt.
  - apply bind_Ok in Hu as (y & Hy & Hu). injection Hu as <-. simpl. auto.
Qed.

(** X21.  The band after [add_hatch] has returned.  The row has a
    final vector, which ends where the vector added ends; [top] is the
    distance from the recorded top dot to the line of the final vector,
    and [bottom] that from the recorded bottom dot; the top dot is the
    new one, in which case [top] has grown, or the one recorded before,
    and likewise the bottom dot. *)
Theorem add_hatch_band (r r' : MatrixRow) (v : Vector) (t b : Dot) :
  add_hatch r v t b = Ok r' ->
  exists fv, final_vector r' = Ok fv /\
    v_end fv = v_end v /\
    get_dist_to_straight (_top_dot r') (v_begin fv) (v_end fv) = Ok (top r') /\
    get_dist_to_straight (_bottom_dot r') (v_begin fv) (v_end fv) = Ok (bottom r') /\
    (_top_dot r' = Some t /\ top r < top r' \/ _top_dot r' = _top_dot r) /\
    (_bottom_dot r' = Some b /\ bottom r < bottom r' \/ _bottom_dot r' = _bottom_dot r).
Proof.
  unfold add_hatch. intros Hu. apply bind_Ok in Hu as (r1 & H1 & H2).
  set (r0 := extend_or_append r v) in *.
  destruct (extend_or_append_frame r v) as (_ & _ & Hne). fold r0 in Hne.
  destruct (final_vector_Ok r0 Hne) as (fv & Hfv).
  assert (Hfv1 : final_vector r1 = Ok fv).
  { apply _update_top_vectors in H1 as Hv1. unfold final_vector in *. rewrite Hv1. exact Hfv. }
  assert (Hfv' : final_vector r' = Ok fv).
  { apply _update_bottom_vectors in H2 as Hv2. unfold final_vector in *. rewrite Hv2. exact Hfv1. }
  exists fv. split; [exact Hfv'|].
  destruct (_update_top_distance _ _ _ _ Hfv H1) as (Ht & Htd).
  destruct (_update_bottom_distance _ _ _ _ Hfv1 H2) as (Hb & Hbd).
  apply _update_bottom_frame in H2 as (_ & _ & _ & Htop & Htopd & _).
  apply _update_top_frame in H1 as (_ & _ & _ & Hbot & Hbotd & _).
  assert (Hr0 : top r0 = top r /\ bottom r0 = bottom r /\ _top_dot r0 = _top_dot r /\
                _bottom_dot r0 = _bottom_dot r).
  { unfold r0, extend_or_append. destruct (vectors_list r) as [|? [|? ?]]; simpl; auto.
    destruct (negb _); simpl; auto. }
  destruct Hr0 as (E1 & E2 & E3 & E4).
  split; [|split; [|split; [|split]]].
  - apply final_vector_end in Hfv as (w & Hw & ->).
    unfold r0 in Hw. destruct (extend_or_append_cases r v) as [Hc | (v0 & _ & _ & Hc & _)];
      rewrite Hc in Hw.
    + rewrite last_snoc in Hw. injection Hw as <-. reflexivity.
    + simpl in Hw. injection Hw as <-. reflexivity.
  - rewrite Htop, Htopd. exact Ht.
  - exact Hb.
  - rewrite Htop, Htopd, <- E1, <- E3. exact Htd.
  - rewrite <- E2, <- E4, <- Hbot, <- Hbotd. exact Hbd.
Qed.


Lemma add_hatch_extended (r r' : MatrixRow) (v : Vector) (t b : Dot) :
  add_hatch r v t b = Ok r' ->
  vectors_list r' = vectors_list (extend_or_append r v) /\
  _is_vector_extended r' = _is_vector_extended (extend_or_append r v).
Proof.
  unfold add_hatch. intros Hu. apply bind_Ok in Hu as (r1 & H1 & H2).
  apply _update_top_frame in H1 as (_ & V1 & _ & _ & _ & E1).
  apply _update_bottom_frame in H2 as (_ & V2 & _ & _ & _ & E2).
  split; congruence.
Qed.

Lemma add_hatches_appended (items : list (Vector * (Dot * Dot))) (r0 r : MatrixRow) :
  _is_vector_extended r0 = true ->
  for_each (fun r x => add_hatch r x.1 x.2.1 x.2.2) r0 items = Ok r ->
  vectors_list r = vectors_list r0 ++ map fst items /\ _is_vector_extended r = true.
Proof.
  revert r0. induction items as [|x items IH]; intros r0 Hext Hrun; simpl in Hrun.
  - injection Hrun as <-. simpl. rewrite app_nil_r. auto.
  - apply bind_Ok in Hrun as (r1 & H1 & Hrun).
    apply add_hatch_extended in H1 as (V1 & E1).
    assert (Hcase : vectors_list (extend_or_append r0 x.1) = vectors_list r0 ++ [x.1] /\
                    _is_vector_extended (extend_or_append r0 x.1) = true).
    { unfold extend_or_append. rewrite Hext.
      destruct (vectors_list r0) as [|? [|? ?]]; simpl; auto. }
    destruct Hcase as (Hc1 & Hc2).
    apply IH in Hrun as (V & E); [|congruence].
    split; [|exact E]. rewrite V, V1, Hc1, <- app_assoc. reflexivity.
Qed.

(** X22.  The vectors of a row.  On a row seeded with one vector and
    not yet extended, the first [add_hatch] moves the end of the seed
    and appends nothing; every later one appends its vector.  After
    one or more hatches the row holds as many vectors as hatches were
    added. *)
Theorem add_hatch_sequence (r0 r : MatrixRow) (v0 : Vector)
    (x : Vector * (Dot * Dot)) (items : list (Vector * (Dot * Dot))) :
  vectors_list r0 = [v0] -> _is_vector_extended r0 = false ->
  for_each (fun r x => add_hatch r x.1 x.2.1 x.2.2) r0 (x :: items) = Ok r ->
  vectors_list r = mkVector (v_begin v0) (v_end x.1) :: map fst items /\
  length (vectors_list r) = length (x :: items) /\
  _is_vector_extended r = true.
Proof.
  intros Hvl Hext Hrun. simpl in Hrun.
  apply bind_Ok in Hrun as (r1 & H1 & Hrun).
  apply add_hatch_extended in H1 as (V1 & E1).
  assert (Hcase : vectors_list (extend_or_append r0 x.1) = [mkVector (v_begin v0) (v_end x.1)] /\
                  _is_vector_extended (extend_or_append r0 x.1) = true).
  { unfold extend_or_append. rewrite Hvl, Hext. simpl. auto. }
  destruct Hcase as (Hc1 & Hc2).
  apply add_hatches_appended in Hrun as (V & E); [|congruence].
  rewrite V, V1, Hc1. simpl. rewrite length_map. auto.
Qed.



Lemma Qabs_cases (x : Q) : (0 <= x /\ Qabs x == x) \/ (x <= 0 /\ Qabs x == - x).
Proof.
  destruct (Qlt_le_dec x 0) as [Hx|Hx].
  - right. split; [lra|]. apply Qabs_neg. lra.
  - left. split; [exact Hx|]. apply Qabs_pos. exact Hx.
Qed.

Lemma spread_nonneg (a b p : Q) : 0 <= spread a b p.
Proof.
  unfold spread, Qdiv. change (/ 2) with (1 # 2).
  destruct (Qabs_cases (p - a)) as [[? Ha]|[? Ha]];
  destruct (Qabs_cases (p - b)) as [[? Hb]|[? Hb]];
  destruct (Qabs_cases (b - a)) as [[? Hc]|[? Hc]];
  rewrite Ha, Hb, Hc; lra.
Qed.

Lemma spread_between (a b p : Q) :
  a <= p <= b \/ b <= p <= a -> spread a b p == 0.
Proof.
  unfold spread, Qdiv. change (/ 2) with (1 # 2). intros Hp.
  destruct (Qabs_cases (p - a)) as [[? Ha]|[? Ha]];
  destruct (Qabs_cases (p - b)) as [[? Hb]|[? Hb]];
  destruct (Qabs_cases (b - a)) as [[? Hc]|[? Hc]];
  rewrite Ha, Hb, Hc; lra.
Qed.

Lemma Qabs_product (e a b : Q) : e == a * b -> Qabs e == Qabs a * Qabs b.
Proof. intros ->. apply Qabs_Qmult. Qed.

Lemma Qabs_half (x y : Q) : x == y / 2 \/ x == - y / 2 -> Qabs x == Qabs y / 2.
Proof.
  unfold Qdiv. change (/ 2) with (1 # 2). intros Hx.
  destruct (Qabs_cases x) as [[? Ha]|[? Ha]];
  destruct (Qabs_cases y) as [[? Hb]|[? Hb]];
  rewrite Ha, Hb; lra.
Qed.

Hypothesis area : forall a b c, get_triangle_square a b c == SpecLib.triangle_area a b c.

Lemma fan_area_four (x1 x2 x3 x4 p : Dot) :
  fan_area [x1; x2; x3; x4] p =
    0 + get_triangle_square x1 x2 p + get_triangle_square x2 x3 p
      + get_triangle_square x3 x4 p + get_triangle_square x4 x1 p.
Proof. reflexivity. Qed.

Lemma fan_area_horizontal (fv : Vector) (t b : Q) (p : Dot) :
  (v_begin fv).2 == (v_end fv).2 ->
  fan_area (band_corners fv t b) p ==
    (Qabs ((v_end fv).1 - (v_begin fv).1) *
       (Qabs (p.2 - ((v_end fv).2 + b)) + Qabs (p.2 - ((v_end fv).2 - t))) +
     Qabs (t + b) * (Qabs (p.1 - (v_end fv).1) + Qabs (p.1 - (v_begin fv).1))) / 2.
Proof.
  intros Hy. destruct fv as [[xb yb] [xe ye]], p as [px py]. cbn [v_begin v_end fst snd] in *.
  unfold band_corners. rewrite fan_area_four. rewrite !area.
  unfold SpecLib.triangle_area. cbn [v_begin v_end fst snd].
  rewrite (Qabs_product (xb * (ye + b - py) + xe * (py - (yb + b)) + px * (yb + b - (ye + b)))
             (xe - xb) (py - (ye + b))) by (rewrite Hy; ring).
  rewrite (Qabs_product (xe * (ye - t - py) + xe * (py - (ye + b)) + px * (ye + b - (ye - t)))
             (t + b) (px - xe)) by ring.
  rewrite (Qabs_product (xe * (yb - t - py) + xb * (py - (ye - t)) + px * (ye - t - (yb - t)))
             (xe - xb) (-(py - (ye - t)))) by (rewrite Hy; ring).
  rewrite (Qabs_product (xb * (yb + b - py) + xb * (py - (yb - t)) + px * (yb - t - (yb + b)))
             (t + b) (-(px - xb))) by ring.
  rewrite !Qabs_opp. field.
Qed.

(** X24.  The band test on a row whose final vector is horizontal,
    with a [get_triangle_square] that is the area of the triangle.  The
    band is the rectangle between the abscissas of the begin and the
    end of the final vector and between [top] above and [bottom] below
    that vector.  [is_dot_inside_row] accepts a dot exactly when the
    width of the rectangle times the distance of the dot above or below
    it, plus its height times the distance of the dot to its left or
    right, is less than 0.001; in particular it accepts every dot of
    the rectangle. *)
Theorem horizontal_band_test (row : MatrixRow) (fv : Vector) (dot : Dot) :
  final_vector row = Ok fv ->
  (v_begin fv).2 == (v_end fv).2 ->
  let width := Qabs ((v_end fv).1 - (v_begin fv).1) in
  let height := Qabs (top row + bottom row) in
  let ex := spread (v_begin fv).1 (v_end fv).1 dot.1 in
  let ey := spread ((v_end fv).2 - top row) ((v_end fv).2 + bottom row) dot.2 in
  is_dot_inside_row row dot = Ok (Qlt_bool (width * ey + height * ex) (1 # 1000)) /\
  (ex == 0 -> ey == 0 -> is_dot_inside_row row dot = Ok true).
Proof.
  intros Hfv Hy width height ex ey.
  assert (Hmain : is_dot_inside_row row dot
                  = Ok (Qlt_bool (width * ey + height * ex) (1 # 1000))).
  { unfold is_dot_inside_row. rewrite Hfv. cbn [bind]. cbv zeta. f_equal.
    apply Qlt_bool_comp; [|reflexivity].
    rewrite !fan_area_horizontal by exact Hy.
    set (xb := (v_begin fv).1) in *. set (xe := (v_end fv).1) in *.
    set (y := (v_end fv).2) in *.
    assert (Hmx : Qabs ((band_middle fv (top row) (bottom row)).1 - xe) == width / 2).
    { apply Qabs_half. unfold band_middle. simpl. fold xb xe. right. field. }
    assert (Hmx' : Qabs ((band_middle fv (top row) (bottom row)).1 - xb) == width / 2).
    { apply Qabs_half. unfold band_middle. simpl. fold xb xe. left. field. }
    assert (Hmy : Qabs ((band_middle fv (top row) (bottom row)).2 - (y + bottom row))
                  == height / 2).
    { apply Qabs_half. unfold band_middle. simpl. fold y. right. field. }
    assert (Hmy' : Qabs ((band_middle fv (top row) (bottom row)).2 - (y - top row))
                   == height / 2).
    { apply Qabs_half. unfold band_middle. simpl. fold y. left. field. }
    rewrite Hmx, Hmx', Hmy, Hmy'.
    fold width. fold height.
    assert (Hh : Qabs (y + bottom row - (y - top row)) == height).
    { unfold height. apply Qabs_wd. ring. }
    assert (Hdiff : (width * (Qabs (dot.2 - (y + bottom row)) + Qabs (dot.2 - (y - top row))) +
                     height * (Qabs (dot.1 - xe) + Qabs (dot.1 - xb))) / 2 -
                    (width * (height / 2 + height / 2) + height * (width / 2 + width / 2)) / 2
                    == width * ey + height * ex).
    { unfold ex, ey, spread. rewrite Hh. fold width. field. }
    rewrite Hdiff. apply Qabs_pos.
    assert (Hw : 0 <= width) by apply Qabs_nonneg.
    assert (Hh0 : 0 <= height) by apply Qabs_nonneg.
    pose proof (spread_nonneg xb xe dot.1) as Hex.
    pose proof (spread_nonneg (y - top row) (y + bottom row) dot.2) as Hey.
    fold ex in Hex. fold ey in Hey. nra. }
  split; [exact Hmain|].
  intros Hex Hey. rewrite Hmain. f_equal. apply Qlt_bool_true. rewrite Hex, Hey. lra.
Qed.

End Band.


(** The first hatch of the row seeded at (100, 0): the band is 15 above
    and 15 below the vector to (80, 0). *)
Lemma add_hatch_band_witness :
  let L := SpecLib.spec_lib 0 in
  exists r' fv,
    add_hatch Examples.seed_row (mkVector (100, 0) (80, 0)) (100, -(15)) (100, 15) = Ok r' /\
    final_vector r' = Ok fv /\ v_end fv = (80, 0) /\
    top r' == 15 /\ bottom r' == 15 /\
    get_dist_to_straight (_top_dot r') (v_begin fv) (v_end fv) = Ok (top r').
Proof.
  intros L.
  assert (Hadd : add_hatch Examples.seed_row (mkVector (100, 0) (80, 0))
                   (100, -(15)) (100, 15) = Examples.seed_row_1)
    by (vm_compute; reflexivity).
  unfold Examples.seed_row_1 in Hadd.
  destruct (add_hatch_band _ _ _ _ _ Hadd) as (fv & Hfv & Hend & Htop & _).
  eexists _, fv. split; [exact Hadd|]. split; [exact Hfv|]. split; [exact Hend|].
  split; [vm_compute; reflexivity|]. split; [vm_compute; reflexivity | exact Htop].
Defined.

(** Two hatches on the row seeded at (100, 0): two vectors, from
    (100, 0) to (80, 0) and from there to (60, 0). *)
Lemma add_hatch_sequence_witness :
  let L := SpecLib.spec_lib 0 in
  exists r,
    for_each (fun r x => add_hatch r x.1 x.2.1 x.2.2) Examples.seed_row Examples.seed_hatches
      = Ok r /\
    vectors_list r = [mkVector (100, 0) (80, 0); mkVector (80, 0) (60, 0)].
Proof.
  intros L.
  assert (Hrun : for_each (fun r x => add_hatch r x.1 x.2.1 x.2.2)
                   Examples.seed_row Examples.seed_hatches = Examples.seed_row_2)
    by (vm_compute; reflexivity).
  unfold Examples.seed_row_2 in Hrun.
  eexists. split; [exact Hrun|].
  destruct (add_hatch_sequence Examples.seed_row _ (mkVector (100, 0) (100, 0)) _ _
              eq_refl eq_refl Hrun) as (Hvl & _).
  exact Hvl.
Defined.


(** The band of [band_row], from x = 80 to x = 100 and from y = -15 to
    y = 15: the dot (92, 5) is in it, the dot (92, 16) is not. *)
Lemma horizontal_band_test_witness :
  let L := SpecLib.spec_lib 0 in
  is_dot_inside_row Examples.band_row (92, 5) = Ok true /\
  is_dot_inside_row Examples.band_row (92, 16) = Ok false.
Proof.
  intros L.
  assert (Harea : forall a b c, get_triangle_square a b c == SpecLib.triangle_area a b c)
    by (intros a b c; reflexivity).
  assert (Hfv : final_vector Examples.band_row = Ok (mkVector (100, 0) (80, 0)))
    by reflexivity.
  assert (Hy : (v_begin (mkVector (100, 0) (80, 0))).2 == (v_end (mkVector (100, 0) (80, 0))).2)
    by reflexivity.
  split.
  - destruct (horizontal_band_test Harea Examples.band_row _ (92, 5) Hfv Hy) as (_ & Hin).
    apply Hin; vm_compute; reflexivity.
  - destruct (horizontal_band_test Harea Examples.band_row _ (92, 16) Hfv Hy) as (Hout & _).
    rewrite Hout. vm_compute. reflexivity.
Defined.

(** ** Rows and tessellation together *)

Lemma dot_eqb_refl (p : Dot) : dot_eqb p p = true.
Proof. unfold dot_eqb. rewrite !Qeq_bool_refl. reflexivity. Qed.

Section Total.
Context `{Lib} `{Voronoi.Scipy} `{Voronoi.Numpy}.

Lemma generator_has_cell (dots : list Dot) (reg : Voronoi.registry) (p : Dot) :
  Voronoi.process dots = Ok reg -> p ∈ dots ->
  exists k, cell_id_center_dict (registry_items reg) p = Ok k.
Proof.
  intros Hproc Hp. unfold Voronoi.process in Hproc.
  apply bind_Ok in Hproc as (vr & _ & Hrun).
  pose proof (create_cells_ids dots) as Hids.
  apply list_elem_of_lookup in Hp as (i & Hi).
  destruct (process_ridges_neighbors _ _ _ _ Hids Hrun (Z.of_nat i)) as (extra & Hlook & _).
  rewrite create_cells_lookup in Hlook by apply lookup_empty.
  apply lookup_lt_Some in Hi as Hlt.
  rewrite decide_True in Hlook by lia.
  replace (Z.to_nat (Z.of_nat i - 0)) with i in Hlook by lia. rewrite Hi in Hlook.
  simpl in Hlook.
  apply process_ridges_size in Hrun as Hsize; [|exact Hids].
  rewrite create_cells_size in Hsize by (intros k _; apply lookup_empty).
  rewrite map_size_empty in Hsize. simpl in Hsize.
  unfold cell_id_center_dict.
  match goal with |- context [last ?l] => destruct (last l) as [kc|] eqn:Hlast end;
    [eauto|].
  exfalso. apply last_None in Hlast.
  set (c := with_neighbors (fresh_cell (Z.of_nat i) p) extra) in *.
  assert (Hin : (Z.of_nat i, c) ∈ registry_items reg).
  { unfold registry_items. apply list_elem_of_omap. exists (Z.of_nat i). split.
    - apply elem_of_seqZ. lia.
    - rewrite Hlook. reflexivity. }
  refine (filter_nil_not_elem_of _ _ (Z.of_nat i, c) Hlast _ Hin).
  simpl. apply Is_true_true. apply dot_eqb_refl.
Qed.

(** X25.  Rows and cells fit together.  Feed strokes, the first of
    them not horizontal, to a cleared manager; run [process]; tessellate
    the list [dots] of the manager.  Then the first loop of
    [add_voronoi_cells] finds a cell for every dot of every row: it
    raises neither [KeyError] nor [IndexError], and attaches cells to
    every row. *)
Theorem attach_cells_total (hs : list Hatch) (self m m' : RowsManager)
    (tr : list event) (h0 : Hatch) (reg : Voronoi.registry) :
  add_hatches (clear self) hs = (m, Ok tt) ->
  hs !! 0%nat = Some h0 -> upright h0 = true ->
  Manager.process m = Ok (m', tr) ->
  Voronoi.process (dots m') = Ok reg ->
  exists rows', map_result (attach_cells (registry_items reg)) (rows m') = Ok rows' /\
    length rows' = length (rows m').
Proof.
  intros Hfeed Hh0 Hup Hproc Hvor.
  assert (Hgen : forall r v, r ∈ rows m' -> v ∈ vectors_list r ->
            v_begin v ∈ dots m' /\ v_end v ∈ dots m').
  { rewrite (process_keeps_dots _ _ _ Hproc).
    destruct (fed_generators _ _ _ _ Hfeed Hh0 Hup) as (Hlinked & Hend & v0 & Hv0 & Hb0 & He0).
    eapply (process_dots (fun p => p ∈ dots m)); eassumption. }
  assert (Hne : forall r, r ∈ rows m' -> vectors_list r <> []).
  { apply process_numbered in Hproc as (st & (_ & _ & Hrows & _) & _ & Hshape & _).
    destruct Hshape as [-> | (init & r0 & r' & Hst & -> & _ & _ & Hv)].
    - intros r Hr. apply Hrows. exact Hr.
    - intros r Hr. apply elem_of_app in Hr as [Hr|Hr].
      + apply Hrows. rewrite Hst. apply elem_of_app. left. exact Hr.
      + apply list_elem_of_singleton in Hr. subst r. rewrite Hv.
        apply Hrows. rewrite Hst. apply elem_of_app. right. left. }
  destruct (map_result_total (attach_cells (registry_items reg)) (rows m')) as (rows' & Hrows').
  - intros r Hr. unfold attach_cells.
    destruct (map_result_total
                (fun v => cell_id_center_dict (registry_items reg) (v_begin v))
                (vectors_list r)) as (begins & ->).
    { intros v Hv. eapply generator_has_cell; [exact Hvor|]. apply (Hgen r v Hr Hv). }
    simpl. unfold subscript_last.
    destruct (last (vectors_list r)) as [w|] eqn:Hlast;
      [|apply last_None in Hlast; destruct (Hne r Hr Hlast)].
    simpl.
    assert (Hw : w ∈ vectors_list r).
    { rewrite last_lookup in Hlast. eapply list_elem_of_lookup_2. exact Hlast. }
    destruct (generator_has_cell _ _ (v_end w) Hvor) as (e & ->);
      [apply (Hgen r w Hr Hw)|].
    simpl. eauto.
  - exists rows'. split; [exact Hrows'|].
    apply map_result_Ok, Forall2_length in Hrows'. lia.
Qed.

End Total.

(** The four strokes over [kite_dots]: one row, to which the cells of
    the tessellation are attached. *)
Lemma attach_cells_total_witness :
  let L := SpecLib.spec_lib 1 in
  let S := Examples.example_scipy in
  let N := Examples.example_numpy in
  exists rows',
    map_result (attach_cells (registry_items Examples.kite_cells))
               (rows Examples.kite_processed) = Ok rows' /\
    length rows' = 1%nat.
Proof.
  intros L S N.
  assert (Hfeed : add_hatches (clear RowsManager_init) Examples.kite_strokes
                  = (Examples.kite_manager, Ok tt)) by (vm_compute; reflexivity).
  assert (Hproc : Manager.process Examples.kite_manager = Examples.kite_run)
    by (vm_compute; reflexivity).
  unfold Examples.kite_run in Hproc.
  assert (Hvor : Voronoi.process (dots Examples.kite_processed) = Ok Examples.kite_cells)
    by (vm_compute; reflexivity).
  exact (attach_cells_total _ _ _ _ _ (Examples.stroke 0 0) _
           Hfeed eq_refl eq_refl Hproc Hvor).
Defined.

(** ** The digit chosen from the scores *)

Section Argmax.
Import CNN.

Lemma argmax_loop_snoc (f : list Q) (v : Q) :
  argmax_loop (f ++ [v]) = argmax_step (argmax_loop f) (length f, v).
Proof.
  unfold argmax_loop. rewrite imap_app, fold_left_app. simpl.
  rewrite Nat.add_0_r. reflexivity.
Qed.

Lemma argmax_loop_spec (f : list Q) :
  let '(m, d) := argmax_loop f in
  0 <= m /\
  (forall j w, f !! j = Some w -> w <= m) /\
  (0 < m -> f !! d = Some m /\ forall j w, (j < d)%nat -> f !! j = Some w -> w < m) /\
  (~ 0 < m -> m = 0 /\ d = 0%nat).
Proof.
  induction f as [|v f IH] using rev_ind.
  - simpl. split; [lra|]. split; [intros j w Hj; discriminate|].
    split; [intros Hm; lra | auto].
  - rewrite argmax_loop_snoc. destruct (argmax_loop f) as [m d].
    destruct IH as (Hpos & Hmax & Hfirst & Hzero). unfold argmax_step.
    destruct (Qlt_bool m v) eqn:Hlt.
    + apply Qlt_bool_true in Hlt. split; [lra|]. split; [|split].
      * intros j w Hj. apply lookup_app_Some in Hj as [Hj|[_ Hj]].
        -- apply (Hmax j w) in Hj. lra.
        -- destruct (j - length f)%nat; simpl in Hj; [|discriminate].
           injection Hj as <-. lra.
      * intros _. split.
        -- rewrite lookup_app_r by lia. rewrite Nat.sub_diag. reflexivity.
        -- intros j w Hj Hw. rewrite lookup_app_l in Hw by exact Hj.
           apply (Hmax j w) in Hw. lra.
      * intros Hv. lra.
    + apply Qlt_bool_false in Hlt. split; [exact Hpos|]. split; [|split].
      * intros j w Hj. apply lookup_app_Some in Hj as [Hj|[_ Hj]].
        -- apply (Hmax j w). exact Hj.
        -- destruct (j - length f)%nat; simpl in Hj; [|discriminate].
           injection Hj as <-. exact Hlt.
      * intros Hm. destruct (Hfirst Hm) as (Hd & Hbefore).
        split; [apply lookup_app_l_Some; exact Hd|].
        intros j w Hj Hw. apply lookup_lt_Some in Hd.
        rewrite lookup_app_l in Hw by lia. eapply Hbefore; eassumption.
      * exact Hzero.
Qed.

(** X26.  The digit that [predict_concrete_number] picks from the
    scores.  If no score is positive it is 0.  Otherwise it is the
    position of the largest score, the first such position when the
    largest score occurs more than once. *)
Theorem predicted_digit_first_maximum (f : list Q) :
  ((forall j w, f !! j = Some w -> w <= 0) -> predicted_digit f = 0%nat) /\
  (forall i v, f !! i = Some v -> 0 < v ->
     exists m, f !! predicted_digit f = Some m /\
       (forall j w, f !! j = Some w -> w <= m) /\
       (forall j w, (j < predicted_digit f)%nat -> f !! j = Some w -> w < m)).
Proof.
  unfold predicted_digit. pose proof (argmax_loop_spec f) as Hspec.
  destruct (argmax_loop f) as [m d]. destruct Hspec as (Hpos & Hmax & Hfirst & Hzero).
  simpl. split.
  - intros Hall. destruct (Qlt_le_dec 0 m) as [Hm|Hm].
    + destruct (Hfirst Hm) as (Hd & _). apply (Hall d m) in Hd. lra.
    + apply Hzero. lra.
  - intros i v Hi Hv. assert (Hm : 0 < m) by (apply (Hmax i v) in Hi; lra).
    destruct (Hfirst Hm) as (Hd & Hbefore). exists m. auto.
Qed.

End Argmax.

(** ** The dots of a row *)

Section SameDots.
Context `{Lib}.

Lemma contiguous_dots (v : Vector) (vl : list Vector) (w : Vector) :
  contiguous (v :: vl) -> last (v :: vl) = Some w ->
  Forall2 dot_eq (map v_begin (v :: vl) ++ [v_end w]) (v_begin v :: map v_end (v :: vl)).
Proof.
  revert v. induction vl as [|u vl IH]; intros v Hc Hlast.
  - simpl in Hlast. injection Hlast as <-. simpl.
    constructor; [apply dot_eq_refl|]. constructor; [apply dot_eq_refl | constructor].
  - destruct Hc as (Hvu & Hc).
    constructor; [apply dot_eq_refl|].
    specialize (IH u Hc Hlast).
    inversion IH as [|? ? ? ? _ Htail]; subst.
    constructor; [apply dot_eq_sym; exact Hvu | exact Htail].
Qed.

(** X27.  The two heuristics look at the same dots.  On a row that is
    a contiguous chain, the dots for which [add_voronoi_cells] attaches
    cells (the begin of every vector, then the end of the last one) are,
    position by position, the dots between which
    [is_dots_come_together] measures distances (the begin of the first
    vector, then the end of every vector). *)
Theorem attach_dots_row_dots (row : MatrixRow) (dots : list Dot) :
  contiguous (vectors_list row) ->
  row_dots row = Ok dots ->
  Forall2 dot_eq (attach_dots row) dots.
Proof.
  intros Hc Hdots. unfold row_dots, subscript in Hdots. unfold attach_dots.
  destruct (vectors_list row) as [|v vl] eqn:Hvl; [discriminate|].
  simpl in Hdots. injection Hdots as <-.
  destruct (last (v :: vl)) as [w|] eqn:Hlast;
    [|apply last_None in Hlast; discriminate].
  apply (contiguous_dots v vl w Hc Hlast).
Qed.

End SameDots.

(** The row that [process] builds over [kite_strokes]: a chain of three
    vectors, from (0, 0) over (4, 2) and (2, 4) to (6, 6), and four
    dots. *)
Lemma attach_dots_row_dots_witness :
  let row := Examples.first_row (rows Examples.kite_processed) in
  length (vectors_list row) = 3%nat /\
  contiguous (vectors_list row) /\
  exists dots, row_dots row = Ok dots /\ length dots = 4%nat /\
    Forall2 dot_eq (attach_dots row) dots.
Proof.
  intros row.
  assert (Hchain : contiguous (vectors_list row)) by (vm_compute; repeat split).
  split; [reflexivity|]. split; [exact Hchain|].
  destruct (row_dots row) as [dots|e] eqn:Hdots; [|vm_compute in Hdots; discriminate Hdots].
  exists dots. split; [reflexivity|].
  split; [vm_compute in Hdots; injection Hdots as <-; reflexivity|].
  apply (attach_dots_row_dots row dots Hchain Hdots).
Defined.
